(** * vilio: joint embedding alignment and checkpoint compatibility

    A shallow embedding of the parts of [entryX.py] and
    [src/vilio/modeling_bertU.py] that decide the properties of the
    specification: tokenizer-side preprocessing, checkpoint key
    normalisation and loading, and the embedding/alignment front of the
    [BertU] forward pass.

    Part I holds the definitions, Part II the lemmas and theorems of the
    specification, Part III further properties of the code. *)

From Stdlib Require Import ZArith Lia Ascii.
From stdpp Require Import base option list strings gmap.

Local Open Scope Z_scope.

(* ===================================================================== *)
(** * Part I: definitions                                                 *)
(* ===================================================================== *)

(** ** Python built-ins used by the sources *)

Module Py.

(** [s.startswith(p)] *)
Fixpoint startswith (s p : string) {struct p} : bool :=
  match p with
  | EmptyString => true
  | String a p' =>
      match s with
      | EmptyString => false
      | String b s' => if Ascii.eqb a b then startswith s' p' else false
      end
  end.

(** [s[n:]] for a non-negative literal [n] *)
Fixpoint str_drop (n : nat) (s : string) : string :=
  match n, s with
  | O, _ => s
  | S _, EmptyString => EmptyString
  | S k, String _ s' => str_drop k s'
  end.

(** [sub in s] *)
Fixpoint contains (sub s : string) : bool :=
  startswith s sub ||
  match s with
  | EmptyString => false
  | String _ s' => contains sub s'
  end.

(** Left-to-right scan of [str.replace] for a non-empty [old]: [skip]
    counts the characters of the current match still to be dropped. *)
Fixpoint replace_from (old new : string) (skip : nat) (s : string) : string :=
  match s with
  | EmptyString => EmptyString
  | String c s' =>
      match skip with
      | S k => replace_from old new k s'
      | O =>
          if startswith s old
          then new +:+ replace_from old new (String.length old - 1) s'
          else String c (replace_from old new 0 s')
      end
  end.

(** [str.replace] with an empty [old] puts [new] around every character. *)
Fixpoint replace_empty (new s : string) : string :=
  match s with
  | EmptyString => new
  | String c s' => new +:+ String c (replace_empty new s')
  end.

(** [s.replace(old, new)] *)
Definition replace (s old new : string) : string :=
  match old with
  | EmptyString => replace_empty new s
  | String _ _ => replace_from old new 0 s
  end.

(** Truthiness of an optional string: [None] and [''] are falsy. *)
Definition truthy (o : option string) : bool :=
  match o with
  | Some (String _ _) => true
  | _ => false
  end.

(** [len(l)] *)
Definition len {A} (l : list A) : Z := Z.of_nat (length l).

(** [l[:k]]; a negative [k] counts from the end. *)
Definition slice_to {A} (k : Z) (l : list A) : list A :=
  if k <? 0 then take (Z.to_nat (len l + k)) l else take (Z.to_nat k) l.

(** [[x] * n]; a non-positive [n] gives the empty list. *)
Definition times {A} (x : A) (n : Z) : list A := replicate (Z.to_nat n) x.

(** A [str] is held as the bytes of its UTF-8 encoding: a character of
    ASCII is one byte, any other takes two to four bytes, none of them an
    ASCII byte. [startswith], [in] and [replace] on the bytes agree with
    those on the characters, and every slice [key[n:]] of the sources drops
    a prefix the key starts with. *)

(** The UTF-8 encoding of a code point below [0x10000]. *)
Definition utf8 (code_point : N) : string :=
  let byte (n : N) := String (Ascii.ascii_of_N n) in
  (if code_point <? 0x80 then byte code_point EmptyString
   else if code_point <? 0x800 then
     byte (0xC0 + code_point / 0x40)
       (byte (0x80 + code_point mod 0x40) EmptyString)
   else
     byte (0xE0 + code_point / 0x1000)
       (byte (0x80 + (code_point / 0x40) mod 0x40)
          (byte (0x80 + code_point mod 0x40) EmptyString)))%N.

(** The white space of [str.split()] without arguments, which is that of
    [str.isspace]: the code points of bidirectional type WS, B or S and
    those of category Zs. Tab to carriage return, the four separators and
    the space are ASCII; the others are next line, no-break space, the Ogham
    space mark, en quad to hair space, line and paragraph separator, narrow
    no-break space, medium mathematical space and ideographic space. *)
Definition whitespace : list N :=
  [0x09; 0x0A; 0x0B; 0x0C; 0x0D; 0x1C; 0x1D; 0x1E; 0x1F; 0x20;
   0x85; 0xA0; 0x1680;
   0x2000; 0x2001; 0x2002; 0x2003; 0x2004; 0x2005; 0x2006; 0x2007;
   0x2008; 0x2009; 0x200A;
   0x2028; 0x2029; 0x202F; 0x205F; 0x3000]%N.

(** The number of bytes of the white-space character [s] starts with, [0]
    when it starts with none. *)
Definition space_len (s : string) : nat :=
  match List.find (startswith s) (utf8 <$> whitespace) with
  | Some space => String.length space
  | None => 0
  end.

(** [s.split()]: [cur] is the word being read, in reverse, and [skip]
    counts the bytes of the current white-space character still to be
    dropped. *)
Fixpoint split_from (skip : nat) (cur : list ascii) (s : string)
  : list string :=
  let flush :=
    match cur with
    | [] => []
    | _ => [String.string_of_list_ascii (rev cur)]
    end in
  match s with
  | EmptyString => flush
  | String c s' =>
      match skip with
      | S k => split_from k cur s'
      | O =>
          match space_len s with
          | S k => flush ++ split_from k [] s'
          | O => split_from 0 (c :: cur) s'
          end
      end
  end.

Definition split (s : string) : list string := split_from 0 [] s.

(** [sep.join(ws)] *)
Fixpoint join (sep : string) (ws : list string) : string :=
  match ws with
  | [] => EmptyString
  | [w] => w
  | w :: rest => w +:+ sep +:+ join sep rest
  end.

(** A [dict] with string keys, in insertion order. *)
Section Dict.
Context {V : Type}.

Definition dict := list (string * V).

Definition keys (d : list (string * V)) : list string := d.*1.

(** [d.get(k)], [d[k]] *)
Fixpoint dict_get (k : string) (d : list (string * V)) : option V :=
  match d with
  | [] => None
  | (k', v) :: d' => if decide (k' = k) then Some v else dict_get k d'
  end.

(** [k in d] *)
Definition dict_mem (k : string) (d : list (string * V)) : bool :=
  bool_decide (is_Some (dict_get k d)).

(** [d[k] = v]: an existing key keeps its place, a new one goes last. *)
Fixpoint dict_set (k : string) (v : V) (d : list (string * V))
  : list (string * V) :=
  match d with
  | [] => [(k, v)]
  | (k', v') :: d' =>
      if decide (k' = k) then (k, v) :: d' else (k', v') :: dict_set k v d'
  end.

(** [del d[k]] *)
Fixpoint dict_del (k : string) (d : list (string * V)) : list (string * V) :=
  match d with
  | [] => []
  | (k', v') :: d' =>
      if decide (k' = k) then d' else (k', v') :: dict_del k d'
  end.

(** [d.pop(k)]: [None] stands for [KeyError]. *)
Definition dict_pop (k : string) (d : list (string * V))
  : option (V * list (string * V)) :=
  match dict_get k d with
  | Some v => Some (v, dict_del k d)
  | None => None
  end.
End Dict.

End Py.

(** ** [entryX.py] *)

(** The external tokenizer: [tokenize] and the per-token vocabulary lookup
    behind [convert_tokens_to_ids]. *)
Record Tokenizer := {
  tokenize : string → list string;
  convert_token_to_id : string → Z;
}.

Definition convert_tokens_to_ids (tokenizer : Tokenizer) (tokens : list string)
  : list Z :=
  convert_token_to_id tokenizer <$> tokens.

Record InputFeatures := {
  input_ids : list Z;
  input_mask : list Z;
  segment_ids : list Z;
}.

(** [assert c]: [None] stands for [AssertionError]. *)
Definition assert (c : bool) : option unit := if c then Some () else None.

(** Body of the loop of [preprocess_bert] for one sentence. *)
Definition preprocess_bert_one (max_seq_len : Z) (tokenizer : Tokenizer)
    (sent : string) : option InputFeatures :=
  let sent := Py.join " " (Py.split sent) in
  let tokens := tokenize tokenizer sent in
  let tokens :=
    if Py.len tokens >? max_seq_len - 2
    then Py.slice_to (max_seq_len - 2) tokens
    else tokens in
  let tokens := ["[CLS]"] ++ tokens ++ ["[SEP]"] in
  let input_ids := convert_tokens_to_ids tokenizer tokens in
  let segment_ids := Py.times 0 (Py.len input_ids) in
  let input_mask := Py.times 1 (Py.len input_ids) in
  let padding := Py.times 0 (max_seq_len - Py.len input_ids) in
  let input_ids := input_ids ++ padding in
  let input_mask := input_mask ++ padding in
  let segment_ids := segment_ids ++ padding in
  _ ← assert (Py.len input_ids =? max_seq_len);
  _ ← assert (Py.len input_mask =? max_seq_len);
  _ ← assert (Py.len segment_ids =? max_seq_len);
  Some {| input_ids := input_ids;
          input_mask := input_mask;
          segment_ids := segment_ids |}.

(** The three lists of a feature all have the length [max_seq_len]. *)
Definition padded (max_seq_len : Z) (f : InputFeatures) : Prop :=
  Py.len (input_ids f) = max_seq_len ∧
  Py.len (input_mask f) = max_seq_len ∧
  Py.len (segment_ids f) = max_seq_len.

Definition preprocess_bert (sents : list string) (max_seq_len : Z)
    (tokenizer : Tokenizer) : option (list InputFeatures) :=
  mapM (preprocess_bert_one max_seq_len tokenizer) sents.

(** Body of the loop of [preprocess_roberta] for one sentence. *)
Definition preprocess_roberta_one (max_seq_len : Z) (tokenizer : Tokenizer)
    (sent : string) : option InputFeatures :=
  let sent := " " +:+ Py.join " " (Py.split sent) in
  let tokens := tokenize tokenizer sent in
  let tokens :=
    if Py.len tokens >? max_seq_len - 2
    then Py.slice_to (max_seq_len - 2) tokens
    else tokens in
  let input_ids := convert_tokens_to_ids tokenizer tokens in
  let input_ids := [0] ++ input_ids ++ [2] in
  let segment_ids := Py.times 0 (Py.len input_ids) in
  let input_mask := Py.times 1 (Py.len input_ids) in
  let padding_length := max_seq_len - Py.len input_ids in
  let '(input_ids, input_mask, segment_ids) :=
    if padding_length >? 0
    then (input_ids ++ Py.times 1 padding_length,
          input_mask ++ Py.times 0 padding_length,
          segment_ids ++ Py.times 0 padding_length)
    else (input_ids, input_mask, segment_ids) in
  _ ← assert (Py.len input_ids =? max_seq_len);
  _ ← assert (Py.len input_mask =? max_seq_len);
  _ ← assert (Py.len segment_ids =? max_seq_len);
  Some {| input_ids := input_ids;
          input_mask := input_mask;
          segment_ids := segment_ids |}.

Definition preprocess_roberta (sents : list string) (max_seq_len : Z)
    (tokenizer : Tokenizer) : option (list InputFeatures) :=
  mapM (preprocess_roberta_one max_seq_len tokenizer) sents.

(** The tokens of a sentence that the features keep: the first
    [max_seq_len - 2]. *)
Definition kept_tokens (tokenizer : Tokenizer) (max_seq_len : Z)
    (sent : string) : list string :=
  take (Z.to_nat (max_seq_len - 2)) (tokenize tokenizer sent).

(** No white-space character starts inside [w] when [rest] follows it. *)
Fixpoint free_of_space (w rest : string) : Prop :=
  match w with
  | EmptyString => True
  | String _ w' =>
      Py.space_len (w +:+ rest) = 0%nat ∧ free_of_space w' rest
  end.

(** A word of [str.split()]: not empty and free of white space. *)
Definition is_word (w : string) : Prop :=
  w ≠ EmptyString ∧ free_of_space w EmptyString.

(** The text behind a word of [" ".join]: nothing, or the blank. *)
Definition blank_next (rest : string) : Prop :=
  rest = EmptyString ∨ ∃ rest', rest = String " " rest'.

(** No byte of [w] is the blank. *)
Fixpoint blank_free (w : string) : bool :=
  match w with
  | EmptyString => true
  | String c w' => negb (Ascii.eqb c " ") && blank_free w'
  end.

(** [w] is not empty and has no blank behind its first byte. *)
Definition tail_blank_free (w : string) : bool :=
  match w with
  | EmptyString => false
  | String _ w' => blank_free w'
  end.


(** ** The [torch] tensors and modules the checkpoint code works on *)

Module Torch.

(** A checkpoint tensor of rank one (a bias, a layer-norm vector) or rank
    two (a linear or embedding weight, rows first). *)
Inductive tensor (A : Type) :=
| Vec (v : list A)
| Mat (m : list (list A)).
Arguments Vec {A} v.
Arguments Mat {A} m.

(** Width of a matrix given by its rows: the length of a row. *)
Definition width {A} (m : list (list A)) : nat :=
  match m with
  | [] => O
  | row :: _ => length row
  end.

(** [t.shape] *)
Definition shape {A} (t : tensor A) : list nat :=
  match t with
  | Vec v => [length v]
  | Mat m => [length m; width m]
  end.

(** [t[:, :n]]; [None] stands for the [IndexError] that indexing a rank-one
    tensor with two indices raises. *)
Definition slice_cols {A} (n : nat) (t : tensor A) : option (tensor A) :=
  match t with
  | Vec _ => None
  | Mat m => Some (Mat (take n <$> m))
  end.

#[local] Set Warnings "-register-all".

(** An [nn.Module]: its own parameters and persistent buffers
    ([_parameters], [_buffers]) and its named children ([_modules], where a
    child may be [None]). *)
Inductive Module (A : Type) :=
| Mod (parameters : list (string * tensor A))
      (modules : list (string * option (Module A))).
Arguments Mod {A} parameters modules.

Definition parameters {A} (m : Module A) : list (string * tensor A) :=
  match m with Mod ps _ => ps end.

Definition modules {A} (m : Module A) : list (string * option (Module A)) :=
  match m with Mod _ cs => cs end.

(** Keys of [module.state_dict(prefix=prefix)]. *)
Fixpoint state_dict_keys {A} (prefix : string) (m : Module A) : list string :=
  match m with
  | Mod ps cs =>
      ((λ name, prefix +:+ name) <$> ps.*1) ++
      flat_map (λ nc : string * option (Module A),
                  match nc.2 with
                  | Some child => state_dict_keys (prefix +:+ nc.1 +:+ ".") child
                  | None => []
                  end) cs
  end.

(** [hasattr(module, name)] for a parameter, buffer or child name. *)
Definition hasattr {A} (m : Module A) (name : string) : bool :=
  bool_decide (name ∈ (parameters m).*1 ∨ name ∈ (modules m).*1).

(** What a walk over the module tree accumulates: the three lists of the
    loader, and the keys whose tensor was copied into the target
    ([param.copy_(input_param)]). *)
Record report := {
  missing_keys : list string;
  unexpected_keys : list string;
  error_msgs : list string;
  copied_keys : list string;
}.

Definition report_nil : report :=
  {| missing_keys := []; unexpected_keys := []; error_msgs := [];
     copied_keys := [] |}.

Definition report_app (r1 r2 : report) : report :=
  {| missing_keys := missing_keys r1 ++ missing_keys r2;
     unexpected_keys := unexpected_keys r1 ++ unexpected_keys r2;
     error_msgs := error_msgs r1 ++ error_msgs r2;
     copied_keys := copied_keys r1 ++ copied_keys r2 |}.

(** [s.split('.', 1)[0]] *)
Fixpoint first_component (s : string) : string :=
  match s with
  | EmptyString => EmptyString
  | String c s' =>
      if decide (c = "."%char) then EmptyString
      else String c (first_component s')
  end.

Definition size_mismatch (key : string) : string :=
  "size mismatch for " +:+ key.

(** The parameter loop of [Module._load_from_state_dict] (called with
    [strict=True]): a key of the checkpoint with the parameter's shape is
    copied, one with another shape leaves an error message, an absent key
    is missing. *)
Fixpoint load_parameters {A} (state_dict : list (string * tensor A))
    (prefix : string) (ps : list (string * tensor A))
  : list (string * tensor A) * report :=
  match ps with
  | [] => ([], report_nil)
  | (name, param) :: rest =>
      let key := prefix +:+ name in
      let '(rest', r) := load_parameters state_dict prefix rest in
      match Py.dict_get key state_dict with
      | Some input_param =>
          if decide (shape input_param = shape param)
          then ((name, input_param) :: rest',
                report_app {| missing_keys := []; unexpected_keys := [];
                              error_msgs := []; copied_keys := [key] |} r)
          else ((name, param) :: rest',
                report_app {| missing_keys := []; unexpected_keys := [];
                              error_msgs := [size_mismatch key];
                              copied_keys := [] |} r)
      | None =>
          ((name, param) :: rest',
           report_app {| missing_keys := [key]; unexpected_keys := [];
                         error_msgs := []; copied_keys := [] |} r)
      end
  end.

(** The key loop of [Module._load_from_state_dict]: a checkpoint key under
    [prefix] whose next component names neither a child nor a parameter of
    this module is unexpected. *)
Definition unexpected_here {A} (state_dict : list (string * tensor A))
    (prefix : string) (m : Module A) : list string :=
  List.filter
    (λ key,
       Py.startswith key prefix &&
       let input_name :=
         first_component (Py.str_drop (String.length prefix) key) in
       bool_decide (input_name ∉ (modules m).*1) &&
       bool_decide (input_name ∉ (parameters m).*1))
    (Py.keys state_dict).

(** [module._load_from_state_dict(state_dict, prefix, {}, True, missing_keys,
    unexpected_keys, error_msgs)] *)
Definition _load_from_state_dict {A} (state_dict : list (string * tensor A))
    (prefix : string) (m : Module A)
  : list (string * tensor A) * report :=
  let '(ps, r) := load_parameters state_dict prefix (parameters m) in
  (ps, report_app r {| missing_keys := [];
                       unexpected_keys := unexpected_here state_dict prefix m;
                       error_msgs := []; copied_keys := [] |}).

(** The recursive [load(module, prefix)] shared by [Module.load_state_dict]
    and [UniterPreTrainedModel.from_pretrained]: the module itself, then
    every child that is not [None], depth first. *)
Fixpoint load {A} (state_dict : list (string * tensor A)) (prefix : string)
    (m : Module A) : Module A * report :=
  let '(ps, r) := _load_from_state_dict state_dict prefix m in
  match m with
  | Mod _ cs =>
      let walked :=
        (λ nc : string * option (Module A),
           match nc.2 with
           | Some child =>
               let '(child', rc) :=
                 load state_dict (prefix +:+ nc.1 +:+ ".") child in
               ((nc.1, Some child'), rc)
           | None => ((nc.1, None), report_nil)
           end) <$> cs in
      (Mod ps (walked.*1), foldl report_app r (walked.*2))
  end.

(** [module.state_dict(prefix=prefix)] *)
Fixpoint state_dict {A} (prefix : string) (m : Module A)
  : list (string * tensor A) :=
  match m with
  | Mod ps cs =>
      ((λ kv : string * tensor A, (prefix +:+ kv.1, kv.2)) <$> ps) ++
      flat_map (λ nc : string * option (Module A),
                  match nc.2 with
                  | Some child => state_dict (prefix +:+ nc.1 +:+ ".") child
                  | None => []
                  end) cs
  end.

(** A report accounts for a list of target keys against a checkpoint:
    every target key is missing, copied, or left an error message; the
    missing ones are absent from the checkpoint and the copied ones
    present in it; the unexpected ones are keys of the checkpoint. *)
Definition accounts {A} (state_dict : list (string * tensor A))
    (target_keys : list string) (r : report) : Prop :=
  (∀ k, k ∈ target_keys →
        k ∈ missing_keys r ∨ k ∈ copied_keys r ∨ error_msgs r ≠ []) ∧
  (∀ k, k ∈ missing_keys r →
        k ∈ target_keys ∧ Py.dict_get k state_dict = None) ∧
  (∀ k, k ∈ copied_keys r →
        k ∈ target_keys ∧ is_Some (Py.dict_get k state_dict)) ∧
  (∀ k, k ∈ unexpected_keys r → k ∈ Py.keys state_dict).

(** Exceptions of the loaders. *)
Inductive exn :=
| KeyError (key : string)
| IndexError
| RuntimeError (msgs : list string).

(** What a call comes to: a returned value or a raised exception. *)
Inductive outcome (X : Type) :=
| Return (x : X)
| Raise (e : exn).
Arguments Return {X} x.
Arguments Raise {X} e.

(** [module.load_state_dict(state_dict, strict=False)]: the walk from the
    empty prefix; only error messages raise. *)
Definition load_state_dict {A} (m : Module A)
    (state_dict : list (string * tensor A)) : outcome (Module A * report) :=
  let '(m', r) := load state_dict "" m in
  match error_msgs r with
  | [] => Return (m', r)
  | msgs => Raise (RuntimeError msgs)
  end.

End Torch.

(** ** [entryX.py]: [ModelX.load] *)

Module ModelX.

(** The renaming of one key in the loop of [ModelX.load]. *)
Definition strip_prefix (key : string) : string :=
  if Py.startswith key "module." then Py.str_drop (String.length "module.") key
  else if Py.startswith key "model." then Py.str_drop 6 key
  else if Py.startswith key "roberta." then Py.str_drop 8 key
  else if Py.startswith key "albert." then Py.str_drop 7 key
  else key.

(** The wrapper prefixes the loop tests, in its order. *)
Definition wrapper_prefixes : list string :=
  ["module."; "model."; "roberta."; "albert."].

(** The loop that fills [new_state_dict]. *)
Definition strip_prefixes {V} (state_dict : list (string * V))
  : list (string * V) :=
  foldl (λ new_state_dict kv,
           Py.dict_set (strip_prefix kv.1) kv.2 new_state_dict)
        [] state_dict.

(** What [ModelX.load] shows and leaves behind: the two printed key
    differences (as sets; they are printed sorted) and the model after
    [load_state_dict]. *)
Record loaded (A : Type) := {
  in_loaded_not_in_model : gset string;
  in_model_not_in_loaded : gset string;
  model_after : Torch.Module A;
  walk_report : Torch.report;
}.
Arguments in_loaded_not_in_model {A} l.
Arguments in_model_not_in_loaded {A} l.
Arguments model_after {A} l.
Arguments walk_report {A} l.

(** [ModelX.load], from the checkpoint read by [torch.load(path)]. *)
Definition load {A} (model : Torch.Module A)
    (state_dict : list (string * Torch.tensor A)) : Torch.outcome (loaded A) :=
  let state_dict := strip_prefixes state_dict in
  let load_keys : gset string := list_to_set (Py.keys state_dict) in
  let model_keys : gset string :=
    list_to_set (Torch.state_dict_keys "" model) in
  match Torch.load_state_dict model state_dict with
  | Torch.Return (m', r) =>
      Torch.Return {| in_loaded_not_in_model := load_keys ∖ model_keys;
                      in_model_not_in_loaded := model_keys ∖ load_keys;
                      model_after := m';
                      walk_report := r |}
  | Torch.Raise e => Torch.Raise e
  end.

(** [ModelX.save]: the file name and the state dict handed to
    [torch.save]. *)
Definition save {A} (model : Torch.Module A) (path : string)
  : string * list (string * Torch.tensor A) :=
  (path +:+ "_X.pth", Torch.state_dict "" model).

End ModelX.

(** ** [modeling_bertU.py]: [UniterPreTrainedModel.from_pretrained] *)

Module UniterPreTrainedModel.

(** The candidate [new_key] of one key: every test looks at the original
    [key], and a later assignment overwrites an earlier one. *)
Definition rename_candidate (key : string) : option string :=
  let new_key := None in
  let new_key :=
    if Py.contains "gamma" key then Some (Py.replace key "gamma" "weight")
    else new_key in
  let new_key :=
    if Py.contains "beta" key then Some (Py.replace key "beta" "bias")
    else new_key in
  let new_key :=
    if Py.contains "uniter." key then Some (Py.replace key "uniter." "")
    else new_key in
  new_key.

(** The first loop: [zip(old_keys, new_keys)]. *)
Fixpoint renames (keys : list string) : list (string * string) :=
  match keys with
  | [] => []
  | key :: rest =>
      let new_key := rename_candidate key in
      if Py.truthy new_key
      then (key, default EmptyString new_key) :: renames rest
      else renames rest
  end.

(** The second loop: [state_dict[new_key] = state_dict.pop(old_key)]. *)
Fixpoint rename_keys {V} (pairs : list (string * string))
    (state_dict : list (string * V)) : Torch.outcome (list (string * V)) :=
  match pairs with
  | [] => Torch.Return state_dict
  | (old_key, new_key) :: rest =>
      match Py.dict_pop old_key state_dict with
      | Some (v, state_dict) =>
          rename_keys rest (Py.dict_set new_key v state_dict)
      | None => Torch.Raise (Torch.KeyError old_key)
      end
  end.

Definition pos_linear_weight : string := "img_embeddings.pos_linear.weight".

(** The slice of the position projection to its first four input columns. *)
Definition reconcile {A} (state_dict : list (string * Torch.tensor A))
  : Torch.outcome (list (string * Torch.tensor A)) :=
  match Py.dict_get pos_linear_weight state_dict with
  | Some t =>
      match Torch.slice_cols 4 t with
      | Some t' => Torch.Return (Py.dict_set pos_linear_weight t' state_dict)
      | None => Torch.Raise Torch.IndexError
      end
  | None => Torch.Return state_dict
  end.

(** [start_prefix] *)
Definition start_prefix {A} (model : Torch.Module A)
    (state_dict : list (string * Torch.tensor A)) : string :=
  if negb (Torch.hasattr model "bert") &&
     existsb (λ s, Py.startswith s "bert.") (Py.keys state_dict)
  then "bert." else "".

(** The checkpoint as the tree walk sees it: renamed, then reconciled.
    The test for [embeddings.word_embeddings.weight] in between only
    prints; its slice is commented out. *)
Definition normalized {A} (state_dict : list (string * Torch.tensor A))
  : Torch.outcome (list (string * Torch.tensor A)) :=
  match rename_keys (renames (Py.keys state_dict)) state_dict with
  | Torch.Return state_dict => reconcile state_dict
  | Torch.Raise e => Torch.Raise e
  end.

(** The tree walk of [from_pretrained] over a normalised checkpoint. *)
Definition walk {A} (model : Torch.Module A)
    (state_dict : list (string * Torch.tensor A))
  : Torch.Module A * Torch.report :=
  Torch.load state_dict (start_prefix model state_dict) model.

(** [from_pretrained], from the freshly built [model = cls(config)] on: the
    populated model and the lists it prints, or the exception raised. *)
Definition from_pretrained {A} (model : Torch.Module A)
    (state_dict : list (string * Torch.tensor A))
  : Torch.outcome (Torch.Module A * Torch.report) :=
  match normalized state_dict with
  | Torch.Return state_dict =>
      let '(model, r) := walk model state_dict in
      if 0 <? Py.len (Torch.error_msgs r)
      then Torch.Raise (Torch.RuntimeError (Torch.error_msgs r))
      else Torch.Return (model, r)
  | Torch.Raise e => Torch.Raise e
  end.

End UniterPreTrainedModel.

(** ** What the tree walk does to one parameter *)

(** The outcome of the parameter loop of [Module._load_from_state_dict] for
    one entry [(key, param)] of the target's state dict, read off the three
    branches of [Torch.load_parameters]. *)
Module Walk.

(** The tensor the parameter holds after the walk. *)
Definition loaded_param {A} (state_dict : list (string * Torch.tensor A))
    (key : string) (param : Torch.tensor A) : Torch.tensor A :=
  match Py.dict_get key state_dict with
  | Some input_param =>
      if decide (Torch.shape input_param = Torch.shape param)
      then input_param else param
  | None => param
  end.

(** The key is absent from the checkpoint. *)
Definition is_missing {A} (state_dict : list (string * Torch.tensor A))
    (kv : string * Torch.tensor A) : bool :=
  bool_decide (Py.dict_get kv.1 state_dict = None).

(** The key is in the checkpoint with the parameter's shape. *)
Definition is_copied {A} (state_dict : list (string * Torch.tensor A))
    (kv : string * Torch.tensor A) : bool :=
  match Py.dict_get kv.1 state_dict with
  | Some input_param =>
      bool_decide (Torch.shape input_param = Torch.shape kv.2)
  | None => false
  end.

(** The key is in the checkpoint with another shape. *)
Definition is_mismatch {A} (state_dict : list (string * Torch.tensor A))
    (kv : string * Torch.tensor A) : bool :=
  match Py.dict_get kv.1 state_dict with
  | Some input_param =>
      negb (bool_decide (Torch.shape input_param = Torch.shape kv.2))
  | None => false
  end.

(** The three lists of a report are the target's entries of each kind, in
    the order of the target. *)
Definition fields_ok {A} (state_dict target : list (string * Torch.tensor A))
    (r : Torch.report) : Prop :=
  Torch.missing_keys r = (List.filter (is_missing state_dict) target).*1 ∧
  Torch.copied_keys r = (List.filter (is_copied state_dict) target).*1 ∧
  Torch.error_msgs r
  = Torch.size_mismatch <$> (List.filter (is_mismatch state_dict) target).*1.

(** The modules the recursive [load] visits, each with its prefix: the
    module itself, then every child that is not [None], depth first. *)
Fixpoint visited {A} (prefix : string) (m : Torch.Module A)
  : list (string * Torch.Module A) :=
  (prefix, m) ::
  match m with
  | Torch.Mod _ cs =>
      flat_map (λ nc : string * option (Torch.Module A),
                  match nc.2 with
                  | Some child => visited (prefix +:+ nc.1 +:+ ".") child
                  | None => []
                  end) cs
  end.

(** [key[len(prefix):].split('.', 1)[0]]: the name a checkpoint key has for
    the module visited under [prefix]. *)
Definition input_name (prefix key : string) : string :=
  Torch.first_component (Py.str_drop (String.length prefix) key).

(** A checkpoint key the walk passes over in silence: it goes on with a dot
    after the key of a parameter of the target, or at a visited module it
    is the path of a child, or lies under a child that is [None]. *)
Definition passed_over {A} (prefix : string) (model : Torch.Module A)
    (key : string) : Prop :=
  (∃ target_key,
     target_key ∈ Torch.state_dict_keys prefix model ∧
     Py.startswith key (target_key +:+ ".") = true) ∨
  (∃ p m name child,
     (p, m) ∈ visited prefix model ∧ (name, child) ∈ Torch.modules m ∧
     (key = p +:+ name ∨
      (child = None ∧ Py.startswith key (p +:+ name +:+ ".") = true))).

End Walk.

(** The key a checkpoint entry has after the renaming loop of
    [from_pretrained]. *)
Definition renamed_key (key : string) : string :=
  let new_key := UniterPreTrainedModel.rename_candidate key in
  if Py.truthy new_key then default EmptyString new_key else key.


(** ** Tensors of the forward pass *)

(** Activations are nested lists, outermost axis first: [[batch, sequence,
    hidden]] for embeddings, [[batch, head, query, key]] for attention
    scores. Every operation returns [None] where [torch] raises. *)
Module Tensor.

(** One axis of [torch] broadcasting: equal sizes pair up, a size of one
    is repeated, anything else is an error. *)
Definition bzip {X Y Z} (f : X → Y → option Z) (xs : list X) (ys : list Y)
  : option (list Z) :=
  if decide (length xs = length ys)
  then mapM (λ xy, f xy.1 xy.2) (zip xs ys)
  else match xs, ys with
       | [x], _ => mapM (f x) ys
       | _, [y] => mapM (λ x, f x y) xs
       | _, _ => None
       end.

(** [a + b] on tensors of rank three and four. *)
Definition add3 {F} (add : F → F → F) :
  list (list (list F)) → list (list (list F)) → option (list (list (list F))) :=
  bzip (bzip (bzip (λ x y, Some (add x y)))).

Definition add4 {F} (add : F → F → F) :
  list (list (list (list F))) → list (list (list (list F)))
  → option (list (list (list (list F)))) :=
  bzip (add3 add).

(** A function applied to every entry of a tensor of rank four. *)
Definition map4 {X Y} (f : X → Y) (t : list (list (list (list X))))
  : list (list (list (list Y))) :=
  (λ tb : list (list (list X)),
     (λ th : list (list X), (λ ti : list X, f <$> ti) <$> th) <$> tb) <$> t.

(** A row of an [nn.Embedding] table; an index outside the table raises. *)
Definition row {F} (table : list (list F)) (i : Z) : option (list F) :=
  if 0 <=? i then table !! Z.to_nat i else None.

(** [nn.Embedding.forward] on a tensor of indices of rank two. *)
Definition embedding {F} (table : list (list F)) (ids : list (list Z))
  : option (list (list (list F))) :=
  mapM (mapM (row table)) ids.

(** Lengths of the innermost vectors. *)
Definition hidden_sizes {F} (t : list (list (list F))) : list nat :=
  length <$> concat t.

Definition all_equal (l : list nat) : bool :=
  match l with
  | [] => true
  | h :: hs => forallb (Nat.eqb h) hs
  end.

(** [torch.cat([a, b], dim=1)]: batch and hidden sizes must agree. *)
Definition cat_dim1 {F} (a b : list (list (list F)))
  : option (list (list (list F))) :=
  if bool_decide (length a = length b) &&
     all_equal (hidden_sizes a ++ hidden_sizes b)
  then Some (zip_with app a b)
  else None.

(** [index.unsqueeze(-1).expand(-1, -1, n)] *)
Definition expand_last (n : nat) (index : list (list Z))
  : list (list (list Z)) :=
  (λ r : list Z, replicate n <$> r) <$> index.

(** [torch.gather(input, dim=1, index=index)]:
    [out[i][j][k] = input[i][index[i][j][k]][k]]. The index may be smaller
    than the input along the other axes; an index outside the sequence
    axis raises. *)
Definition gather_dim1 {F} (input : list (list (list F)))
    (index : list (list (list Z))) : option (list (list (list F))) :=
  if decide (length index ≤ length input)%nat
  then mapM (λ ii : list (list F) * list (list Z),
               mapM (λ ks : list Z,
                       mapM id (imap (λ k g, row ii.1 g ≫= (.!! k)) ks))
                    ii.2)
            (zip input index)
  else None.

(** [t[:, :, 0]] *)
Definition select_first {F} (t : list (list (list F)))
  : option (list (list F)) :=
  mapM (mapM head) t.

(** [torch.ones_like(t)] for an integer tensor of rank two. *)
Definition ones_like {X} (t : list (list X)) : list (list Z) :=
  (λ r : list X, (λ _, 1) <$> r) <$> t.

(** [torch.zeros(shape)] for the shape of a tensor of rank two. *)
Definition zeros_like {X} (t : list (list X)) : list (list Z) :=
  (λ r : list X, (λ _, 0) <$> r) <$> t.

(** [t.repeat(n, 1, 1)] *)
Definition repeat0 {X} (n : nat) (t : list X) : list X :=
  concat (replicate n t).

(** A tensor of the shape [[batch, seq, hidden]]. *)
Definition has_shape {F} (batch seq hidden : nat) (t : list (list (list F)))
  : Prop :=
  length t = batch ∧
  Forall (λ e, length e = seq ∧ Forall (λ v, length v = hidden) e) t.

End Tensor.

(** ** The numeric back end *)

(** What the forward pass takes from [torch] without looking inside:
    floating-point scalars and their arithmetic, the conversions between
    integer and floating tensors, layer normalisation and affine maps on
    one vector, dropout with its generator state, and the parts of a
    transformer layer around the scaling and masking of the attention
    scores. *)
Class Backend := {
  F : Type;
  gen : Type;
  of_long : Z → F;
  to_long : F → Z;
  Fadd : F → F → F;
  Fsub : F → F → F;
  Fmul : F → F → F;
  Fdiv : F → F → F;
  F_1 : F;
  F_neg10000 : F;
  layer_norm : list F → list F → list F → list F;
  affine : list (list F) → list F → list F → list F;
  dropout : list (list (list F)) → gen → list (list (list F)) * gen;
  (** parameters of one [BertLayer] *)
  layer_params : Type;
  (** [BertSelfAttention.forward] up to the dot product of queries and
      keys, the raw attention scores *)
  raw_scores : layer_params → list (list (list F))
               → list (list (list (list F)));
  (** [math.sqrt(self.attention_head_size)] *)
  sqrt_head_size : layer_params → F;
  (** [BertSelfAttention.forward] from the softmax on *)
  attention_context : layer_params → list (list (list (list F)))
                      → list (list (list F)) → gen
                      → option (list (list (list F)) * gen);
  (** [BertSelfOutput], [BertIntermediate] and [BertOutput] *)
  self_output : layer_params → list (list (list F)) → list (list (list F))
                → gen → option (list (list (list F)) * gen);
  feed_forward : layer_params → list (list (list F)) → gen
                 → option (list (list (list F)) * gen);
  (** [BertPooler.forward] *)
  pooler_params : Type;
  pool : pooler_params → list (list (list F)) → option (list (list F));
}.

(** Computations that may raise and that advance the dropout generator. *)
Definition M `{Backend} (X : Type) : Type := gen → option (X * gen).

#[export] Instance M_ret `{Backend} : MRet M := λ X x g, Some (x, g).
#[export] Instance M_bind `{Backend} : MBind M :=
  λ X Y k m g, match m g with
               | Some (x, g') => k x g'
               | None => None
               end.

(** An operation that may raise and leaves the generator alone. *)
Definition lift `{Backend} {X} (o : option X) : M X :=
  λ g, match o with Some x => Some (x, g) | None => None end.

(** [nn.Dropout.forward] *)
Definition Dropout_forward `{Backend} (t : list (list (list F)))
  : M (list (list (list F))) :=
  λ g, Some (dropout t g).

(** [nn.Linear] and [LayerNorm] parameters. *)
Record Linear `{Backend} := {
  weight : list (list F);
  bias : list F;
}.

Record LayerNorm `{Backend} := {
  ln_weight : list F;
  ln_bias : list F;
}.

(** [nn.Linear.forward] on the last axis; a vector of another width than
    the weight raises. *)
Definition Linear_forward `{Backend} (l : Linear) (t : list (list (list F)))
  : option (list (list (list F))) :=
  mapM (mapM (λ v, if decide (length v = Torch.width (weight l))
                   then Some (affine (weight l) (bias l) v)
                   else None)) t.

Definition LayerNorm_forward `{Backend} (l : LayerNorm)
    (t : list (list (list F))) : list (list (list F)) :=
  (λ e : list (list F), layer_norm (ln_weight l) (ln_bias l) <$> e) <$> t.

(** ** [modeling_bertU.py]: the embeddings *)

Module UniterTextEmbeddings.

Record t `{Backend} := {
  word_embeddings : list (list F);
  position_embeddings : list (list F);
  token_type_embeddings : list (list F);
  LayerNorm_ : LayerNorm;
  (** the buffer [position_ids], of shape [[1, max_position_embeddings]] *)
  position_ids_ : list (list Z);
}.

(** [config.type_vocab_size], the number of rows of
    [token_type_embeddings = nn.Embedding(config.type_vocab_size, ...)]. *)
Definition type_vocab_size `{Backend} (self : t) : nat :=
  length (token_type_embeddings self).

(** [forward(input_ids, position_ids, token_type_ids)] *)
Definition forward `{Backend} (self : t) (input_ids : list (list Z))
    (position_ids token_type_ids : option (list (list Z)))
  : M (list (list (list F))) :=
  let seq_length := Torch.width input_ids in
  let position_ids :=
    match position_ids with
    | Some p => p
    | None => take seq_length <$> position_ids_ self
    end in
  let token_type_ids :=
    match token_type_ids with
    | Some t => t
    | None => Tensor.zeros_like input_ids
    end in
  inputs_embeds ← lift (Tensor.embedding (word_embeddings self) input_ids);
  position_embeddings ←
    lift (Tensor.embedding (position_embeddings self) position_ids);
  token_type_embeddings ←
    lift (Tensor.embedding (token_type_embeddings self) token_type_ids);
  let position_embeddings :=
    Tensor.repeat0 (length token_type_embeddings) position_embeddings in
  embeddings ← lift (Tensor.add3 Fadd inputs_embeds position_embeddings);
  embeddings ← lift (Tensor.add3 Fadd embeddings token_type_embeddings);
  let embeddings := LayerNorm_forward (LayerNorm_ self) embeddings in
  Dropout_forward embeddings.

End UniterTextEmbeddings.

Module UniterImageEmbeddings.

(** Input width of [pos_linear], from [args.num_pos]. *)
Definition pos_linear_in_features (num_pos : Z) : nat :=
  if num_pos =? 6 then 7%nat else 4%nat.

Record t `{Backend} := {
  img_linear : Linear;
  img_layer_norm : LayerNorm;
  pos_layer_norm : LayerNorm;
  pos_linear : Linear;
  LayerNorm_ : LayerNorm;
}.

(** [forward(img_feat, img_pos_feat, type_embeddings)] *)
Definition forward `{Backend} (self : t)
    (img_feat img_pos_feat type_embeddings : list (list (list F)))
  : M (list (list (list F))) :=
  transformed_im ← lift (Linear_forward (img_linear self) img_feat);
  let transformed_im := LayerNorm_forward (img_layer_norm self) transformed_im in
  transformed_pos ← lift (Linear_forward (pos_linear self) img_pos_feat);
  let transformed_pos :=
    LayerNorm_forward (pos_layer_norm self) transformed_pos in
  embeddings ← lift (Tensor.add3 Fadd transformed_im transformed_pos);
  embeddings ← lift (Tensor.add3 Fadd embeddings type_embeddings);
  let embeddings := LayerNorm_forward (LayerNorm_ self) embeddings in
  Dropout_forward embeddings.

End UniterImageEmbeddings.

(** ** [modeling_bertU.py]: the transformer layers *)

Module BertSelfAttention.

(** What the constructor can raise. *)
Inductive init_error :=
| ZeroDivisionError
| ValueError.

(** The sizes [__init__] sets: [num_attention_heads],
    [attention_head_size] and [all_head_size]. [int_div a b] stands for
    [int(a / b)], the quotient of floating-point division, truncated. *)
Definition __init__ (int_div : Z → Z → Z)
    (hidden_size num_attention_heads : Z) : init_error + Z * Z * Z :=
  if num_attention_heads =? 0 then inl ZeroDivisionError
  else if negb (hidden_size `mod` num_attention_heads =? 0) then inl ValueError
  else
    let attention_head_size := int_div hidden_size num_attention_heads in
    let all_head_size := num_attention_heads * attention_head_size in
    inr (num_attention_heads, attention_head_size, all_head_size).

(** [v.view(heads, size)] on a vector of the last axis: its [heads] pieces
    of [size] entries; [None] where [view] raises. *)
Definition view_heads {X} (heads size : nat) (v : list X)
  : option (list (list X)) :=
  if decide (length v = (heads * size)%nat)
  then Some ((λ i, take size (drop (i * size) v)) <$> seq 0 heads)
  else None.

(** [t.permute(0, 2, 1, 3)] on one example whose rows have [n] entries:
    [out[i][l] = t[l][i]]. *)
Definition permute_rows {X} (n : nat) (e : list (list X)) : list (list X) :=
  (λ i, omap (.!! i) e) <$> seq 0 n.

(** [transpose_for_scores]: from [[batch, sequence, heads * size]] to
    [[batch, heads, sequence, size]]. *)
Definition transpose_for_scores {X} (num_attention_heads
    attention_head_size : nat) (x : list (list (list X)))
  : option (list (list (list (list X)))) :=
  mapM (λ e, permute_rows num_attention_heads
               <$> mapM (view_heads num_attention_heads attention_head_size)
                        e) x.

(** The end of [forward]:
    [context_layer.permute(0, 2, 1, 3).contiguous().view(..., all_head_size)],
    from [[batch, heads, sequence, size]] to
    [[batch, sequence, heads * size]]. *)
Definition merge_heads {X} (context_layer : list (list (list (list X))))
  : list (list (list X)) :=
  (λ e, (λ pieces, concat pieces) <$> permute_rows (Torch.width e) e)
  <$> context_layer.

(** [attention_scores / math.sqrt(self.attention_head_size)] *)
Definition scaled `{Backend} (self : layer_params)
    (attention_scores : list (list (list (list F))))
  : list (list (list (list F))) :=
  Tensor.map4 (λ x, Fdiv x (sqrt_head_size self)) attention_scores.

(** [forward(hidden_states, attention_mask)]: the mask is added to the
    scores once they are scaled, before the softmax. *)
Definition forward `{Backend} (self : layer_params)
    (hidden_states : list (list (list F)))
    (attention_mask : list (list (list (list F))))
  : M (list (list (list F))) :=
  let attention_scores := raw_scores self hidden_states in
  let attention_scores := scaled self attention_scores in
  attention_scores ←
    lift (Tensor.add4 Fadd attention_scores attention_mask);
  attention_context self attention_scores hidden_states.

End BertSelfAttention.

Module BertAttention.

Definition forward `{Backend} (self : layer_params)
    (input_tensor : list (list (list F)))
    (attention_mask : list (list (list (list F))))
  : M (list (list (list F))) :=
  self_output_ ← BertSelfAttention.forward self input_tensor attention_mask;
  self_output self self_output_ input_tensor.

End BertAttention.

Module BertLayer.

Definition forward `{Backend} (self : layer_params)
    (hidden_states : list (list (list F)))
    (attention_mask : list (list (list (list F))))
  : M (list (list (list F))) :=
  attention_output ← BertAttention.forward self hidden_states attention_mask;
  feed_forward self attention_output.

End BertLayer.

Module UniterEncoder.

(** The loop over [self.layer]: the last hidden state and the list of the
    hidden states appended on the way. *)
Fixpoint layers `{Backend} (layer : list layer_params)
    (hidden_states : list (list (list F)))
    (attention_mask : list (list (list (list F))))
    (output_all_encoded_layers : bool)
  : M (list (list (list F)) * list (list (list (list F)))) :=
  match layer with
  | [] => mret (hidden_states, [])
  | layer_module :: rest =>
      hidden_states ←
        BertLayer.forward layer_module hidden_states attention_mask;
      '(last, all_encoder_layers) ←
        layers rest hidden_states attention_mask output_all_encoded_layers;
      mret (last, if output_all_encoded_layers
                  then hidden_states :: all_encoder_layers
                  else all_encoder_layers)
  end.

(** [forward(input_, attention_mask, output_all_encoded_layers)] *)
Definition forward `{Backend} (layer : list layer_params)
    (input_ : list (list (list F)))
    (attention_mask : list (list (list (list F))))
    (output_all_encoded_layers : bool)
  : M (list (list (list (list F)))) :=
  '(hidden_states, all_encoder_layers) ←
    layers layer input_ attention_mask output_all_encoded_layers;
  mret (if output_all_encoded_layers
        then all_encoder_layers
        else all_encoder_layers ++ [hidden_states]).

End UniterEncoder.

(** ** [modeling_bertU.py]: [BertU] *)

Module BertU.

Record t `{Backend} := {
  (** [config.hidden_size] *)
  hidden_size : nat;
  embeddings : UniterTextEmbeddings.t;
  img_embeddings : UniterImageEmbeddings.t;
  encoder : list layer_params;
  pooler : pooler_params;
}.

Definition _compute_txt_embeddings `{Backend} (self : t)
    (input_ids : list (list Z))
    (position_ids txt_type_ids : option (list (list Z)))
  : M (list (list (list F))) :=
  UniterTextEmbeddings.forward (embeddings self)
    input_ids position_ids txt_type_ids.

(** The type ids the image path uses: the given ones, or ones of the
    shape of [img_feat[:, :, 0]]. *)
Definition img_type_ids_or_default `{Backend}
    (img_feat : list (list (list F))) (img_type_ids : option (list (list Z)))
  : option (list (list Z)) :=
  match img_type_ids with
  | Some ids => Some ids
  | None =>
      first ← Tensor.select_first img_feat;
      Some (Tensor.ones_like ((λ r : list F, to_long <$> r) <$> first))
  end.

Definition _compute_img_embeddings `{Backend} (self : t)
    (img_feat img_pos_feat : list (list (list F)))
    (img_type_ids : option (list (list Z)))
  : M (list (list (list F))) :=
  img_type_ids ← lift (img_type_ids_or_default img_feat img_type_ids);
  img_type_embeddings ←
    lift (Tensor.embedding
            (UniterTextEmbeddings.token_type_embeddings (embeddings self))
            img_type_ids);
  UniterImageEmbeddings.forward (img_embeddings self)
    img_feat img_pos_feat img_type_embeddings.

(** The alignment of [_compute_img_txt_embeddings]: expand the index over
    the hidden axis, concatenate text and image, gather. *)
Definition align `{Backend} (self : t)
    (txt_emb img_emb : list (list (list F))) (gather_index : list (list Z))
  : option (list (list (list F))) :=
  let gather_index := Tensor.expand_last (hidden_size self) gather_index in
  cat ← Tensor.cat_dim1 txt_emb img_emb;
  Tensor.gather_dim1 cat gather_index.

Definition _compute_img_txt_embeddings `{Backend} (self : t)
    (input_ids : list (list Z)) (position_ids : option (list (list Z)))
    (img_feat img_pos_feat : list (list (list F)))
    (gather_index : option (list (list Z)))
    (txt_type_ids img_type_ids : option (list (list Z)))
  : M (list (list (list F))) :=
  txt_emb ← _compute_txt_embeddings self input_ids position_ids txt_type_ids;
  img_emb ← _compute_img_embeddings self img_feat img_pos_feat img_type_ids;
  gather_index ← lift gather_index;
  lift (align self txt_emb img_emb gather_index).

(** [(1.0 - attention_mask.unsqueeze(1).unsqueeze(2).to(dtype)) * -10000.0],
    of shape [[batch, 1, 1, sequence]]. *)
Definition extended_attention_mask `{Backend} (attention_mask : list (list Z))
  : list (list (list (list F))) :=
  (λ r : list Z,
     [[ (λ x, Fmul (Fsub F_1 (of_long x)) F_neg10000) <$> r ]])
  <$> attention_mask.

(** The embedding layer of [forward]: the branch on the inputs present. *)
Definition embedding_layer `{Backend} (self : t)
    (input_ids position_ids : option (list (list Z)))
    (img_feat img_pos_feat : option (list (list (list F))))
    (gather_index txt_type_ids img_type_ids : option (list (list Z)))
  : M (list (list (list F))) :=
  match input_ids with
  | None =>
      img_feat ← lift img_feat;
      img_pos_feat ← lift img_pos_feat;
      _compute_img_embeddings self img_feat img_pos_feat img_type_ids
  | Some input_ids =>
      match img_feat with
      | None => _compute_txt_embeddings self input_ids position_ids txt_type_ids
      | Some img_feat =>
          img_pos_feat ← lift img_pos_feat;
          _compute_img_txt_embeddings self input_ids position_ids
            img_feat img_pos_feat gather_index txt_type_ids img_type_ids
      end
  end.

(** The rest of [forward] once the embedding output is there: the
    encoder, the last layer, the pooler. With [output_all_encoded_layers]
    the pooler is handed a Python list and raises. *)
Definition encode `{Backend} (self : t)
    (embedding_output : list (list (list F)))
    (extended_attention_mask : list (list (list (list F))))
    (output_all_encoded_layers : bool)
  : M (list (list (list F)) * list (list F)) :=
  encoded_layers ←
    UniterEncoder.forward (encoder self) embedding_output
      extended_attention_mask output_all_encoded_layers;
  if output_all_encoded_layers then lift None
  else
    encoded_layers ← lift (last encoded_layers);
    pooled_output ← lift (pool (pooler self) encoded_layers);
    mret (encoded_layers, pooled_output).

(** [forward]: the sequence output and the pooled output. *)
Definition forward `{Backend} (self : t)
    (input_ids position_ids : option (list (list Z)))
    (img_feat img_pos_feat : option (list (list (list F))))
    (attention_mask : list (list Z))
    (gather_index : option (list (list Z)))
    (output_all_encoded_layers : bool)
    (txt_type_ids img_type_ids : option (list (list Z)))
  : M (list (list (list F)) * list (list F)) :=
  let extended_attention_mask := extended_attention_mask attention_mask in
  embedding_output ←
    embedding_layer self input_ids position_ids img_feat img_pos_feat
      gather_index txt_type_ids img_type_ids;
  encode self embedding_output extended_attention_mask
    output_all_encoded_layers.

End BertU.

(** ** [modeling_bertU.py]: the visual losses of [BertVisualObjHead] *)

Module VisualConfig.

(** [VISUAL_CONFIG.VISUAL_LOSSES] *)
Definition VISUAL_LOSSES : list string := ["obj"; "attr"; "feat"].

(** The first component of [visual_loss_config[key]], the width of the
    decoder of a loss. *)
Definition visual_loss_config (key : string) : option Z :=
  if decide (key = "obj") then Some 1600
  else if decide (key = "attr") then Some 400
  else if decide (key = "feat") then Some 2048
  else None.

End VisualConfig.

Module BertVisualObjHead.

(** [s.split(sep)] for a separator of one character: the pieces between
    the separators, empty pieces included, at least one piece. *)
Fixpoint split_sep (sep : ascii) (s : string) : list string :=
  match s with
  | EmptyString => [EmptyString]
  | String c s' =>
      if Ascii.eqb c sep then EmptyString :: split_sep sep s'
      else match split_sep sep s' with
           | w :: ws => String c w :: ws
           | [] => [String c EmptyString]
           end
  end.

(** The part of [__init__] that decides the use of visual losses:
    [self.visual_losses], or [None] for the [AssertionError]. *)
Definition visual_losses (visual_losses : string) : option (list string) :=
  let visual_losses := split_sep "," visual_losses in
  _ ← mapM (λ loss,
              assert (bool_decide (loss ∈ VisualConfig.VISUAL_LOSSES)))
           visual_losses;
  Some visual_losses.

(** [self.decoder_dict]: for each key the output width of its decoder. *)
Definition decoder_dict (visual_losses : list string)
  : option (list (string * Z)) :=
  foldl (λ acc key,
           d ← acc;
           width ← VisualConfig.visual_loss_config key;
           Some (Py.dict_set key width d))
        (Some []) visual_losses.

End BertVisualObjHead.

(** ** [modeling_bertU.py]: [UniterConfig] *)

Module UniterConfig.

#[local] Set Warnings "-register-all".

(** A value of a configuration, as [json.loads] gives it; a float stands
    by its literal. *)
Inductive json :=
| JNull
| JBool (b : bool)
| JInt (n : Z)
| JFloat (literal : string)
| JStr (s : string)
| JList (l : list json)
| JObject (o : list (string * json)).

(** The first argument of the constructor: the path of a configuration
    file, given by the object [json.loads] reads from it, a vocabulary
    size, or a value of another type. *)
Inductive arg :=
| Path (json_config : list (string * json))
| Size (vocab_size : Z)
| Other.

(** [for key, value in items: self.__dict__[key] = value] *)
Definition update (__dict__ items : list (string * json))
  : list (string * json) :=
  foldl (λ d kv, Py.dict_set kv.1 kv.2 d) __dict__ items.

(** [__init__]: the [__dict__] of the new configuration; [None] stands for
    the [ValueError]. *)
Definition __init__ (vocab_size_or_config_json_file : arg)
    (hidden_size num_hidden_layers num_attention_heads intermediate_size
     hidden_act hidden_dropout_prob attention_probs_dropout_prob
     max_position_embeddings type_vocab_size initializer_range : json)
  : option (list (string * json)) :=
  match vocab_size_or_config_json_file with
  | Path json_config => Some (update [] json_config)
  | Size vocab_size =>
      Some (update []
              [("vocab_size", JInt vocab_size);
               ("hidden_size", hidden_size);
               ("num_hidden_layers", num_hidden_layers);
               ("num_attention_heads", num_attention_heads);
               ("hidden_act", hidden_act);
               ("intermediate_size", intermediate_size);
               ("hidden_dropout_prob", hidden_dropout_prob);
               ("attention_probs_dropout_prob", attention_probs_dropout_prob);
               ("max_position_embeddings", max_position_embeddings);
               ("type_vocab_size", type_vocab_size);
               ("initializer_range", initializer_range)])
  | Other => None
  end.

(** The constructor with the defaults of its keyword arguments. *)
Definition new (vocab_size_or_config_json_file : arg)
  : option (list (string * json)) :=
  __init__ vocab_size_or_config_json_file
    (JInt 768) (JInt 12) (JInt 12) (JInt 3072) (JStr "gelu")
    (JFloat "0.1") (JFloat "0.1") (JInt 512) (JInt 2) (JFloat "0.02").

(** [from_dict] *)
Definition from_dict (json_object : list (string * json))
  : option (list (string * json)) :=
  config ← new (Size (-1));
  Some (update config json_object).

(** [from_json_file], from the object read from the file. *)
Definition from_json_file (json_object : list (string * json))
  : option (list (string * json)) :=
  from_dict json_object.

(** [to_dict] *)
Definition to_dict (self : list (string * json)) : list (string * json) :=
  self.

End UniterConfig.

(** ** Concrete instances for the examples *)

Module Examples.

(** A tokenizer that splits on white space and numbers a token by its
    length. *)
Definition whitespace_tokenizer : Tokenizer :=
  {| tokenize := Py.split;
     convert_token_to_id := λ s, Z.of_nat (String.length s) |}.

(** An exact back end over the integers: arithmetic of [Z], an affine map
    computed as written, no normalisation, dropout that only advances its
    counter, one attention head of size four with zero scores, and layers
    that pass their input on. *)
Definition Z_backend : Backend :=
  {| F := Z;
     gen := nat;
     of_long := id;
     to_long := id;
     Fadd := Z.add;
     Fsub := Z.sub;
     Fmul := Z.mul;
     Fdiv := Z.div;
     F_1 := 1;
     F_neg10000 := -10000;
     layer_norm := λ _ _ v, v;
     affine := λ w b v,
       zip_with Z.add ((λ r, foldr Z.add 0 (zip_with Z.mul r v)) <$> w) b;
     dropout := λ t g, (t, S g);
     layer_params := unit;
     raw_scores := λ _ h,
       (λ e : list (list Z),
          [ (λ _, (λ _, 0) <$> e) <$> e ]) <$> h;
     sqrt_head_size := λ _, 2;
     attention_context := λ _ _ h g, Some (h, g);
     self_output := λ _ a _ g, Some (a, g);
     feed_forward := λ _ a g, Some (a, g);
     pooler_params := unit;
     pool := λ _ h, mapM head h |}.

(** A model of hidden size two, with three words, three positions, two
    token types, three-dimensional region features and one layer. *)
Definition tiny : @BertU.t Z_backend :=
  let ln := @Build_LayerNorm Z_backend [1; 1] [0; 0] in
  @BertU.Build_t Z_backend 2%nat
    (@UniterTextEmbeddings.Build_t Z_backend
       [[0; 0]; [1; 2]; [3; 4]]
       [[10; 20]; [30; 40]; [50; 60]]
       [[100; 200]; [300; 400]]
       ln
       [[0; 1; 2]])
    (@UniterImageEmbeddings.Build_t Z_backend
       (@Build_Linear Z_backend [[1; 0; 0]; [0; 1; 0]] [0; 0])
       ln ln
       (@Build_Linear Z_backend [[1; 0; 0; 0]; [0; 1; 0; 0]] [0; 0])
       ln)
    [()]
    ().

(** The same model with the single token type of a RoBERTa checkpoint. *)
Definition tiny_one_type : @BertU.t Z_backend :=
  @BertU.Build_t Z_backend 2%nat
    (@UniterTextEmbeddings.Build_t Z_backend
       [[0; 0]; [1; 2]; [3; 4]]
       [[10; 20]; [30; 40]; [50; 60]]
       [[100; 200]]
       (@Build_LayerNorm Z_backend [1; 1] [0; 0])
       [[0; 1; 2]])
    (@BertU.img_embeddings Z_backend tiny)
    [()]
    ().

(** A target with the single parameter [w]. *)
Definition leaf : Torch.Module Z := Torch.Mod [("w", Torch.Vec [0])] [].

(** A target whose word embedding has two columns, and a checkpoint whose
    word embedding has three. *)
Definition word_target : Torch.Module Z :=
  Torch.Mod []
    [("embeddings",
      Some (Torch.Mod []
              [("word_embeddings",
                Some (Torch.Mod [("weight", Torch.Mat [[0; 0]; [0; 0]])]
                                []))]))].

Definition word_checkpoint : list (string * Torch.tensor Z) :=
  [("embeddings.word_embeddings.weight", Torch.Mat [[1; 2; 3]; [4; 5; 6]])].

(** A target whose position projection takes four inputs, and a UNITER
    checkpoint whose projection was trained on seven. *)
Definition pos_target : Torch.Module Z :=
  Torch.Mod []
    [("img_embeddings",
      Some (Torch.Mod []
              [("pos_linear",
                Some (Torch.Mod [("weight", Torch.Mat [[0; 0; 0; 0];
                                                        [0; 0; 0; 0]]);
                                 ("bias", Torch.Vec [0; 0])]
                                []))]))].

Definition uniter_checkpoint : list (string * Torch.tensor Z) :=
  [("uniter.img_embeddings.pos_linear.weight",
    Torch.Mat [[1; 2; 3; 4; 5; 6; 7]; [11; 12; 13; 14; 15; 16; 17]]);
   ("uniter.img_embeddings.LayerNorm.gamma", Torch.Vec [1; 1])].

(** The checkpoint above once its keys are renamed. *)
Definition renamed_checkpoint : list (string * Torch.tensor Z) :=
  [("img_embeddings.pos_linear.weight",
    Torch.Mat [[1; 2; 3; 4; 5; 6; 7]; [11; 12; 13; 14; 15; 16; 17]]);
   ("img_embeddings.LayerNorm.gamma", Torch.Vec [1; 1])].

(** A checkpoint with legacy names and no tensor of the target. *)
Definition legacy_checkpoint : list (string * Torch.tensor Z) :=
  [("uniter.x.gamma", Torch.Vec [1])].

(** A checkpoint with a tensor of rank one under the key of the position
    projection. *)
Definition rank1_checkpoint : list (string * Torch.tensor Z) :=
  [("img_embeddings.pos_linear.weight", Torch.Vec [1; 2; 3; 4; 5])].

(** A checkpoint saved from a model wrapped as [bert], with a head. *)
Definition bert_checkpoint : list (string * Torch.tensor Z) :=
  [("bert.w", Torch.Vec [1]); ("cls.b", Torch.Vec [2])].

(** A checkpoint saved through a [module.] wrapper, with one extra key. *)
Definition wrapped_checkpoint : list (string * Torch.tensor Z) :=
  [("module.w", Torch.Vec [5]); ("model.extra", Torch.Vec [1])].

End Examples.

(** ** More concrete instances *)

Module Cases.

(** The UNITER checkpoint of [Examples] once normalised: renamed, and the
    position projection cut to four columns. *)
Definition uniter_normalized : list (string * Torch.tensor Z) :=
  [("img_embeddings.pos_linear.weight",
    Torch.Mat [[1; 2; 3; 4]; [11; 12; 13; 14]]);
   ("img_embeddings.LayerNorm.gamma", Torch.Vec [1; 1])].

(** The target [Examples.pos_target] with that checkpoint loaded. *)
Definition pos_loaded : Torch.Module Z :=
  Torch.Mod []
    [("img_embeddings",
      Some (Torch.Mod []
              [("pos_linear",
                Some (Torch.Mod
                        [("weight", Torch.Mat [[1; 2; 3; 4];
                                               [11; 12; 13; 14]]);
                         ("bias", Torch.Vec [0; 0])]
                        []))]))].

Definition pos_report : Torch.report :=
  {| Torch.missing_keys := ["img_embeddings.pos_linear.bias"];
     Torch.unexpected_keys := ["img_embeddings.LayerNorm.gamma"];
     Torch.error_msgs := [];
     Torch.copied_keys := ["img_embeddings.pos_linear.weight"] |}.

(** A leaf after training, and a model that keeps its parameter in a child
    called [model], before and after training. *)
Definition trained_leaf : Torch.Module Z :=
  Torch.Mod [("w", Torch.Vec [7])] [].

Definition nested : Torch.Module Z :=
  Torch.Mod [] [("model", Some (Torch.Mod [("w", Torch.Vec [0])] []))].

Definition trained_nested : Torch.Module Z :=
  Torch.Mod [] [("model", Some (Torch.Mod [("w", Torch.Vec [7])] []))].

(** A checkpoint for [Examples.leaf] with a key the target does not have,
    and the report of loading it. *)
Definition extra_checkpoint : list (string * Torch.tensor Z) :=
  [("w", Torch.Vec [7]); ("v", Torch.Vec [1])].

Definition extra_report : Torch.report :=
  {| Torch.missing_keys := [];
     Torch.unexpected_keys := ["v"];
     Torch.error_msgs := [];
     Torch.copied_keys := ["w"] |}.

(** A model whose child [head] is [None], and a checkpoint with a key under
    that child. *)
Definition headless : Torch.Module Z :=
  Torch.Mod [("w", Torch.Vec [0])] [("head", None)].

Definition head_checkpoint : list (string * Torch.tensor Z) :=
  [("w", Torch.Vec [7]); ("head.w", Torch.Vec [9])].

(** A sentence with a no-break space, an ideographic space next to a
    blank, and an em space at its end. *)
Definition wide_spaces : string :=
  "a" +:+ Py.utf8 0xA0 +:+ "bb" +:+ Py.utf8 0x3000 +:+ " ccc"
  +:+ Py.utf8 0x2003.

(** The back end of [Examples] with every dot product of a query and a key
    equal to eight, the square root of the head size equal to two, and in
    place of the softmax and the product with the values the scores of the
    first head. *)
Definition score_backend : Backend :=
  {| F := Z;
     gen := nat;
     of_long := id;
     to_long := id;
     Fadd := Z.add;
     Fsub := Z.sub;
     Fmul := Z.mul;
     Fdiv := Z.div;
     F_1 := 1;
     F_neg10000 := -10000;
     layer_norm := λ _ _ v, v;
     affine := λ w b v,
       zip_with Z.add ((λ r, foldr Z.add 0 (zip_with Z.mul r v)) <$> w) b;
     dropout := λ t g, (t, S g);
     layer_params := unit;
     raw_scores := λ _ h,
       (λ e : list (list Z),
          [ (λ _, (λ _, 8) <$> e) <$> e ]) <$> h;
     sqrt_head_size := λ _, 2;
     attention_context := λ _ scores _ g,
       Some ((λ e : list (list (list Z)), default [] (head e)) <$> scores, g);
     self_output := λ _ a _ g, Some (a, g);
     feed_forward := λ _ a g, Some (a, g);
     pooler_params := unit;
     pool := λ _ h, mapM head h |}.

End Cases.


(* ===================================================================== *)
(** * Part II: lemmas and theorems                                        *)
(* ===================================================================== *)

(** ** Strings *)

Section strings.
Implicit Types s p old new key : string.

Lemma append_cons a s t : String a s +:+ t = String a (s +:+ t).
Proof. reflexivity. Qed.

Lemma length_append p r :
  String.length (p +:+ r) = (String.length p + String.length r)%nat.
Proof.
  induction p as [|a p IH]; [done|].
  rewrite append_cons. simpl. by rewrite IH.
Qed.

(** A string that starts with [p] is [p] followed by what [s[len(p):]]
    leaves. *)
Lemma startswith_split s p :
  Py.startswith s p = true → s = p +:+ Py.str_drop (String.length p) s.
Proof.
  revert s. induction p as [|a p IH]; intros s H; [done|].
  destruct s as [|b s]; [done|]. simpl in H.
  destruct (Ascii.eqb_spec a b) as [->|]; [|done].
  rewrite append_cons. f_equal. by apply IH.
Qed.

Lemma replace_from_skip old new k s :
  Py.replace_from old new k s = Py.replace_from old new 0 (Py.str_drop k s).
Proof.
  revert k. induction s as [|c s IH]; intros [|k]; try done.
  simpl. apply IH.
Qed.

Lemma replace_from_unfold old new c s :
  Py.replace_from old new 0 (String c s) =
  if Py.startswith (String c s) old
  then new +:+ Py.replace_from old new (String.length old - 1) s
  else String c (Py.replace_from old new 0 s).
Proof. reflexivity. Qed.

(** The two equations of [str.replace] for a non-empty [old]. *)
Lemma replace_match a o new s :
  Py.startswith s (String a o) = true →
  Py.replace s (String a o) new =
  new +:+ Py.replace (Py.str_drop (String.length (String a o)) s)
                     (String a o) new.
Proof.
  intros H. destruct s as [|c s]; [done|].
  unfold Py.replace. rewrite replace_from_unfold, H.
  f_equal. rewrite replace_from_skip. simpl. by rewrite Nat.sub_0_r.
Qed.

Lemma replace_no_match a o new c s :
  Py.startswith (String c s) (String a o) = false →
  Py.replace (String c s) (String a o) new =
  String c (Py.replace s (String a o) new).
Proof. intros H. unfold Py.replace. by rewrite replace_from_unfold, H. Qed.

Lemma contains_cons sub c s :
  Py.contains sub (String c s) =
  Py.startswith (String c s) sub || Py.contains sub s.
Proof. reflexivity. Qed.

(** Replacing a substring that does not occur changes nothing. *)
Lemma replace_absent a o new s :
  Py.contains (String a o) s = false → Py.replace s (String a o) new = s.
Proof.
  induction s as [|c s IH]; intros H; [done|].
  rewrite contains_cons in H. apply orb_false_elim in H as [Hp Hc].
  rewrite replace_no_match by done. f_equal. by apply IH.
Qed.

(** The first character of [s.replace('gamma', 'weight')] is the [w] of a
    replacement or the first character of [s]. *)
Lemma replace_gamma_head s c r :
  Py.replace s "gamma" "weight" = String c r →
  c = "w"%char ∨
  ∃ s', s = String c s' ∧ Py.replace s' "gamma" "weight" = r.
Proof.
  destruct s as [|b s]; [done|].
  destruct (Py.startswith (String b s) "gamma") eqn:Hp.
  - rewrite replace_match by done. intros [= <- _]. by left.
  - rewrite replace_no_match by done. intros [= <- <-]. right. eauto.
Qed.

(** No [gamma] is left, and none is made, by the replacement. *)
Lemma replace_gamma_clean s :
  Py.contains "gamma" (Py.replace s "gamma" "weight") = false.
Proof.
  remember (String.length s) as n eqn:Hn.
  revert s Hn. induction (lt_wf n) as [n _ IH]. intros s ->.
  destruct s as [|c s]; [done|].
  destruct (Py.startswith (String c s) "gamma") eqn:Hp.
  - rewrite replace_match by done.
    pose proof (startswith_split _ _ Hp) as Hs.
    set (r := Py.str_drop _ _) in *. clearbody r.
    assert (Hlen : (String.length r < String.length (String c s))%nat).
    { rewrite Hs, length_append. simpl. lia. }
    exact (IH _ Hlen r eq_refl).
  - rewrite replace_no_match by done.
    assert (Hlen : (String.length s < String.length (String c s))%nat)
      by (simpl; lia).
    rewrite contains_cons, (IH _ Hlen s eq_refl), orb_false_r.
    destruct (Py.startswith (String c (Py.replace s "gamma" "weight")) "gamma")
      eqn:Hq; [|done].
    exfalso. apply startswith_split in Hq.
    set (t := Py.str_drop _ _) in Hq. clearbody t.
    rewrite !append_cons in Hq. injection Hq as -> Hq.
    apply replace_gamma_head in Hq as [?|(s1 & -> & Hq)]; [done|].
    apply replace_gamma_head in Hq as [?|(s2 & -> & Hq)]; [done|].
    apply replace_gamma_head in Hq as [?|(s3 & -> & Hq)]; [done|].
    apply replace_gamma_head in Hq as [?|(s4 & -> & Hq)]; [done|].
    done.
Qed.






Lemma append_nil_r s : s +:+ EmptyString = s.
Proof. induction s as [|c s IH]; [done|]. by rewrite append_cons, IH. Qed.

Lemma append_assoc s p key : (s +:+ p) +:+ key = s +:+ (p +:+ key).
Proof. induction s as [|c s IH]; [done|]. by rewrite !append_cons, IH. Qed.

Lemma startswith_append p s : Py.startswith (p +:+ s) p = true.
Proof.
  induction p as [|a p IH]; [done|]. rewrite append_cons. simpl.
  by rewrite Ascii.eqb_refl.
Qed.

(** A string is its first component, or goes on after it with a dot. *)
Lemma first_component_cases s :
  s = Torch.first_component s ∨
  (∃ more, s = Torch.first_component s +:+ "." +:+ more).
Proof.
  induction s as [|c s IH]; [by left|]. simpl. case_decide as Hc.
  - right. exists s. by subst c.
  - destruct IH as [IH|[more IH]].
    + left. by rewrite <- IH.
    + right. exists more. rewrite append_cons. by rewrite <- IH.
Qed.

End strings.

(** ** Key renaming *)

Lemma rename_candidate_cases key :
  UniterPreTrainedModel.rename_candidate key =
  if Py.contains "uniter." key then Some (Py.replace key "uniter." "")
  else if Py.contains "beta" key then Some (Py.replace key "beta" "bias")
  else if Py.contains "gamma" key then Some (Py.replace key "gamma" "weight")
  else None.
Proof. unfold UniterPreTrainedModel.rename_candidate. by repeat case_match. Qed.

(** C5. Key round trip: a key that starts with one of the wrapper prefixes
    [module.], [model.], [roberta.], [albert.] is that prefix followed by
    the key [ModelX.load] stores it under; and [gamma] to [weight] is
    idempotent: a key without [gamma] is left as it is, by the replacement
    and by the [gamma] test of [from_pretrained], and the replacement
    applied twice is the replacement applied once. *)
Theorem key_round_trip :
  (∀ key p,
     p ∈ ModelX.wrapper_prefixes → Py.startswith key p = true →
     p +:+ ModelX.strip_prefix key = key) ∧
  (∀ key,
     Py.contains "gamma" key = false →
     Py.replace key "gamma" "weight" = key) ∧
  (∀ key,
     Py.replace (Py.replace key "gamma" "weight") "gamma" "weight" =
     Py.replace key "gamma" "weight") ∧
  (∀ key,
     Py.contains "gamma" key = true →
     Py.contains "beta" key = false → Py.contains "uniter." key = false →
     ∃ new_key,
       UniterPreTrainedModel.rename_candidate key = Some new_key ∧
       Py.contains "gamma" new_key = false ∧
       Py.replace new_key "gamma" "weight" = new_key).
Proof.
  split_and!.
  - intros key p Hp Hs. apply startswith_split in Hs.
    set (r := Py.str_drop _ key) in Hs. clearbody r. subst key.
    unfold ModelX.wrapper_prefixes in Hp.
    repeat (apply elem_of_cons in Hp as [->|Hp]; [reflexivity|]).
    by apply elem_of_nil in Hp.
  - intros key. apply replace_absent.
  - intros key. apply replace_absent, replace_gamma_clean.
  - intros key Hg Hb Hu. exists (Py.replace key "gamma" "weight").
    rewrite rename_candidate_cases, Hu, Hb, Hg.
    split_and!; [done|apply replace_gamma_clean|].
    apply replace_absent, replace_gamma_clean.
Qed.

Lemma key_round_trip_witness :
  "roberta." +:+ ModelX.strip_prefix "roberta.encoder.layer.0.weight"
    = "roberta.encoder.layer.0.weight" ∧
  Py.replace "encoder.LayerNorm.weight" "gamma" "weight"
    = "encoder.LayerNorm.weight" ∧
  ∃ new_key,
    UniterPreTrainedModel.rename_candidate "encoder.LayerNorm.gamma"
      = Some new_key ∧
    Py.contains "gamma" new_key = false ∧
    Py.replace new_key "gamma" "weight" = new_key.
Proof.
  destruct key_round_trip as (Hstrip & Hid & _ & Hcand).
  split_and!.
  - apply Hstrip; [|reflexivity].
    unfold ModelX.wrapper_prefixes. apply list_elem_of_lookup. by exists 2%nat.
  - apply Hid. reflexivity.
  - apply Hcand; reflexivity.
Defined.




(** ** Preprocessing *)

Section preprocessing.
Context (tokenizer : Tokenizer) (max_seq_len : Z).

Lemma len_app {A} (l k : list A) : Py.len (l ++ k) = Py.len l + Py.len k.
Proof. unfold Py.len. rewrite length_app. lia. Qed.

Lemma len_times {A} (x : A) n : Py.len (Py.times x n) = Z.max 0 n.
Proof. unfold Py.len, Py.times. rewrite length_replicate. lia. Qed.

Lemma len_slice_to {A} k (l : list A) :
  0 ≤ k → k ≤ Py.len l → Py.len (Py.slice_to k l) = k.
Proof.
  unfold Py.len, Py.slice_to. intros.
  destruct (Z.ltb_spec k 0); [lia|]. rewrite length_take. lia.
Qed.

Lemma len_ids ts : Py.len (convert_tokens_to_ids tokenizer ts) = Py.len ts.
Proof. unfold Py.len, convert_tokens_to_ids. by rewrite length_fmap. Qed.

(** The truncation of the token list leaves room for the two markers. *)
Lemma len_truncated (tokens : list string) :
  2 ≤ max_seq_len →
  let tokens' :=
    if Py.len tokens >? max_seq_len - 2
    then Py.slice_to (max_seq_len - 2) tokens else tokens in
  0 ≤ Py.len tokens' ≤ max_seq_len - 2.
Proof.
  intros Hm. cbv zeta.
  destruct (Z.gtb_spec (Py.len tokens) (max_seq_len - 2)).
  - rewrite len_slice_to; lia.
  - unfold Py.len in *. lia.
Qed.

(** The assertions make the invariant hold whenever a feature is built. *)
Lemma preprocess_bert_one_padded sent f :
  preprocess_bert_one max_seq_len tokenizer sent = Some f →
  padded max_seq_len f.
Proof.
  unfold preprocess_bert_one. cbv zeta. intros H.
  repeat match type of H with
         | mbind _ (assert ?c) = _ => destruct c eqn:?; simpl in H; [|done]
         end.
  injection H as <-. unfold padded; simpl.
  split_and!; by apply Z.eqb_eq.
Qed.

Lemma preprocess_roberta_one_padded sent f :
  preprocess_roberta_one max_seq_len tokenizer sent = Some f →
  padded max_seq_len f.
Proof.
  unfold preprocess_roberta_one. cbv zeta. intros H.
  destruct (_ >? 0) in H;
    repeat match type of H with
           | mbind _ (assert ?c) = _ => destruct c eqn:?; simpl in H; [|done]
           end;
    injection H as <-; unfold padded; simpl;
    split_and!; by apply Z.eqb_eq.
Qed.

(** From [max_seq_len = 2] on no assertion fails. *)
Lemma preprocess_bert_one_total sent :
  2 ≤ max_seq_len →
  is_Some (preprocess_bert_one max_seq_len tokenizer sent).
Proof.
  intros Hm. unfold preprocess_bert_one. cbv zeta.
  pose proof (len_truncated (tokenize tokenizer (Py.join " " (Py.split sent)))
                Hm) as Hlen.
  cbv zeta in Hlen. set (tokens := if _ >? _ then _ else _) in *.
  clearbody tokens.
  set (ids := convert_tokens_to_ids _ _).
  assert (Hids : Py.len ids = Py.len tokens + 2).
  { subst ids. rewrite len_ids, !len_app. unfold Py.len. simpl. lia. }
  clearbody ids.
  rewrite !len_app, !len_times.
  replace (Py.len ids + Z.max 0 (max_seq_len - Py.len ids) =? max_seq_len)
    with true by (symmetry; apply Z.eqb_eq; lia).
  replace (Z.max 0 (Py.len ids) + Z.max 0 (max_seq_len - Py.len ids)
           =? max_seq_len)
    with true by (symmetry; apply Z.eqb_eq; lia).
  simpl. eauto.
Qed.

Lemma preprocess_roberta_one_total sent :
  2 ≤ max_seq_len →
  is_Some (preprocess_roberta_one max_seq_len tokenizer sent).
Proof.
  intros Hm. unfold preprocess_roberta_one. cbv zeta.
  pose proof (len_truncated
                (tokenize tokenizer (" " +:+ Py.join " " (Py.split sent)))
                Hm) as Hlen.
  cbv zeta in Hlen. set (tokens := if _ >? _ then _ else _) in *.
  clearbody tokens.
  set (ids := [0] ++ convert_tokens_to_ids _ _ ++ [2]).
  assert (Hids : Py.len ids = Py.len tokens + 2).
  { subst ids. rewrite !len_app, len_ids. unfold Py.len. simpl. lia. }
  clearbody ids.
  destruct (Z.gtb_spec (max_seq_len - Py.len ids) 0).
  - rewrite !len_app, !len_times.
    replace (Py.len ids + Z.max 0 (max_seq_len - Py.len ids) =? max_seq_len)
      with true by (symmetry; apply Z.eqb_eq; lia).
    replace (Z.max 0 (Py.len ids) + Z.max 0 (max_seq_len - Py.len ids)
             =? max_seq_len)
      with true by (symmetry; apply Z.eqb_eq; lia).
    simpl. eauto.
  - rewrite !len_times.
    replace (Py.len ids =? max_seq_len)
      with true by (symmetry; apply Z.eqb_eq; lia).
    replace (Z.max 0 (Py.len ids) =? max_seq_len)
      with true by (symmetry; apply Z.eqb_eq; lia).
    simpl. eauto.
Qed.

(** Below [max_seq_len = 2] the first assertion fails: the two markers
    alone are too long. *)
Lemma preprocess_bert_one_short sent :
  max_seq_len < 2 → preprocess_bert_one max_seq_len tokenizer sent = None.
Proof.
  intros Hm. unfold preprocess_bert_one. cbv zeta.
  set (tokens := if _ >? _ then _ else _). clearbody tokens.
  set (ids := convert_tokens_to_ids _ _).
  assert (Hids : Py.len ids = Py.len tokens + 2).
  { subst ids. rewrite len_ids, !len_app. unfold Py.len. simpl. lia. }
  assert (0 ≤ Py.len tokens) by (unfold Py.len; lia).
  clearbody ids.
  rewrite !len_app, !len_times.
  replace (Py.len ids + Z.max 0 (max_seq_len - Py.len ids) =? max_seq_len)
    with false by (symmetry; apply Z.eqb_neq; lia).
  done.
Qed.

Lemma preprocess_roberta_one_short sent :
  max_seq_len < 2 → preprocess_roberta_one max_seq_len tokenizer sent = None.
Proof.
  intros Hm. unfold preprocess_roberta_one. cbv zeta.
  set (tokens := if _ >? max_seq_len - 2 then _ else _). clearbody tokens.
  set (ids := [0] ++ convert_tokens_to_ids _ _ ++ [2]).
  assert (Hids : Py.len ids = Py.len tokens + 2).
  { subst ids. rewrite !len_app, len_ids. unfold Py.len. simpl. lia. }
  assert (0 ≤ Py.len tokens) by (unfold Py.len; lia).
  clearbody ids.
  destruct (Z.gtb_spec (max_seq_len - Py.len ids) 0); [lia|].
  replace (Py.len ids =? max_seq_len)
    with false by (symmetry; apply Z.eqb_neq; lia).
  done.
Qed.

End preprocessing.

(** C8. Padding invariant: whatever the batch and [max_seq_len], the
    features [preprocess_bert] and [preprocess_roberta] return are one per
    sentence and each has [input_ids], [input_mask] and [segment_ids] of
    length exactly [max_seq_len]; both return for every batch as soon as
    [max_seq_len] leaves room for the two markers, and below that their own
    assertions stop them on the first sentence. *)
Theorem padding_invariant (tokenizer : Tokenizer) (sents : list string)
    (max_seq_len : Z) :
  (∀ features,
     preprocess_bert sents max_seq_len tokenizer = Some features →
     length features = length sents ∧ Forall (padded max_seq_len) features) ∧
  (∀ features,
     preprocess_roberta sents max_seq_len tokenizer = Some features →
     length features = length sents ∧ Forall (padded max_seq_len) features) ∧
  (2 ≤ max_seq_len →
   is_Some (preprocess_bert sents max_seq_len tokenizer) ∧
   is_Some (preprocess_roberta sents max_seq_len tokenizer)) ∧
  (max_seq_len < 2 → sents ≠ [] →
   preprocess_bert sents max_seq_len tokenizer = None ∧
   preprocess_roberta sents max_seq_len tokenizer = None).
Proof.
  split_and!.
  - intros features H. split; [symmetry; by eapply length_mapM|].
    apply mapM_Some in H. induction H as [|s f ?? Hf _ IH]; constructor; auto.
    by eapply preprocess_bert_one_padded.
  - intros features H. split; [symmetry; by eapply length_mapM|].
    apply mapM_Some in H. induction H as [|s f ?? Hf _ IH]; constructor; auto.
    by eapply preprocess_roberta_one_padded.
  - intros Hm. split; apply mapM_is_Some, Forall_forall; intros s _.
    + by apply preprocess_bert_one_total.
    + by apply preprocess_roberta_one_total.
  - intros Hm Hs. destruct sents as [|s rest]; [done|].
    split; apply mapM_None; left.
    + by apply preprocess_bert_one_short.
    + by apply preprocess_roberta_one_short.
Qed.

(** ** Tensors *)

Section tensors.
Context {F : Type}.
Implicit Types t a b : list (list (list F)).

Lemma all_equal_replicate (l : list nat) h :
  Forall (λ x, x = h) l → Tensor.all_equal l = true.
Proof.
  intros Hl. destruct l as [|x l]; [done|]. simpl.
  apply Forall_cons in Hl as [-> Hl].
  apply forallb_forall. intros y Hy. apply Nat.eqb_eq.
  rewrite Forall_forall in Hl. symmetry. apply Hl. by apply list_elem_of_In.
Qed.

Lemma hidden_sizes_shape B L H t :
  Tensor.has_shape B L H t → Forall (λ x, x = H) (Tensor.hidden_sizes t).
Proof.
  intros [_ Ht]. unfold Tensor.hidden_sizes.
  apply Forall_fmap, Forall_concat.
  eapply Forall_impl; [exact Ht|]. intros e [_ He]. exact He.
Qed.

Lemma cat_dim1_shape B La Lb H a b :
  Tensor.has_shape B La H a → Tensor.has_shape B Lb H b →
  Tensor.cat_dim1 a b = Some (zip_with app a b).
Proof.
  intros Ha Hb. unfold Tensor.cat_dim1.
  rewrite bool_decide_eq_true_2 by (destruct Ha, Hb; congruence).
  rewrite (all_equal_replicate _ H); [done|].
  apply Forall_app; split; eauto using hidden_sizes_shape.
Qed.

(** Gathering along the hidden axis with one index repeated gives the
    vector at that index. *)
Lemma gather_row (v : list F) (g : Z) (e : list (list F)) :
  Tensor.row e g = Some v →
  mapM id (imap (λ k g', Tensor.row e g' ≫= (.!! k)) (replicate (length v) g))
  = Some v.
Proof.
  intros Hg.
  rewrite (imap_ext _ (λ k _, v !! k)).
  2:{ intros k x Hx. apply lookup_replicate in Hx as [-> _]. by rewrite Hg. }
  clear Hg. induction v as [|x v IH]; [done|].
  simpl. rewrite (imap_ext _ (λ k _, v !! k)) by done.
  by rewrite IH.
Qed.

Lemma row_lookup (e : list (list F)) (g : Z) :
  0 ≤ g < Z.of_nat (length e) → is_Some (Tensor.row e g) ∧ Tensor.row e g = e !! Z.to_nat g.
Proof.
  intros Hg. unfold Tensor.row.
  destruct (Z.leb_spec 0 g); [|lia]. split; [|done].
  apply lookup_lt_is_Some. lia.
Qed.

(** Gathering one example. *)
Lemma gather_example H (e : list (list F)) (gs : list Z) :
  Forall (λ v, length v = H) e →
  Forall (λ g, 0 ≤ g < Z.of_nat (length e)) gs →
  mapM (λ ks : list Z, mapM id (imap (λ k g, Tensor.row e g ≫= (.!! k)) ks))
       (replicate H <$> gs)
  = Some (omap (λ g, e !! Z.to_nat g) gs) ∧
  length (omap (λ g, e !! Z.to_nat g) gs) = length gs ∧
  ∀ k g, gs !! k = Some g → omap (λ g, e !! Z.to_nat g) gs !! k = e !! Z.to_nat g.
Proof.
  intros He Hgs. induction Hgs as [|g gs Hg Hgs IH].
  - done.
  - destruct IH as (IH1 & IH2 & IH3).
    destruct (row_lookup e g Hg) as [[v Hv] Hrow].
    assert (Hlen : length v = H).
    { rewrite Hrow in Hv. rewrite Forall_forall in He. apply He.
      by eapply list_elem_of_lookup_2. }
    subst H. rewrite fmap_cons. cbn [mapM]. rewrite (gather_row v g e Hv).
    rewrite IH1. rewrite Hrow in Hv. simpl. rewrite Hv. simpl.
    split_and!; [done|f_equal; exact IH2|].
    intros [|k] g'; simpl; [by intros [= <-]|apply IH3].
Qed.

Lemma gather_dim1_correct H L (input : list (list (list F))) (G : list (list Z)) :
  length G = length input →
  Forall (λ e, length e = L ∧ Forall (λ v, length v = H) e) input →
  Forall (Forall (λ g, 0 ≤ g < Z.of_nat L)) G →
  ∃ O : list (list (list F)),
    Tensor.gather_dim1 input (Tensor.expand_last H G) = Some O ∧
    length O = length G ∧
    ∀ (b : nat) e gs, input !! b = Some e → G !! b = Some gs →
      ∃ Ob, O !! b = Some Ob ∧ length Ob = length gs ∧
            ∀ (k : nat) g, gs !! k = Some g → Ob !! k = e !! Z.to_nat g.
Proof.
  intros Hlen Hin HG. unfold Tensor.gather_dim1, Tensor.expand_last.
  rewrite decide_True by (rewrite length_fmap; lia).
  revert input Hlen Hin. induction HG as [|gs G Hgs HG IH]; intros input Hlen Hin.
  - destruct input; [|done]. exists []. split_and!; [done..|]. intros b ??. by rewrite lookup_nil.
  - destruct input as [|e input]; [done|].
    apply Forall_cons in Hin as [[He1 He2] Hin].
    destruct (IH input) as (O & HO & HlenO & Hlook); [by simplify_eq/=|done|].
    destruct (gather_example H e gs He2) as (H1 & H2 & H3); [by rewrite He1|].
    exists (omap (λ g, e !! Z.to_nat g) gs :: O).
    split_and!.
    + rewrite fmap_cons. cbn [zip zip_with mapM]. cbn [fst snd].
      rewrite H1. simpl. rewrite HO. done.
    + simpl. by rewrite HlenO.
    + intros [|b] e' gs'; simpl.
      * intros [= <-] [= <-]. eauto.
      * intros. by eapply Hlook.
Qed.

End tensors.


(** ** The forward pass of [BertU] *)

Section forward.
Context `{Backend}.


Lemma zip_with_app_shape B La Lb Hd (a b : list (list (list F))) :
  Tensor.has_shape B La Hd a → Tensor.has_shape B Lb Hd b →
  Forall (λ e, length e = (La + Lb)%nat ∧ Forall (λ v, length v = Hd) e)
         (zip_with app a b).
Proof.
  intros [Ha1 Ha2] [Hb1 Hb2]. clear Ha1 Hb1.
  revert b Hb2. induction Ha2 as [|x a [Hx1 Hx2] _ IH]; intros b Hb; [done|].
  destruct Hb as [|y b [Hy1 Hy2] Hb]; [done|].
  simpl. constructor; [|by apply IH].
  split; [rewrite length_app; lia|by apply Forall_app].
Qed.

Lemma align_correct (self : BertU.t) B Lt Li (T I : list (list (list F))) (G : list (list Z)) :
  Tensor.has_shape B Lt (BertU.hidden_size self) T →
  Tensor.has_shape B Li (BertU.hidden_size self) I →
  length G = B →
  Forall (Forall (λ g, 0 ≤ g < Z.of_nat (Lt + Li))) G →
  ∃ O : list (list (list F)),
    BertU.align self T I G = Some O ∧ length O = B ∧
    ∀ (b : nat) Tb Ib Gb,
      T !! b = Some Tb → I !! b = Some Ib → G !! b = Some Gb →
      ∃ Ob, O !! b = Some Ob ∧ length Ob = length Gb ∧
            ∀ (k : nat) g,
              Gb !! k = Some g → Ob !! k = (Tb ++ Ib) !! Z.to_nat g.
Proof.
  intros HT HI HG Hrange. unfold BertU.align.
  rewrite (cat_dim1_shape B Lt Li _ T I HT HI). simpl.
  destruct (gather_dim1_correct (BertU.hidden_size self) (Lt + Li)
              (zip_with app T I) G) as (O & HO & HlenO & Hlook).
  - rewrite length_zip_with. destruct HT, HI. lia.
  - by eapply zip_with_app_shape.
  - done.
  - exists O. split_and!; [done|lia|].
    intros b Tb Ib Gb HTb HIb HGb. apply (Hlook b); [|done].
    rewrite lookup_zip_with. by rewrite HTb, HIb.
Qed.


(** C1. Gather correctness: when the text path returns [T] of shape
    [[B, Lt, hidden]] and the image path returns [I] of shape
    [[B, Li, hidden]], and every entry of the gather index [G] (one row per
    example) lies in [[0, Lt + Li)], the joint path returns an output [O]
    with, for every example [b] and position [k],
    [O[b][k] = (T[b] ++ I[b])[G[b][k]]]: text first, image second. *)
Theorem gather_correctness (self : BertU.t)
    (input_ids : list (list Z)) (position_ids : option (list (list Z)))
    (img_feat img_pos_feat : list (list (list F)))
    (txt_type_ids img_type_ids : option (list (list Z)))
    (G : list (list Z)) (T I : list (list (list F))) (B Lt Li : nat)
    (g0 g1 g2 : gen) :
  BertU._compute_txt_embeddings self input_ids position_ids txt_type_ids g0
    = Some (T, g1) →
  BertU._compute_img_embeddings self img_feat img_pos_feat img_type_ids g1
    = Some (I, g2) →
  Tensor.has_shape B Lt (BertU.hidden_size self) T →
  Tensor.has_shape B Li (BertU.hidden_size self) I →
  length G = B →
  Forall (Forall (λ g, 0 ≤ g < Z.of_nat (Lt + Li))) G →
  ∃ O : list (list (list F)),
    BertU._compute_img_txt_embeddings self input_ids position_ids
      img_feat img_pos_feat (Some G) txt_type_ids img_type_ids g0
    = Some (O, g2) ∧
    length O = B ∧
    ∀ (b : nat) Tb Ib Gb,
      T !! b = Some Tb → I !! b = Some Ib → G !! b = Some Gb →
      ∃ Ob, O !! b = Some Ob ∧ length Ob = length Gb ∧
            ∀ (k : nat) g,
              Gb !! k = Some g → Ob !! k = (Tb ++ Ib) !! Z.to_nat g.
Proof.
  intros Htxt Himg HT HI HG Hrange.
  destruct (align_correct self B Lt Li T I G HT HI HG Hrange)
    as (O & HO & Hlen & Hlook).
  exists O. split_and!; [|done..].
  unfold BertU._compute_img_txt_embeddings, mbind, M_bind.
  rewrite Htxt, Himg. simpl. by rewrite HO.
Qed.


(** C6. Mode equivalence: with the image input absent the embedding layer
    of [forward] is the text path on the same text input, from the same
    generator state, whatever the gather index and the other image
    arguments are, and [forward] is the text path followed by the encoder;
    with the text input absent the same holds for the image path. *)
Theorem mode_equivalence (self : BertU.t) :
  (∀ input_ids position_ids img_pos_feat gather_index txt_type_ids
     img_type_ids g,
     BertU.embedding_layer self (Some input_ids) position_ids None
       img_pos_feat gather_index txt_type_ids img_type_ids g
     = BertU._compute_txt_embeddings self input_ids position_ids
         txt_type_ids g) ∧
  (∀ position_ids img_feat img_pos_feat gather_index txt_type_ids
     img_type_ids g,
     BertU.embedding_layer self None position_ids (Some img_feat)
       (Some img_pos_feat) gather_index txt_type_ids img_type_ids g
     = BertU._compute_img_embeddings self img_feat img_pos_feat
         img_type_ids g) ∧
  (∀ input_ids position_ids img_pos_feat attention_mask gather_index
     output_all_encoded_layers txt_type_ids img_type_ids g,
     BertU.forward self (Some input_ids) position_ids None img_pos_feat
       attention_mask gather_index output_all_encoded_layers
       txt_type_ids img_type_ids g
     = (embedding_output ←
          BertU._compute_txt_embeddings self input_ids position_ids
            txt_type_ids;
        BertU.encode self embedding_output
          (BertU.extended_attention_mask attention_mask)
          output_all_encoded_layers) g) ∧
  (∀ position_ids img_feat img_pos_feat attention_mask gather_index
     output_all_encoded_layers txt_type_ids img_type_ids g,
     BertU.forward self None position_ids (Some img_feat)
       (Some img_pos_feat) attention_mask gather_index
       output_all_encoded_layers txt_type_ids img_type_ids g
     = (embedding_output ←
          BertU._compute_img_embeddings self img_feat img_pos_feat
            img_type_ids;
        BertU.encode self embedding_output
          (BertU.extended_attention_mask attention_mask)
          output_all_encoded_layers) g).
Proof.
  split_and!.
  - reflexivity.
  - reflexivity.
  - intros. unfold BertU.forward, BertU.embedding_layer. reflexivity.
  - intros. unfold BertU.forward, BertU.embedding_layer, mbind, M_bind, lift.
    reflexivity.
Qed.

(** The default type ids have the shape of the region axis. *)
Lemma select_first_nonempty (t : list (list (list F))) :
  Forall (Forall (λ v, v ≠ [])) t →
  ∃ first : list (list F),
    Tensor.select_first t = Some first ∧
    Tensor.ones_like ((λ r : list F, to_long <$> r) <$> first)
    = Tensor.ones_like t.
Proof.
  intros Ht. unfold Tensor.select_first.
  induction Ht as [|e t He Ht (first & IH1 & IH2)].
  - by exists [].
  - assert (∃ fe : list F, mapM head e = Some fe ∧ length fe = length e)
      as (fe & Hfe & Hlen).
    { clear -He. induction He as [|v e Hv He (fe & IH & Hl)]; [by exists []|].
      destruct v as [|x v]; [done|]. exists (x :: fe). simpl. rewrite IH.
      split; [done|]. simpl. by rewrite Hl. }
    exists (fe :: first). cbn [mapM]. rewrite Hfe, IH1. split; [done|].
    unfold Tensor.ones_like in *. rewrite !fmap_cons. f_equal; [|done].
    rewrite <- list_fmap_compose.
    clear -Hlen. revert e Hlen. induction fe; intros [|??] ?; simplify_eq/=; f_equal; auto.
Qed.

Lemma embedding_ones (table : list (list F)) (r1 : list F) {X} (t : list (list X)) :
  table !! 1%nat = Some r1 →
  Tensor.embedding table (Tensor.ones_like t)
  = Some ((λ e : list X, (λ _, r1) <$> e) <$> t).
Proof.
  intros Hr. unfold Tensor.embedding, Tensor.ones_like.
  apply mapM_Some. apply Forall2_fmap. apply Forall_Forall2_diag, Forall_forall.
  intros e _. apply mapM_Some, Forall2_fmap, Forall_Forall2_diag, Forall_forall.
  intros x _. done.
Qed.

Lemma embedding_ones_fail (table : list (list F)) {X} (t : list (list X)) :
  (length table < 2)%nat → concat t ≠ [] →
  Tensor.embedding table (Tensor.ones_like t) = None.
Proof.
  intros Hlen Ht. unfold Tensor.embedding, Tensor.ones_like.
  apply mapM_None. apply Exists_fmap.
  induction t as [|e t IH]; [done|].
  destruct e as [|x e].
  - right. apply IH. done.
  - left. simpl. unfold Tensor.row. simpl.
    rewrite lookup_ge_None_2 by lia. done.
Qed.


(** C10. Default image modality marker: with [img_type_ids] absent the
    type ids are ones of the shape of the region axis, the marker is row 1
    of the text encoder's [token_type_embeddings], every region gets that
    row, row 1 exists from [type_vocab_size = 2] on, and with a smaller
    table the image path raises as soon as there is one region. *)
Theorem default_image_type (self : BertU.t)
    (img_feat img_pos_feat : list (list (list F))) :
  Forall (Forall (λ v, v ≠ [])) img_feat →
  BertU.img_type_ids_or_default img_feat None
    = Some ((λ e : list (list F), (λ _, 1) <$> e) <$> img_feat) ∧
  (∀ r1,
     UniterTextEmbeddings.token_type_embeddings (BertU.embeddings self)
       !! 1%nat = Some r1 →
     ∀ g, BertU._compute_img_embeddings self img_feat img_pos_feat None g
     = UniterImageEmbeddings.forward (BertU.img_embeddings self)
         img_feat img_pos_feat
         ((λ e : list (list F), (λ _, r1) <$> e) <$> img_feat) g) ∧
  ((2 ≤ UniterTextEmbeddings.type_vocab_size (BertU.embeddings self))%nat →
   is_Some (UniterTextEmbeddings.token_type_embeddings (BertU.embeddings self)
              !! 1%nat)) ∧
  ((UniterTextEmbeddings.type_vocab_size (BertU.embeddings self) < 2)%nat →
   concat img_feat ≠ [] →
   ∀ g, BertU._compute_img_embeddings self img_feat img_pos_feat None g
        = None).
Proof.
  intros Hfeat.
  destruct (select_first_nonempty img_feat Hfeat) as (first & Hfirst & Hones).
  assert (Hids : BertU.img_type_ids_or_default img_feat None
                 = Some (Tensor.ones_like img_feat)).
  { unfold BertU.img_type_ids_or_default. rewrite Hfirst. simpl.
    by rewrite Hones. }
  split_and!.
  - exact Hids.
  - intros r1 Hr1 g. unfold BertU._compute_img_embeddings, mbind, M_bind, lift.
    rewrite Hids, (embedding_ones _ r1) by done. done.
  - intros Hn. apply lookup_lt_is_Some. exact Hn.
  - intros Hn Hreg g. unfold BertU._compute_img_embeddings, mbind, M_bind, lift.
    rewrite Hids, embedding_ones_fail by done. done.
Qed.

(** Broadcasting along one axis, read at an index both sides have, and
    at any index when the right side has size one. *)
Lemma bzip_lookup {X Y Z'} (f : X → Y → option Z') xs ys zs (i : nat) x y :
  Tensor.bzip f xs ys = Some zs → xs !! i = Some x → ys !! i = Some y →
  ∃ z, zs !! i = Some z ∧ f x y = Some z.
Proof.
  unfold Tensor.bzip. intros Hz Hx Hy. case_decide as Hlen.
  - apply mapM_Some in Hz.
    assert (Hxy : zip xs ys !! i = Some (x, y)).
    { rewrite lookup_zip_with. by rewrite Hx, Hy. }
    destruct (Forall2_lookup_l _ _ _ _ _ Hz Hxy) as (z & Hz1 & Hz2). eauto.
  - destruct xs as [|x0 [|x1 xs]].
    + by rewrite lookup_nil in Hx.
    + destruct i; [|done]. injection Hx as ->.
      apply mapM_Some in Hz.
      destruct (Forall2_lookup_l _ _ _ _ _ Hz Hy) as (z & Hz1 & Hz2). eauto.
    + destruct ys as [|y0 [|y1 ys]]; try done.
      destruct i; [|done]. injection Hy as ->.
      apply mapM_Some in Hz.
      destruct (Forall2_lookup_l _ _ _ _ _ Hz Hx) as (z & Hz1 & Hz2). eauto.
Qed.

Lemma bzip_lookup_single {X Y Z'} (f : X → Y → option Z') xs y zs (i : nat) x :
  Tensor.bzip f xs [y] = Some zs → xs !! i = Some x →
  ∃ z, zs !! i = Some z ∧ f x y = Some z.
Proof.
  intros Hz Hx. destruct (decide (length xs = 1%nat)) as [Hlen|Hlen].
  - destruct xs as [|x0 [|??]]; try done. destruct i; [|done].
    eapply bzip_lookup; eauto.
  - unfold Tensor.bzip in Hz. rewrite decide_False in Hz by done.
    assert (Hz' : mapM (λ x, f x y) xs = Some zs).
    { destruct xs as [|x0 [|x1 xs]]; try done. }
    apply mapM_Some in Hz'.
    destruct (Forall2_lookup_l _ _ _ _ _ Hz' Hx) as (z & Hz1 & Hz2). eauto.
Qed.

(** The sum of scores and extended mask, entry by entry. *)
Lemma masked_scores_lookup (scores masked : list (list (list (list F))))
    (m : list (list Z)) (b h i j : nat) mb sb sh si s x :
  Tensor.add4 Fadd scores (BertU.extended_attention_mask m) = Some masked →
  m !! b = Some mb → mb !! j = Some x →
  scores !! b = Some sb → sb !! h = Some sh → sh !! i = Some si →
  si !! j = Some s →
  ∃ kb kh ki,
    masked !! b = Some kb ∧ kb !! h = Some kh ∧ kh !! i = Some ki ∧
    ki !! j = Some (Fadd s (Fmul (Fsub F_1 (of_long x)) F_neg10000)).
Proof.
  intros Hadd Hmb Hx Hsb Hsh Hsi Hs.
  unfold Tensor.add4 in Hadd.
  eapply bzip_lookup in Hadd as (kb & Hkb & Hadd); [|done|].
  2:{ unfold BertU.extended_attention_mask. rewrite list_lookup_fmap, Hmb. done. }
  unfold Tensor.add3 in Hadd.
  eapply bzip_lookup_single in Hadd as (kh & Hkh & Hadd); [|done].
  eapply bzip_lookup_single in Hadd as (ki & Hki & Hadd); [|done].
  eapply bzip_lookup in Hadd as (z & Hz & Hadd); [|done|].
  2:{ rewrite list_lookup_fmap, Hx. done. }
  simplify_eq/=. eauto 10.
Qed.


(** Every layer of the stack adds the mask it is given to its scaled
    scores and computes its context from the sum. *)
Lemma layers_mask (layer : list layer_params) h mask flag g res :
  UniterEncoder.layers layer h mask flag g = Some res →
  ∀ (n : nat) l, layer !! n = Some l →
    ∃ hn s gn,
      Tensor.add4 Fadd (BertSelfAttention.scaled l (raw_scores l hn)) mask
        = Some s ∧
      is_Some (attention_context l s hn gn).
Proof.
  revert h g res.
  induction layer as [|l0 layer IH]; intros h g res Hrun n l Hl.
  - by rewrite lookup_nil in Hl.
  - cbn [UniterEncoder.layers] in Hrun. unfold mbind, M_bind in Hrun.
    destruct (BertLayer.forward l0 h mask g) as [[h1 g1]|] eqn:Hlayer;
      [|done].
    destruct (UniterEncoder.layers layer h1 mask flag g1)
      as [[[last all] g2]|] eqn:Hrest; [|done].
    destruct n as [|n].
    + injection Hl as <-. clear IH Hrest Hrun.
      unfold BertLayer.forward, BertAttention.forward,
        BertSelfAttention.forward, mbind, M_bind, lift in Hlayer.
      destruct (Tensor.add4 Fadd
                  (BertSelfAttention.scaled l0 (raw_scores l0 h)) mask)
        as [s|] eqn:Hs; [|done].
      destruct (attention_context l0 s h g) as [[c gc]|] eqn:Hc; [|done].
      exists h, s, g. split; [done|]. rewrite Hc. eauto.
    + eapply IH; eauto.
Qed.

(** The scaled scores, entry by entry. *)
Lemma scaled_lookup (l : layer_params) (raw : list (list (list (list F))))
    (b h i j : nat) rb rh ri s :
  raw !! b = Some rb → rb !! h = Some rh → rh !! i = Some ri →
  ri !! j = Some s →
  ∃ sb sh si,
    BertSelfAttention.scaled l raw !! b = Some sb ∧ sb !! h = Some sh ∧
    sh !! i = Some si ∧ si !! j = Some (Fdiv s (sqrt_head_size l)).
Proof.
  intros Hb Hh Hi Hj. unfold BertSelfAttention.scaled, Tensor.map4.
  eexists _, _, _. split_and!.
  - by rewrite list_lookup_fmap, Hb.
  - by rewrite list_lookup_fmap, Hh.
  - by rewrite list_lookup_fmap, Hi.
  - by rewrite list_lookup_fmap, Hj.
Qed.

End forward.

Import Torch.

(** ** Dictionaries *)

Section dicts.
Context {V : Type}.
Implicit Types d : list (string * V).

Lemma dict_get_keys k d :
  is_Some (Py.dict_get k d) ↔ k ∈ Py.keys d.
Proof.
  unfold Py.keys. induction d as [|[k' v] d IH]; simpl.
  - split; [by intros [??]|by intros ?%elem_of_nil].
  - rewrite elem_of_cons. case_decide as Hk.
    + split; eauto.
    + rewrite IH. split; [by right|]. intros [?|?]; [congruence|done].
Qed.

Lemma keys_dict_set k v d k' :
  k' ∈ Py.keys d → k' ∈ Py.keys (Py.dict_set k v d).
Proof.
  unfold Py.keys. induction d as [|[k0 v0] d IH]; simpl.
  - by intros ?%elem_of_nil.
  - case_decide as Hk; simpl; rewrite !elem_of_cons.
    + intros [->|?]; [by left|by right].
    + intros [->|?]; [by left|right; auto].
Qed.

Lemma keys_dict_del k d k' :
  k' ∈ Py.keys d → k' ≠ k → k' ∈ Py.keys (Py.dict_del k d).
Proof.
  unfold Py.keys. induction d as [|[k0 v0] d IH]; simpl; [done|].
  case_decide as Hk; simpl; rewrite !elem_of_cons.
  - intros [->|?] ?; [congruence|done].
  - intros [->|?] ?; [by left|right; auto].
Qed.

Lemma dict_get_set_eq k v d : Py.dict_get k (Py.dict_set k v d) = Some v.
Proof.
  induction d as [|[k0 v0] d IH]; simpl.
  - by rewrite decide_True.
  - case_decide as Hk; simpl; [by rewrite decide_True|by rewrite decide_False].
Qed.

Lemma dict_get_set_ne k k' v d :
  k' ≠ k → Py.dict_get k' (Py.dict_set k v d) = Py.dict_get k' d.
Proof.
  intros Hne. induction d as [|[k0 v0] d IH]; simpl.
  - by rewrite decide_False.
  - case_decide as Hk; simpl.
    + subst k0. by rewrite !decide_False by done.
    + case_decide; [done|apply IH].
Qed.

Lemma keys_dict_set_mem k v d :
  k ∈ Py.keys d → Py.keys (Py.dict_set k v d) = Py.keys d.
Proof.
  unfold Py.keys. induction d as [|[k0 v0] d IH]; simpl.
  - by intros ?%elem_of_nil.
  - case_decide as Hk; simpl; [by subst|].
    rewrite elem_of_cons. intros [?|?]; [congruence|]. f_equal. auto.
Qed.

Lemma renames_sublist ks : (UniterPreTrainedModel.renames ks).*1 `sublist_of` ks.
Proof.
  induction ks as [|k ks IH]; simpl; [done|].
  case_match; simpl; [by apply sublist_skip|by apply sublist_cons].
Qed.


End dicts.

(** ** The tree walk *)

Section walk.
Context {A : Type}.
Implicit Types (sd : list (string * tensor A)) (m : Module A) (r : report).

(** Induction on a module tree through its children. *)
Lemma Module_ind' (P : Module A → Prop) :
  (∀ ps cs, Forall (λ nc, ∀ c, nc.2 = Some c → P c) cs → P (Mod ps cs)) →
  ∀ m, P m.
Proof.
  intros Hstep. fix IH 1. intros [ps cs]. apply Hstep.
  induction cs as [|[name [c|]] cs IHcs]; constructor; try exact IHcs.
  - intros c' [= <-]. apply IH.
  - intros c' [=].
Qed.

Lemma accounts_nil sd : accounts sd [] report_nil.
Proof.
  unfold accounts. simpl. split_and!; intros k Hk; by apply elem_of_nil in Hk.
Qed.

Lemma accounts_app sd l1 l2 r1 r2 :
  accounts sd l1 r1 → accounts sd l2 r2 →
  accounts sd (l1 ++ l2) (report_app r1 r2).
Proof.
  intros (H1a & H1b & H1c & H1d) (H2a & H2b & H2c & H2d).
  unfold accounts. simpl. split_and!; intros k; rewrite ?elem_of_app.
  - intros [Hk|Hk]; [destruct (H1a k Hk) as [?|[?|?]]|destruct (H2a k Hk) as [?|[?|?]]];
      eauto; right; right; by destruct (error_msgs r1), (error_msgs r2).
  - intros [Hk|Hk]; [destruct (H1b k Hk)|destruct (H2b k Hk)]; eauto.
  - intros [Hk|Hk]; [destruct (H1c k Hk)|destruct (H2c k Hk)]; eauto.
  - intros [Hk|Hk]; eauto.
Qed.

Lemma accounts_missing sd k :
  Py.dict_get k sd = None →
  accounts sd [k] {| missing_keys := [k]; unexpected_keys := [];
                     error_msgs := []; copied_keys := [] |}.
Proof.
  intros Hk. unfold accounts. simpl.
  split_and!; intros k'; rewrite ?elem_of_nil; try done.
  - by left.
  - intros ->%list_elem_of_singleton. split; [by apply list_elem_of_singleton|done].
Qed.

Lemma accounts_copied sd k :
  is_Some (Py.dict_get k sd) →
  accounts sd [k] {| missing_keys := []; unexpected_keys := [];
                     error_msgs := []; copied_keys := [k] |}.
Proof.
  intros Hk. unfold accounts. simpl.
  split_and!; intros k'; rewrite ?elem_of_nil; try done.
  - by right; left.
  - intros ->%list_elem_of_singleton. split; [by apply list_elem_of_singleton|done].
Qed.

Lemma accounts_error sd k msg :
  accounts sd [k] {| missing_keys := []; unexpected_keys := [];
                     error_msgs := [msg]; copied_keys := [] |}.
Proof.
  unfold accounts. simpl.
  split_and!; intros k'; rewrite ?elem_of_nil; try done.
  by right; right.
Qed.

Lemma accounts_parameters sd prefix ps :
  accounts sd ((λ name, prefix +:+ name) <$> ps.*1)
           (load_parameters sd prefix ps).2.
Proof.
  induction ps as [|[name param] ps IH]; [apply accounts_nil|].
  cbn [load_parameters]. destruct (load_parameters sd prefix ps) as [rest r].
  rewrite !fmap_cons. cbn [fst snd] in *.
  change ((prefix +:+ name) :: ?l) with ([prefix +:+ name] ++ l).
  destruct (Py.dict_get (prefix +:+ name) sd) as [input|] eqn:Hget.
  - case_decide; cbn [snd]; (apply accounts_app; [|done]).
    + apply accounts_copied. by rewrite Hget.
    + apply accounts_error.
  - cbn [snd]. apply accounts_app; [|done]. by apply accounts_missing.
Qed.

Lemma accounts_unexpected sd prefix m :
  accounts sd [] {| missing_keys := [];
                    unexpected_keys := unexpected_here sd prefix m;
                    error_msgs := []; copied_keys := [] |}.
Proof.
  unfold accounts. simpl.
  split_and!; intros k; rewrite ?elem_of_nil; try done.
  unfold unexpected_here. rewrite list_elem_of_In, filter_In.
  intros [Hk _]. by apply list_elem_of_In.
Qed.

Lemma accounts_here sd prefix m :
  accounts sd ((λ name, prefix +:+ name) <$> (parameters m).*1)
           (_load_from_state_dict sd prefix m).2.
Proof.
  unfold _load_from_state_dict.
  pose proof (accounts_parameters sd prefix (parameters m)) as Hp.
  destruct (load_parameters sd prefix (parameters m)) as [ps r]. cbn [snd] in *.
  rewrite <- (app_nil_r (_ <$> _)).
  apply accounts_app; [done|apply accounts_unexpected].
Qed.

Lemma accounts_foldl sd l0 r0 (ls : list (list string)) (rs : list report) :
  accounts sd l0 r0 → Forall2 (accounts sd) ls rs →
  accounts sd (l0 ++ concat ls) (foldl report_app r0 rs).
Proof.
  intros H0 Hs. revert l0 r0 H0.
  induction Hs as [|l r ls rs Hl _ IH]; intros l0 r0 H0; simpl.
  - by rewrite app_nil_r.
  - rewrite app_assoc. apply IH. by apply accounts_app.
Qed.

Lemma load_unfold sd prefix ps cs :
  load sd prefix (Mod ps cs) =
  let '(ps', r) := _load_from_state_dict sd prefix (Mod ps cs) in
  let walked :=
    (λ nc : string * option (Module A),
       match nc.2 with
       | Some child =>
           let '(child', rc) := load sd (prefix +:+ nc.1 +:+ ".") child in
           ((nc.1, Some child'), rc)
       | None => ((nc.1, None), report_nil)
       end) <$> cs in
  (Mod ps' (walked.*1), foldl report_app r (walked.*2)).
Proof. reflexivity. Qed.

Lemma state_dict_keys_unfold prefix ps (cs : list (string * option (Module A))) :
  state_dict_keys prefix (Mod ps cs) =
  ((λ name, prefix +:+ name) <$> ps.*1) ++
  concat ((λ nc : string * option (Module A),
             match nc.2 with
             | Some child => state_dict_keys (prefix +:+ nc.1 +:+ ".") child
             | None => []
             end) <$> cs).
Proof.
  cbn [state_dict_keys]. f_equal.
  induction cs as [|nc cs IH]; [done|]. simpl. by rewrite IH.
Qed.

(** The walk accounts for every key of the target, under any prefix. *)
Lemma load_accounts sd m :
  ∀ prefix, accounts sd (state_dict_keys prefix m) (load sd prefix m).2.
Proof.
  induction m as [ps cs IH] using Module_ind'. intros prefix.
  rewrite load_unfold, state_dict_keys_unfold.
  pose proof (accounts_here sd prefix (Mod ps cs)) as Hhere.
  destruct (_load_from_state_dict sd prefix (Mod ps cs)) as [ps' r].
  cbn [snd parameters] in *. cbv zeta.
  apply accounts_foldl; [done|].
  rewrite <- list_fmap_compose. apply Forall2_fmap.
  apply Forall_Forall2_diag.
  eapply Forall_impl; [exact IH|]. intros [name [c|]] Hc; simpl in *.
  - specialize (Hc c eq_refl (prefix +:+ name +:+ ".")).
    by destruct (load sd (prefix +:+ name +:+ ".") c).
  - apply accounts_nil.
Qed.

(** *** Where the keys of the checkpoint end up *)

Lemma visited_unfold prefix ps (cs : list (string * option (Module A))) :
  Walk.visited prefix (Mod ps cs) =
  (prefix, Mod ps cs) ::
  concat ((λ nc : string * option (Module A),
             match nc.2 with
             | Some child => Walk.visited (prefix +:+ nc.1 +:+ ".") child
             | None => []
             end) <$> cs).
Proof.
  cbn [Walk.visited]. f_equal.
  induction cs as [|nc cs IH]; [done|]. simpl. by rewrite IH.
Qed.

Lemma load_parameters_unexpected sd prefix ps :
  unexpected_keys (load_parameters sd prefix ps).2 = [].
Proof.
  induction ps as [|[name param] ps IH]; [done|].
  cbn [load_parameters]. destruct (load_parameters sd prefix ps) as [rest r].
  cbn [snd] in IH.
  destruct (Py.dict_get (prefix +:+ name) sd); [case_decide|]; by simpl.
Qed.

Lemma unexpected_foldl r0 (rs : list report) :
  unexpected_keys (foldl report_app r0 rs)
  = unexpected_keys r0 ++ concat (unexpected_keys <$> rs).
Proof.
  revert r0. induction rs as [|r rs IH]; intros r0; simpl.
  - by rewrite app_nil_r.
  - rewrite IH. destruct r0, r. simpl. by rewrite <- app_assoc.
Qed.

(** The unexpected keys of the walk: those of every module it visits, in
    the order of the visits. *)
Lemma load_unexpected sd m :
  ∀ prefix,
    unexpected_keys (load sd prefix m).2
    = concat ((λ pm : string * Module A, unexpected_here sd pm.1 pm.2)
              <$> Walk.visited prefix m).
Proof.
  induction m as [ps cs IH] using Module_ind'. intros prefix.
  rewrite load_unfold, visited_unfold. unfold _load_from_state_dict.
  cbn [parameters]. pose proof (load_parameters_unexpected sd prefix ps) as Hp.
  destruct (load_parameters sd prefix ps) as [ps' r]. cbn [snd] in *.
  rewrite unexpected_foldl. simpl. rewrite Hp. simpl. f_equal.
  rewrite <- !list_fmap_compose.
  induction IH as [|[name [c|]] cs Hc _ IHcs]; [done| |]; simpl.
  - rewrite fmap_app, concat_app. f_equal; [|done].
    specialize (Hc c eq_refl (prefix +:+ name +:+ ".")).
    by destruct (load sd (prefix +:+ name +:+ ".") c).
  - done.
Qed.

Lemma elem_of_unexpected_here sd prefix m key :
  key ∈ unexpected_here sd prefix m ↔
  key ∈ Py.keys sd ∧ Py.startswith key prefix = true ∧
  (Walk.input_name prefix key ∉ (modules m).*1) ∧
  (Walk.input_name prefix key ∉ (parameters m).*1).
Proof.
  unfold unexpected_here, Walk.input_name.
  rewrite list_elem_of_In, filter_In, <- list_elem_of_In.
  rewrite !andb_true_iff, !bool_decide_eq_true. tauto.
Qed.

Lemma elem_of_concat_fmap {X Y} (f : X → list Y) (l : list X) x y :
  x ∈ l → y ∈ f x → y ∈ concat (f <$> l).
Proof.
  intros Hx Hy. apply list_elem_of_In, in_concat. exists (f x).
  split; [|by apply list_elem_of_In].
  apply list_elem_of_In, list_elem_of_fmap. eauto.
Qed.

Lemma visited_child prefix ps (cs : list (string * option (Module A)))
    name child pm :
  (name, Some child) ∈ cs →
  pm ∈ Walk.visited (prefix +:+ name +:+ ".") child →
  pm ∈ Walk.visited prefix (Mod ps cs).
Proof.
  intros Hc Hpm. rewrite visited_unfold. apply elem_of_cons. right.
  by apply (elem_of_concat_fmap _ cs (name, Some child)).
Qed.

Lemma state_dict_keys_child prefix ps
    (cs : list (string * option (Module A))) name child k :
  (name, Some child) ∈ cs →
  k ∈ state_dict_keys (prefix +:+ name +:+ ".") child →
  k ∈ state_dict_keys prefix (Mod ps cs).
Proof.
  intros Hc Hk. rewrite state_dict_keys_unfold. apply elem_of_app. right.
  by apply (elem_of_concat_fmap _ cs (name, Some child)).
Qed.

(** Where a key under the prefix of a module ends up: at a visited module
    for which it names nothing, at a parameter of the target, or nowhere. *)
Lemma walk_complete m key :
  ∀ prefix,
    Py.startswith key prefix = true →
    (∃ pm, pm ∈ Walk.visited prefix m ∧
           Py.startswith key pm.1 = true ∧
           (Walk.input_name pm.1 key ∉ (modules pm.2).*1) ∧
           (Walk.input_name pm.1 key ∉ (parameters pm.2).*1)) ∨
    key ∈ state_dict_keys prefix m ∨
    Walk.passed_over prefix m key.
Proof.
  induction m as [ps cs IH] using Module_ind'. intros prefix Hpre.
  remember (Walk.input_name prefix key) as name eqn:Hname.
  unfold Walk.input_name in Hname.
  assert (Hkey : key = prefix +:+ name ∨
                 (∃ more, key = prefix +:+ name +:+ "." +:+ more)).
  { pose proof (startswith_split key prefix Hpre) as Hs.
    destruct (first_component_cases
                (Py.str_drop (String.length prefix) key)) as [Hc|[more Hc]].
    - left. rewrite Hs at 1. by rewrite Hc, <- Hname.
    - right. exists more. rewrite Hs at 1. by rewrite Hc, <- Hname. }
  destruct (decide (name ∈ ps.*1)) as [Hp|Hp].
  { (* the name of a parameter *)
    right. assert (Ht : prefix +:+ name ∈ state_dict_keys prefix (Mod ps cs)).
    { rewrite state_dict_keys_unfold. apply elem_of_app. left.
      by apply list_elem_of_fmap_2. }
    destruct Hkey as [Hkey|[more Hkey]]; [left; by rewrite Hkey|].
    right. left. exists (prefix +:+ name). split; [done|].
    rewrite Hkey.
    replace (prefix +:+ name +:+ "." +:+ more)
      with (((prefix +:+ name) +:+ ".") +:+ more)
      by (by rewrite !append_assoc).
    apply startswith_append. }
  destruct (decide (name ∈ cs.*1)) as [Hc|Hc].
  2:{ (* no name of this module *)
      left. exists (prefix, Mod ps cs). unfold Walk.input_name.
      cbn [fst snd modules parameters]. rewrite <- Hname.
      split_and!; [|done..]. rewrite visited_unfold. by left. }
  apply list_elem_of_fmap in Hc as ([name' child] & Hn & Hc).
  simpl in Hn. rewrite <- Hn in Hc. clear name' Hn.
  assert (Hroot : (prefix, Mod ps cs) ∈ Walk.visited prefix (Mod ps cs)).
  { rewrite visited_unfold. by left. }
  destruct Hkey as [Hkey|[more Hkey]].
  { right. right. right. exists prefix, (Mod ps cs), name, child. auto. }
  assert (Hunder : Py.startswith key (prefix +:+ name +:+ ".") = true).
  { rewrite Hkey.
    replace (prefix +:+ name +:+ "." +:+ more)
      with ((prefix +:+ name +:+ ".") +:+ more)
      by (by rewrite !append_assoc).
    apply startswith_append. }
  destruct child as [child|].
  2:{ right. right. right. exists prefix, (Mod ps cs), name, None. auto. }
  rewrite Forall_forall in IH.
  destruct (IH _ Hc child eq_refl (prefix +:+ name +:+ ".") Hunder)
    as [(pm & Hpm & Hrest)|[Hk|Hover]].
  - left. exists pm. split; [by eapply visited_child|done].
  - right. left. by eapply state_dict_keys_child.
  - right. right.
    destruct Hover as [(t & Ht & Hst)|(p & m' & n & c & Hv & Hrest)].
    + left. exists t. split; [by eapply state_dict_keys_child|done].
    + right. exists p, m', n, c. split; [by eapply visited_child|done].
Qed.

(** A key of the checkpoint that names nothing of a visited module, under
    the prefix of that module, is unexpected. *)
Lemma load_unexpected_here sd m prefix key p m' :
  key ∈ Py.keys sd → (p, m') ∈ Walk.visited prefix m →
  Py.startswith key p = true →
  Walk.input_name p key ∉ (modules m').*1 →
  Walk.input_name p key ∉ (parameters m').*1 →
  key ∈ unexpected_keys (load sd prefix m).2.
Proof.
  intros Hk Hv Hp Hm Hps. rewrite load_unexpected.
  apply (elem_of_concat_fmap _ _ (p, m')); [done|].
  by apply elem_of_unexpected_here.
Qed.

(** After a walk without error messages every key of the checkpoint under
    the prefix is unexpected, copied, or passed over. *)
Lemma load_complete sd m prefix key :
  error_msgs (load sd prefix m).2 = [] →
  key ∈ Py.keys sd → Py.startswith key prefix = true →
  key ∈ unexpected_keys (load sd prefix m).2 ∨
  key ∈ copied_keys (load sd prefix m).2 ∨
  Walk.passed_over prefix m key.
Proof.
  intros He Hk Hpre.
  destruct (walk_complete m key prefix Hpre)
    as [([p m'] & Hpm & Hp & Hm & Hps)|[Ht|Hover]].
  - left. by eapply load_unexpected_here.
  - right. left.
    destruct (load_accounts sd m prefix) as (Ha & Hb & _).
    destruct (Ha key Ht) as [Hm|[Hc|Hne]]; [|done|done].
    destruct (Hb key Hm) as [_ Hnone].
    apply dict_get_keys in Hk as [v Hv]. congruence.
  - by right; right.
Qed.

End walk.

(** ** Checkpoint loading *)

Section loading.
Context {A : Type}.
Implicit Types (sd : list (string * tensor A)) (model : Module A).

(** After the normalisation only the error messages decide. *)
Lemma from_pretrained_cases model sd sd' :
  UniterPreTrainedModel.normalized sd = Return sd' →
  UniterPreTrainedModel.from_pretrained model sd =
  match error_msgs (UniterPreTrainedModel.walk model sd').2 with
  | [] => Return (UniterPreTrainedModel.walk model sd')
  | msgs => Raise (RuntimeError msgs)
  end.
Proof.
  intros Hn. unfold UniterPreTrainedModel.from_pretrained. rewrite Hn.
  destruct (UniterPreTrainedModel.walk model sd') as [m' r]. simpl.
  by destruct (error_msgs r).
Qed.

(** C3 (amended). Load outcome: for a load whose key normalisation
    returns, [from_pretrained] returns the populated model exactly when the
    error-message list is empty after the full walk, whatever the missing
    and unexpected lists hold, and raises the [RuntimeError] with the
    messages exactly when that list is not empty; it raises nothing
    else. *)
Theorem load_outcome model sd sd' :
  UniterPreTrainedModel.normalized sd = Return sd' →
  let loaded := UniterPreTrainedModel.walk model sd' in
  (UniterPreTrainedModel.from_pretrained model sd = Return loaded
   ↔ error_msgs loaded.2 = []) ∧
  (UniterPreTrainedModel.from_pretrained model sd
     = Raise (RuntimeError (error_msgs loaded.2))
   ↔ error_msgs loaded.2 ≠ []) ∧
  (∀ e, UniterPreTrainedModel.from_pretrained model sd = Raise e →
        e = RuntimeError (error_msgs loaded.2) ∧ error_msgs loaded.2 ≠ []) ∧
  (∀ out, UniterPreTrainedModel.from_pretrained model sd = Return out →
          out = loaded ∧ error_msgs loaded.2 = []).
Proof.
  intros Hn loaded. rewrite (from_pretrained_cases model sd sd' Hn).
  fold loaded. destruct (error_msgs loaded.2) as [|msg msgs] eqn:He.
  - split_and!; [done|split; done|by intros ? [=]|by intros ? [= <-]].
  - split_and!; [split; done|done|by intros ? [= <-]|by intros ? [=]].
Qed.

Lemma reconcile_cases sd :
  UniterPreTrainedModel.reconcile sd =
  match Py.dict_get UniterPreTrainedModel.pos_linear_weight sd with
  | Some (Mat m) =>
      Return (Py.dict_set UniterPreTrainedModel.pos_linear_weight
            (Mat (take 4 <$> m)) sd)
  | Some (Vec _) => Raise IndexError
  | None => Return sd
  end.
Proof.
  unfold UniterPreTrainedModel.reconcile.
  by destruct (Py.dict_get _ sd) as [[v|m]|].
Qed.

(** C2 (amended). Truncation: the tensor under
    [img_embeddings.pos_linear.weight], and no other, is replaced by its
    slice [[:, :4]]: as many rows, every row the prefix of the source row of
    length [min W 4], which is the input width of the target's
    [pos_linear] when [args.num_pos] is not 6 and the source has at least
    four columns. Every other key keeps its tensor, the keys stay as they
    are, and nothing is padded. *)
Theorem pos_linear_truncation sd :
  (∀ m : list (list A),
     Py.dict_get UniterPreTrainedModel.pos_linear_weight sd = Some (Mat m) →
     ∃ sd',
       UniterPreTrainedModel.reconcile sd = Return sd' ∧
       Py.dict_get UniterPreTrainedModel.pos_linear_weight sd'
         = Some (Mat (take 4 <$> m)) ∧
       length (take 4 <$> m) = length m ∧
       (∀ (i : nat) row, m !! i = Some row →
          ∃ row', (take 4 <$> m) !! i = Some row' ∧
                  row' `prefix_of` row ∧
                  length row' = (length row `min` 4)%nat) ∧
       (∀ k, k ≠ UniterPreTrainedModel.pos_linear_weight →
             Py.dict_get k sd' = Py.dict_get k sd) ∧
       Py.keys sd' = Py.keys sd ∧
       (∀ num_pos, num_pos ≠ 6 →
          Forall (λ row, (4 ≤ length row)%nat) m →
          Forall (λ row', length row' =
                          UniterImageEmbeddings.pos_linear_in_features num_pos)
                 (take 4 <$> m))) ∧
  (Py.dict_get UniterPreTrainedModel.pos_linear_weight sd = None →
   UniterPreTrainedModel.reconcile sd = Return sd).
Proof.
  split.
  - intros m Hm. rewrite reconcile_cases, Hm. eexists. split; [done|].
    split_and!.
    + apply dict_get_set_eq.
    + by rewrite length_fmap.
    + intros i row Hrow. exists (take 4 row).
      rewrite list_lookup_fmap, Hrow. split_and!; [done|apply prefix_take|].
      rewrite length_take. lia.
    + intros k Hk. by apply dict_get_set_ne.
    + apply keys_dict_set_mem, dict_get_keys. by rewrite Hm.
    + intros num_pos Hnp Hm4. apply Forall_fmap.
      eapply Forall_impl; [exact Hm4|]. intros row Hrow. simpl.
      unfold UniterImageEmbeddings.pos_linear_in_features.
      destruct (Z.eqb_spec num_pos 6); [done|]. rewrite length_take. simpl in Hrow. lia.
  - intros Hm. by rewrite reconcile_cases, Hm.
Qed.


Lemma load_state_dict_cases model sd :
  load_state_dict model sd =
  match error_msgs (load sd "" model).2 with
  | [] => Return (load sd "" model)
  | msgs => Raise (RuntimeError msgs)
  end.
Proof.
  unfold load_state_dict. destruct (load sd "" model) as [m' r]. simpl.
  by destruct (error_msgs r).
Qed.

(** The accounting of a report without error messages, as sets. *)
Lemma accounts_sets sd target_keys r :
  accounts sd target_keys r → error_msgs r = [] →
  (list_to_set (missing_keys r) ∪ list_to_set (copied_keys r) : gset string)
    = list_to_set target_keys ∧
  (list_to_set (copied_keys r) : gset string)
    = list_to_set target_keys ∩ list_to_set (Py.keys sd) ∧
  (list_to_set (unexpected_keys r) ∪ list_to_set (copied_keys r) : gset string)
    ⊆ list_to_set (Py.keys sd) ∧
  (list_to_set (missing_keys r) : gset string)
    = list_to_set target_keys ∖ list_to_set (Py.keys sd).
Proof.
  intros (Ha & Hb & Hc & Hd) He. split_and!; last first.
  - apply set_eq. intros k.
    rewrite elem_of_difference, !elem_of_list_to_set. split.
    + intros Hk. destruct (Hb k Hk) as [? Hn]. split; [done|].
      intros [? Hs]%dict_get_keys. congruence.
    + intros [Hk Hs]. destruct (Ha k Hk) as [?|[Hcp|?]]; [done| |done].
      destruct (Hc k Hcp) as [_ ?%dict_get_keys]. done.
  - intros k. rewrite elem_of_union, !elem_of_list_to_set.
    intros [Hk|Hk]; [by apply Hd|].
    destruct (Hc k Hk) as [_ ?%dict_get_keys]. done.
  - apply set_eq. intros k.
    rewrite elem_of_intersection, !elem_of_list_to_set. split.
    + intros Hk. destruct (Hc k Hk) as [? ?%dict_get_keys]. done.
    + intros [Hk Hs]. destruct (Ha k Hk) as [Hm|[?|?]]; [|done..].
      apply Hb in Hm as [_ Hm]. apply dict_get_keys in Hs as [? Hs]. congruence.
  - apply set_eq. intros k. rewrite elem_of_union, !elem_of_list_to_set. split.
    + intros [Hk|Hk]; [by apply Hb|by apply Hc].
    + intros Hk. destruct (Ha k Hk) as [?|[?|?]]; [by left|by right|done].
Qed.

(** C4 (amended). Coverage accounting, after a load that returns. In
    [ModelX.load] the keys printed as in the model but not loaded, united
    with the keys copied, are all the target keys, and the keys printed as
    loaded but not in the model, united with the keys copied, are all the
    keys of the prefix-stripped checkpoint; the first printed set is the
    list of missing keys of [load_state_dict]. In [from_pretrained] the
    missing keys united with the copied ones are all the target keys under
    the start prefix; the unexpected keys united with the copied ones are
    keys of the normalised checkpoint; a key of that checkpoint under the
    prefix of a visited module, whose next component names neither a child
    nor a parameter of that module, is unexpected; and every key of that
    checkpoint under the start prefix is unexpected, copied, or passed over
    in silence. *)
Theorem coverage_accounting model sd :
  (∀ l, ModelX.load model sd = Return l →
     let copied : gset string :=
       list_to_set (copied_keys (ModelX.walk_report l)) in
     ModelX.in_model_not_in_loaded l ∪ copied
       = list_to_set (state_dict_keys "" model) ∧
     ModelX.in_loaded_not_in_model l ∪ copied
       = list_to_set (Py.keys (ModelX.strip_prefixes sd)) ∧
     ModelX.in_model_not_in_loaded l
       = list_to_set (missing_keys (ModelX.walk_report l))) ∧
  (∀ model' r,
     UniterPreTrainedModel.from_pretrained model sd = Return (model', r) →
     ∃ sd',
       UniterPreTrainedModel.normalized sd = Return sd' ∧
       (list_to_set (missing_keys r) ∪ list_to_set (copied_keys r)
          : gset string)
         = list_to_set
             (state_dict_keys (UniterPreTrainedModel.start_prefix model sd')
                              model) ∧
       (list_to_set (unexpected_keys r) ∪ list_to_set (copied_keys r)
          : gset string)
         ⊆ list_to_set (Py.keys sd') ∧
       (∀ key prefix m,
          key ∈ Py.keys sd' →
          (prefix, m)
            ∈ Walk.visited (UniterPreTrainedModel.start_prefix model sd')
                           model →
          Py.startswith key prefix = true →
          Walk.input_name prefix key ∉ (modules m).*1 →
          Walk.input_name prefix key ∉ (parameters m).*1 →
          key ∈ unexpected_keys r) ∧
       (∀ key,
          key ∈ Py.keys sd' →
          Py.startswith key (UniterPreTrainedModel.start_prefix model sd')
            = true →
          key ∈ unexpected_keys r ∨ key ∈ copied_keys r ∨
          Walk.passed_over (UniterPreTrainedModel.start_prefix model sd')
                           model key)).
Proof.
  split.
  - intros l. unfold ModelX.load. rewrite load_state_dict_cases.
    pose proof (load_accounts (ModelX.strip_prefixes sd) model "") as Hacc.
    destruct (load (ModelX.strip_prefixes sd) "" model) as [m' r].
    cbn [snd] in *. destruct (error_msgs r) eqn:He; [|done].
    intros [= <-]. cbn.
    destruct (accounts_sets _ _ _ Hacc He) as (_ & -> & _ & ->).
    split_and!; [| |done]; apply set_eq; intros k;
      rewrite elem_of_union, elem_of_difference, elem_of_intersection;
      (split; [intros [[??]|[??]]; done|]); intros Hk.
    + destruct (decide (k ∈ (list_to_set
                  (Py.keys (ModelX.strip_prefixes sd)) : gset string)));
        [by right|by left].
    + destruct (decide (k ∈ (list_to_set
                  (state_dict_keys "" model) : gset string)));
        [by right|by left].
  - intros model' r Hload.
    destruct (UniterPreTrainedModel.normalized sd) as [sd'|e] eqn:Hn.
    2:{ unfold UniterPreTrainedModel.from_pretrained in Hload.
        by rewrite Hn in Hload. }
    exists sd'. split; [done|].
    rewrite (from_pretrained_cases model sd sd' Hn) in Hload.
    destruct (error_msgs (UniterPreTrainedModel.walk model sd').2) eqn:He;
      [|done].
    injection Hload as Hload. unfold UniterPreTrainedModel.walk in *.
    rewrite Hload in He. cbn [snd] in He.
    pose proof (load_accounts sd' model
                  (UniterPreTrainedModel.start_prefix model sd')) as Hacc.
    rewrite Hload in Hacc. cbn [snd] in Hacc.
    destruct (accounts_sets _ _ _ Hacc He) as (H1 & _ & H3 & _).
    split_and!; [done|done| |].
    + intros key prefix m Hk Hv Hp Hm Hps.
      pose proof (load_unexpected_here sd' model _ key prefix m
                    Hk Hv Hp Hm Hps) as Hu.
      by rewrite Hload in Hu.
    + intros key Hk Hp.
      pose proof (load_complete sd' model
                    (UniterPreTrainedModel.start_prefix model sd') key) as Hc.
      rewrite Hload in Hc. by apply Hc.
Qed.

End loading.

(** ** Claims on the forward pass: the extended attention mask *)

(** C7 (amended). Extended attention mask: [forward] computes, from the
    attention mask alone and ahead of the embedding branch, the tensor
    [(1 - m) * -10000] of shape [[batch, 1, 1, sequence]]; the same tensor
    goes to the encoder whichever branch is taken, and a forward pass that
    returns has run the stack of layers with it; every layer of the stack
    adds it to its attention scores before the softmax, once the dot
    products are divided by the square root of the head size; and the sum
    broadcasts it over the head and query axes:
    [masked[b][h][i][j] = scores[b][h][i][j] / sqrt(d)
                          + (1 - m[b][j]) * -10000]. *)
Theorem extended_mask `{Backend} (self : BertU.t)
    (attention_mask : list (list Z)) :
  BertU.extended_attention_mask attention_mask
    = (λ r : list Z,
         [[ (λ x, Fmul (Fsub F_1 (of_long x)) F_neg10000) <$> r ]])
      <$> attention_mask ∧
  (∀ input_ids position_ids img_feat img_pos_feat gather_index
     output_all_encoded_layers txt_type_ids img_type_ids g,
     BertU.forward self input_ids position_ids img_feat img_pos_feat
       attention_mask gather_index output_all_encoded_layers
       txt_type_ids img_type_ids g
     = (embedding_output ←
          BertU.embedding_layer self input_ids position_ids img_feat
            img_pos_feat gather_index txt_type_ids img_type_ids;
        BertU.encode self embedding_output
          (BertU.extended_attention_mask attention_mask)
          output_all_encoded_layers) g) ∧
  (∀ embedding_output output_all_encoded_layers g out,
     BertU.encode self embedding_output
       (BertU.extended_attention_mask attention_mask)
       output_all_encoded_layers g = Some out →
     ∃ res g',
       UniterEncoder.layers (BertU.encoder self) embedding_output
         (BertU.extended_attention_mask attention_mask)
         output_all_encoded_layers g = Some (res, g')) ∧
  (∀ hidden_states output_all_encoded_layers g res,
     UniterEncoder.layers (BertU.encoder self) hidden_states
       (BertU.extended_attention_mask attention_mask)
       output_all_encoded_layers g = Some res →
     ∀ (n : nat) layer_module,
       BertU.encoder self !! n = Some layer_module →
       ∃ hn masked gn,
         Tensor.add4 Fadd
           (BertSelfAttention.scaled layer_module
              (raw_scores layer_module hn))
           (BertU.extended_attention_mask attention_mask) = Some masked ∧
         is_Some (attention_context layer_module masked hn gn)) ∧
  (∀ layer_module (scores masked : list (list (list (list F))))
     (b h i j : nat) mb sb sh si s x,
     Tensor.add4 Fadd (BertSelfAttention.scaled layer_module scores)
       (BertU.extended_attention_mask attention_mask) = Some masked →
     attention_mask !! b = Some mb → mb !! j = Some x →
     scores !! b = Some sb → sb !! h = Some sh → sh !! i = Some si →
     si !! j = Some s →
     ∃ kb kh ki,
       masked !! b = Some kb ∧ kb !! h = Some kh ∧ kh !! i = Some ki ∧
       ki !! j = Some (Fadd (Fdiv s (sqrt_head_size layer_module))
                            (Fmul (Fsub F_1 (of_long x)) F_neg10000))).
Proof.
  split_and!.
  - reflexivity.
  - reflexivity.
  - intros emb flag g out Hout.
    unfold BertU.encode, UniterEncoder.forward, mbind, M_bind in Hout.
    destruct (UniterEncoder.layers _ _ _ _ _) as [[res g']|]; [|done].
    eauto.
  - intros ???? Hrun n l Hl. by eapply layers_mask.
  - intros l scores masked b h i j mb sb sh si s x Hadd Hmb Hx Hsb Hsh Hsi Hs.
    destruct (scaled_lookup l scores b h i j sb sh si s Hsb Hsh Hsi Hs)
      as (sb' & sh' & si' & Hsb' & Hsh' & Hsi' & Hs').
    by eapply masked_scores_lookup.
Qed.

(** ** Examples: the claims at concrete inputs *)

Lemma gather_correctness_witness :
  ∃ O : list (list (list Z)),
    @BertU._compute_img_txt_embeddings Examples.Z_backend Examples.tiny
      [[1; 2; 0]; [2; 2; 1]] None
      [[[1; 2; 3]; [4; 5; 6]]; [[7; 8; 9]; [1; 1; 1]]]
      [[[1; 2; 3; 4]; [4; 5; 6; 7]]; [[7; 8; 9; 7]; [1; 1; 1; 1]]]
      (Some [[0; 1; 3; 4]; [0; 1; 2; 4]]) None None 0%nat
    = Some (O, 2%nat) ∧
    O !! 0%nat = Some [[111; 222]; [133; 244]; [302; 404]; [308; 410]].
Proof.
  destruct (@gather_correctness Examples.Z_backend Examples.tiny
              [[1; 2; 0]; [2; 2; 1]] None
              [[[1; 2; 3]; [4; 5; 6]]; [[7; 8; 9]; [1; 1; 1]]]
              [[[1; 2; 3; 4]; [4; 5; 6; 7]]; [[7; 8; 9; 7]; [1; 1; 1; 1]]]
              None None
              [[0; 1; 3; 4]; [0; 1; 2; 4]]
              [[[111; 222]; [133; 244]; [150; 260]];
               [[113; 224]; [133; 244]; [151; 262]]]
              [[[302; 404]; [308; 410]]; [[314; 416]; [302; 402]]]
              2%nat 3%nat 2%nat 0%nat 1%nat 2%nat)
    as (O & HO & Hlen & Hlook).
  - reflexivity.
  - reflexivity.
  - split; [reflexivity|]. repeat constructor.
  - split; [reflexivity|]. repeat constructor.
  - reflexivity.
  - repeat constructor; lia.
  - exists O. split; [exact HO|].
    destruct (Hlook 0%nat _ _ _ eq_refl eq_refl eq_refl)
      as (Ob & HOb & HlenOb & Hk).
    transitivity (Some Ob); [exact HOb|]. f_equal.
    apply list_eq. intros [|[|[|[|k]]]].
    + exact (Hk 0%nat 0 eq_refl).
    + exact (Hk 1%nat 1 eq_refl).
    + exact (Hk 2%nat 3 eq_refl).
    + exact (Hk 3%nat 4 eq_refl).
    + transitivity (@None (list Z)); [|reflexivity].
      apply lookup_ge_None_2. rewrite HlenOb. simpl. lia.
Defined.

Lemma padding_invariant_witness :
  ∃ features,
    preprocess_bert ["a b c"] 8 Examples.whitespace_tokenizer = Some features ∧
    Forall (padded 8) features.
Proof.
  destruct (padding_invariant Examples.whitespace_tokenizer ["a b c"] 8)
    as (Hbert & _ & Htotal & _).
  destruct Htotal as [[features Hf] _]; [lia|].
  exists features. split; [exact Hf|]. by apply Hbert.
Defined.

Lemma default_image_type_witness :
  @BertU.img_type_ids_or_default Examples.Z_backend
    [[[1; 2; 3]; [4; 5; 6]]; [[7; 8; 9]; [1; 1; 1]]] None
  = Some [[1; 1]; [1; 1]] ∧
  is_Some (@UniterTextEmbeddings.token_type_embeddings Examples.Z_backend
             (@BertU.embeddings Examples.Z_backend Examples.tiny) !! 1%nat).
Proof.
  destruct (@default_image_type Examples.Z_backend Examples.tiny
              [[[1; 2; 3]; [4; 5; 6]]; [[7; 8; 9]; [1; 1; 1]]]
              [[[1; 2; 3; 4]; [4; 5; 6; 7]]; [[7; 8; 9; 7]; [1; 1; 1; 1]]])
    as (Hids & _ & Hrow & _).
  - repeat constructor; discriminate.
  - split; [exact Hids|]. apply Hrow. vm_compute. lia.
Defined.

Lemma extended_mask_witness :
  ∃ kb kh ki : list _,
    [[[[2; -9997]; [3; -9996]]]] !! 0%nat = Some kb ∧
    kb !! 0%nat = Some kh ∧ kh !! 1%nat = Some ki ∧
    ki !! 1%nat = Some (8 `div` 2 + (1 - 0) * -10000).
Proof.
  destruct (@extended_mask Examples.Z_backend Examples.tiny [[1; 0]])
    as (_ & _ & _ & _ & Hpoint).
  exact (Hpoint () [[[[5; 6]; [7; 8]]]] [[[[2; -9997]; [3; -9996]]]]
           0%nat 0%nat 1%nat 1%nat [1; 0] [[[5; 6]; [7; 8]]]
           [[5; 6]; [7; 8]] [7; 8] 8 0
           eq_refl eq_refl eq_refl eq_refl eq_refl eq_refl eq_refl).
Defined.

(** C7, as stated, fails: the mask is not added to the raw attention
    scores. With every dot product equal to eight and a head size whose
    square root is two, the scores that reach the softmax are
    [8 / 2 + mask], not [8 + mask]. *)
Lemma extended_mask_counterexample :
  let hidden_states : list (list (list Z)) := [[[0; 0]; [0; 0]]] in
  let mask := @BertU.extended_attention_mask Cases.score_backend [[1; 0]] in
  let raw := @raw_scores Cases.score_backend () hidden_states in
  raw = [[[[8; 8]; [8; 8]]]] ∧
  mask = [[[[0; -10000]]]] ∧
  @BertSelfAttention.forward Cases.score_backend () hidden_states mask 0%nat
  = Some ([[[4; -9996]; [4; -9996]]], 0%nat) ∧
  @BertSelfAttention.forward Cases.score_backend () hidden_states mask 0%nat
  ≠ (masked ← @lift Cases.score_backend _
                (Tensor.add4 (@Fadd Cases.score_backend) raw mask);
     @attention_context Cases.score_backend () masked hidden_states) 0%nat.
Proof.
  split_and!; [reflexivity..|]. vm_compute. discriminate.
Qed.

(** The seven-column projection of a UNITER checkpoint is cut to its first
    four columns. *)
Lemma pos_linear_truncation_witness :
  ∃ sd',
    UniterPreTrainedModel.reconcile Examples.renamed_checkpoint = Return sd' ∧
    Py.dict_get UniterPreTrainedModel.pos_linear_weight sd'
    = Some (Mat [[1; 2; 3; 4]; [11; 12; 13; 14]]).
Proof.
  destruct (pos_linear_truncation Examples.renamed_checkpoint) as [Hcut _].
  destruct (Hcut [[1; 2; 3; 4; 5; 6; 7]; [11; 12; 13; 14; 15; 16; 17]]
              eq_refl) as (sd' & Hrec & Hget & _).
  exists sd'. split; [exact Hrec|exact Hget].
Defined.

(** C2, as stated, fails: a word embedding wider than the target's is left
    as wide as it was. *)
Lemma truncation_counterexample :
  ¬ (∀ (model : Module Z) (sd : list (string * tensor Z)) key m tgt,
       Py.dict_get key sd = Some (Mat m) →
       Py.dict_get key (state_dict "" model) = Some (Mat tgt) →
       (width tgt < width m)%nat →
       ∃ sd' m',
         UniterPreTrainedModel.normalized sd = Return sd' ∧
         Py.dict_get key sd' = Some (Mat m') ∧
         width m' = width tgt).
Proof.
  intros Hclaim.
  destruct (Hclaim Examples.word_target Examples.word_checkpoint
              "embeddings.word_embeddings.weight"
              [[1; 2; 3]; [4; 5; 6]] [[0; 0]; [0; 0]])
    as (sd' & m' & Hn & Hget & Hw).
  - reflexivity.
  - reflexivity.
  - simpl. lia.
  - vm_compute in Hn. injection Hn as <-.
    vm_compute in Hget. injection Hget as <-.
    vm_compute in Hw. discriminate Hw.
Qed.

(** A load with nothing to copy and one key of no use returns all the
    same. *)
Lemma load_outcome_witness :
  ∃ model' r,
    UniterPreTrainedModel.from_pretrained Examples.leaf
      Examples.legacy_checkpoint = Return (model', r) ∧
    missing_keys r = ["w"] ∧ unexpected_keys r = ["x.gamma"].
Proof.
  destruct (load_outcome Examples.leaf Examples.legacy_checkpoint
              [("x.gamma", Vec [1])] eq_refl) as ([_ Hload] & _).
  eexists _, _. split; [apply Hload; reflexivity|]. split; reflexivity.
Defined.

(** C3, as stated, fails: a tensor of rank one under the key of the
    position projection makes the load raise before the walk, with no
    error message. *)
Lemma load_outcome_counterexample :
  UniterPreTrainedModel.from_pretrained Examples.leaf
    Examples.rank1_checkpoint = Raise IndexError ∧
  ¬ ∃ sd',
      UniterPreTrainedModel.normalized Examples.rank1_checkpoint
        = Return sd' ∧
      error_msgs (UniterPreTrainedModel.walk Examples.leaf sd').2 ≠ [].
Proof.
  split; [reflexivity|]. intros (sd' & Hn & _). discriminate Hn.
Qed.

Lemma coverage_accounting_witness :
  (∃ l,
     ModelX.load Examples.leaf Examples.wrapped_checkpoint = Return l ∧
     ModelX.in_model_not_in_loaded l
       ∪ list_to_set (copied_keys (ModelX.walk_report l))
     = list_to_set (state_dict_keys "" Examples.leaf) ∧
     copied_keys (ModelX.walk_report l) = ["w"]) ∧
  UniterPreTrainedModel.from_pretrained Examples.leaf Cases.extra_checkpoint
    = Return (Cases.trained_leaf, Cases.extra_report) ∧
  "v" ∈ unexpected_keys Cases.extra_report ∧
  ("w" ∈ unexpected_keys Cases.extra_report ∨
   "w" ∈ copied_keys Cases.extra_report ∨
   Walk.passed_over "" Examples.leaf "w").
Proof.
  destruct (coverage_accounting Examples.leaf Examples.wrapped_checkpoint)
    as [Hload _].
  destruct (coverage_accounting Examples.leaf Cases.extra_checkpoint)
    as [_ Hfrom].
  destruct (Hfrom Cases.trained_leaf Cases.extra_report eq_refl)
    as (sd' & Hn & _ & _ & Hhere & Hall).
  injection Hn as <-.
  split; [|split_and!].
  - eexists. split; [reflexivity|].
    split; [|reflexivity].
    exact (proj1 (Hload _ eq_refl)).
  - reflexivity.
  - apply (Hhere "v" "" Examples.leaf).
    + apply list_elem_of_lookup. by exists 1%nat.
    + by left.
    + reflexivity.
    + by apply not_elem_of_nil.
    + intros H%list_elem_of_singleton. discriminate H.
  - apply (Hall "w").
    + apply list_elem_of_lookup. by exists 0%nat.
    + reflexivity.
Defined.

(** C4, as stated, fails: with the start prefix [bert.] the key [cls.b] of
    the checkpoint is neither copied nor reported. *)
Lemma coverage_counterexample :
  ∃ model' r,
    UniterPreTrainedModel.from_pretrained Examples.leaf
      Examples.bert_checkpoint = Return (model', r) ∧
    (list_to_set (unexpected_keys r) ∪ list_to_set (copied_keys r)
       : gset string)
    ≠ list_to_set (Py.keys Examples.bert_checkpoint).
Proof.
  eexists _, _. split; [reflexivity|]. intros Heq.
  assert (Hin : "cls.b" ∈ (list_to_set (Py.keys Examples.bert_checkpoint)
                             : gset string)).
  { apply elem_of_list_to_set, list_elem_of_lookup. by exists 1%nat. }
  rewrite <- Heq in Hin.
  apply elem_of_union in Hin as [Hin|Hin];
    apply elem_of_list_to_set in Hin; vm_compute in Hin.
  - by apply elem_of_nil in Hin.
  - apply list_elem_of_singleton in Hin. discriminate Hin.
Qed.

(** A key passed over in silence: [head.w] lies under the start prefix and
    under a child that is [None], and is neither copied nor reported. *)
Lemma headless_passed_over :
  ∃ model' r,
    UniterPreTrainedModel.from_pretrained Cases.headless
      Cases.head_checkpoint = Return (model', r) ∧
    UniterPreTrainedModel.start_prefix Cases.headless Cases.head_checkpoint
      = EmptyString ∧
    unexpected_keys r = [] ∧ copied_keys r = ["w"] ∧
    Walk.passed_over EmptyString Cases.headless "head.w".
Proof.
  eexists _, _. split_and!; [reflexivity..|].
  right. exists EmptyString, Cases.headless, "head", None.
  split_and!.
  - by left.
  - by apply list_elem_of_singleton.
  - by right.
Qed.

(* ===================================================================== *)
(** * Part III: further properties of the code                            *)
(* ===================================================================== *)

(** ** The tree walk, parameter by parameter *)

Section walk_state.
Context {A : Type}.
Implicit Types (sd : list (string * tensor A)) (m : Module A) (r : report).

Lemma filter_app_fst (f : string * tensor A → bool) l1 l2 :
  (List.filter f (l1 ++ l2)).*1
  = (List.filter f l1).*1 ++ (List.filter f l2).*1.
Proof. by rewrite List.filter_app, fmap_app. Qed.

Lemma fields_ok_app sd t1 t2 r1 r2 :
  Walk.fields_ok sd t1 r1 → Walk.fields_ok sd t2 r2 →
  Walk.fields_ok sd (t1 ++ t2) (report_app r1 r2).
Proof.
  intros (H1 & H2 & H3) (H1' & H2' & H3'). unfold Walk.fields_ok. simpl.
  rewrite !filter_app_fst, fmap_app. by rewrite H1, H2, H3, H1', H2', H3'.
Qed.

Lemma fields_ok_nil sd : Walk.fields_ok sd [] report_nil.
Proof. done. Qed.

Lemma load_parameters_spec sd prefix ps :
  (load_parameters sd prefix ps).1
    = (λ kv : string * tensor A,
         (kv.1, Walk.loaded_param sd (prefix +:+ kv.1) kv.2)) <$> ps ∧
  Walk.fields_ok sd
    ((λ kv : string * tensor A, (prefix +:+ kv.1, kv.2)) <$> ps)
    (load_parameters sd prefix ps).2 ∧
  unexpected_keys (load_parameters sd prefix ps).2 = [].
Proof.
  induction ps as [|[name param] ps (IH1 & IH2 & IH3)]; [done|].
  cbn [load_parameters]. destruct (load_parameters sd prefix ps) as [rest r].
  cbn [fst snd] in *. rewrite !fmap_cons. cbn [fst snd].
  unfold Walk.loaded_param at 1.
  destruct (Py.dict_get (prefix +:+ name) sd) as [input|] eqn:Hget.
  - case_decide as Hshape; cbn [fst snd].
    + split_and!; [by rewrite IH1| |by simpl].
      apply (fields_ok_app sd [(prefix +:+ name, param)]); [|done].
      unfold Walk.fields_ok, Walk.is_missing, Walk.is_copied,
        Walk.is_mismatch. simpl.
      rewrite Hget, (bool_decide_eq_true_2 _ Hshape).
      by rewrite bool_decide_eq_false_2.
    + split_and!; [by rewrite IH1| |by simpl].
      apply (fields_ok_app sd [(prefix +:+ name, param)]); [|done].
      unfold Walk.fields_ok, Walk.is_missing, Walk.is_copied,
        Walk.is_mismatch. simpl.
      rewrite Hget, (bool_decide_eq_false_2 _ Hshape).
      by rewrite bool_decide_eq_false_2.
  - cbn [fst snd]. split_and!; [by rewrite IH1| |by simpl].
    apply (fields_ok_app sd [(prefix +:+ name, param)]); [|done].
    unfold Walk.fields_ok, Walk.is_missing, Walk.is_copied,
      Walk.is_mismatch. simpl.
    rewrite Hget. by rewrite bool_decide_eq_true_2.
Qed.

Lemma state_dict_unfold prefix ps (cs : list (string * option (Module A))) :
  state_dict prefix (Mod ps cs) =
  ((λ kv : string * tensor A, (prefix +:+ kv.1, kv.2)) <$> ps) ++
  concat ((λ nc : string * option (Module A),
             match nc.2 with
             | Some child => state_dict (prefix +:+ nc.1 +:+ ".") child
             | None => []
             end) <$> cs).
Proof.
  cbn [state_dict]. f_equal.
  induction cs as [|nc cs IH]; [done|]. simpl. by rewrite IH.
Qed.

(** The keys of the state dict are the keys the walk visits. *)
Lemma state_dict_keys_fst m :
  ∀ prefix, state_dict_keys prefix m = (state_dict prefix m).*1.
Proof.
  induction m as [ps cs IH] using Module_ind'. intros prefix.
  rewrite state_dict_unfold. cbn [state_dict_keys].
  rewrite fmap_app. f_equal.
  - by rewrite <- !list_fmap_compose.
  - induction IH as [|[name [c|]] cs Hc _ IHcs]; [done| |]; simpl.
    + rewrite fmap_app. f_equal; [by apply Hc|done].
    + done.
Qed.

Lemma fields_ok_foldl sd t0 r0 (ts : list (list (string * tensor A)))
    (rs : list report) :
  Walk.fields_ok sd t0 r0 → Forall2 (Walk.fields_ok sd) ts rs →
  Walk.fields_ok sd (t0 ++ concat ts) (foldl report_app r0 rs).
Proof.
  intros H0 Hs. revert t0 r0 H0.
  induction Hs as [|t r ts rs Ht _ IH]; intros t0 r0 H0; simpl.
  - by rewrite app_nil_r.
  - rewrite app_assoc. apply IH. by apply fields_ok_app.
Qed.

Lemma fields_ok_here sd prefix m :
  Walk.fields_ok sd
    ((λ kv : string * tensor A, (prefix +:+ kv.1, kv.2)) <$> parameters m)
    (_load_from_state_dict sd prefix m).2.
Proof.
  unfold _load_from_state_dict.
  destruct (load_parameters_spec sd prefix (parameters m)) as (_ & Hf & _).
  destruct (load_parameters sd prefix (parameters m)) as [ps r].
  cbn [snd] in *. destruct Hf as (H1 & H2 & H3).
  unfold Walk.fields_ok. simpl. by rewrite !app_nil_r.
Qed.

(** The lists of the whole walk. *)
Lemma load_fields sd m :
  ∀ prefix, Walk.fields_ok sd (state_dict prefix m) (load sd prefix m).2.
Proof.
  induction m as [ps cs IH] using Module_ind'. intros prefix.
  rewrite load_unfold, state_dict_unfold.
  pose proof (fields_ok_here sd prefix (Mod ps cs)) as Hhere.
  destruct (_load_from_state_dict sd prefix (Mod ps cs)) as [ps' r].
  cbn [snd parameters] in *. cbv zeta.
  apply fields_ok_foldl; [done|].
  rewrite <- list_fmap_compose. apply Forall2_fmap.
  apply Forall_Forall2_diag.
  eapply Forall_impl; [exact IH|]. intros [name [c|]] Hc; simpl in *.
  - specialize (Hc c eq_refl (prefix +:+ name +:+ ".")).
    by destruct (load sd (prefix +:+ name +:+ ".") c).
  - apply fields_ok_nil.
Qed.

(** The state dict of the walked model. *)
Lemma load_state sd m :
  ∀ prefix,
    state_dict prefix (load sd prefix m).1
    = (λ kv : string * tensor A, (kv.1, Walk.loaded_param sd kv.1 kv.2))
      <$> state_dict prefix m.
Proof.
  induction m as [ps cs IH] using Module_ind'. intros prefix.
  rewrite load_unfold. unfold _load_from_state_dict.
  destruct (load_parameters_spec sd prefix ps) as (Hps & _ & _).
  cbn [parameters]. destruct (load_parameters sd prefix ps) as [ps' r].
  cbn [fst snd] in *. subst ps'. rewrite !state_dict_unfold.
  rewrite fmap_app. f_equal.
  - by rewrite <- !list_fmap_compose.
  - rewrite <- !list_fmap_compose.
    induction IH as [|[name [c|]] cs Hc _ IHcs]; [done| |]; simpl.
    + rewrite fmap_app. f_equal; [|done].
      specialize (Hc c eq_refl (prefix +:+ name +:+ ".")).
      by destruct (load sd (prefix +:+ name +:+ ".") c).
    + done.
Qed.

Lemma filter_nil_iff {X} (f : X → bool) (l : list X) :
  List.filter f l = [] ↔ Forall (λ x, f x = false) l.
Proof.
  induction l as [|x l IH]; simpl; [by split|].
  destruct (f x) eqn:Hx.
  - split; [done|]. intros H. apply Forall_cons in H as [? _]. congruence.
  - rewrite IH. split; [by constructor|]. by intros [_ ?]%Forall_cons.
Qed.

Lemma filter_true_ext {X} (f : X → bool) (l : list X) :
  Forall (λ x, f x = true) l → List.filter f l = l.
Proof.
  induction 1 as [|x l Hx _ IH]; simpl; [done|]. by rewrite Hx, IH.
Qed.

Lemma no_errors_no_mismatch sd target r :
  Walk.fields_ok sd target r → error_msgs r = [] →
  Forall (λ kv, Walk.is_mismatch sd kv = false) target.
Proof.
  intros (_ & _ & He) Hnil. rewrite He in Hnil.
  apply fmap_nil_inv, fmap_nil_inv in Hnil. by apply filter_nil_iff.
Qed.

Lemma loaded_param_no_mismatch sd kv :
  Walk.is_mismatch sd kv = false →
  Walk.loaded_param sd kv.1 kv.2 = default kv.2 (Py.dict_get kv.1 sd).
Proof.
  unfold Walk.is_mismatch, Walk.loaded_param.
  destruct (Py.dict_get kv.1 sd) as [t|]; [|done]. simpl.
  case_decide as Hs; [done|]. by rewrite bool_decide_eq_false_2.
Qed.

(** After a walk without error messages each parameter holds the
    checkpoint's tensor under its key, or its own when there is none. *)
Lemma load_populates sd prefix m :
  error_msgs (load sd prefix m).2 = [] →
  state_dict prefix (load sd prefix m).1
  = (λ kv : string * tensor A, (kv.1, default kv.2 (Py.dict_get kv.1 sd)))
    <$> state_dict prefix m.
Proof.
  intros He. rewrite load_state. apply Forall_fmap_ext.
  eapply Forall_impl;
    [exact (no_errors_no_mismatch _ _ _ (load_fields sd m prefix) He)|].
  intros kv Hkv. simpl. f_equal. by apply loaded_param_no_mismatch.
Qed.

Lemma load_parameters_names sd prefix ps :
  (load_parameters sd prefix ps).1.*1 = ps.*1.
Proof.
  destruct (load_parameters_spec sd prefix ps) as (-> & _).
  by rewrite <- list_fmap_compose.
Qed.

Lemma load_parameters_idem sd prefix ps :
  load_parameters sd prefix (load_parameters sd prefix ps).1
  = load_parameters sd prefix ps.
Proof.
  induction ps as [|[name param] ps IH]; [done|].
  cbn [load_parameters].
  destruct (load_parameters sd prefix ps) as [rest r] eqn:Hps.
  cbn [fst] in IH.
  destruct (Py.dict_get (prefix +:+ name) sd) as [input|] eqn:Hget.
  - case_decide as Hs; cbn [fst load_parameters]; rewrite IH, Hget.
    + by rewrite decide_True.
    + by rewrite decide_False.
  - cbn [fst load_parameters]. by rewrite IH, Hget.
Qed.

(** The walk keeps the names of parameters and children. *)
Lemma load_names sd prefix m :
  (parameters (load sd prefix m).1).*1 = (parameters m).*1 ∧
  (modules (load sd prefix m).1).*1 = (modules m).*1.
Proof.
  destruct m as [ps cs]. rewrite load_unfold. unfold _load_from_state_dict.
  cbn [parameters]. pose proof (load_parameters_names sd prefix ps) as Hn.
  destruct (load_parameters sd prefix ps) as [ps' r]. cbn [fst snd] in *.
  split; [done|]. cbn [modules].
  rewrite <- !list_fmap_compose. apply Forall_fmap_ext, Forall_forall.
  intros [name [c|]] _; simpl; [|done].
  by destruct (load sd (prefix +:+ name +:+ ".") c).
Qed.

Lemma unexpected_here_names sd prefix m m' :
  (parameters m').*1 = (parameters m).*1 →
  (modules m').*1 = (modules m).*1 →
  unexpected_here sd prefix m' = unexpected_here sd prefix m.
Proof. intros Hp Hm. unfold unexpected_here. by rewrite Hp, Hm. Qed.

Lemma hasattr_load sd prefix m name :
  hasattr (load sd prefix m).1 name = hasattr m name.
Proof.
  unfold hasattr. destruct (load_names sd prefix m) as [-> ->]. done.
Qed.

(** Walking the walked model again changes nothing. *)
Lemma load_twice sd m :
  ∀ prefix, load sd prefix (load sd prefix m).1 = load sd prefix m.
Proof.
  induction m as [ps cs IH] using Module_ind'. intros prefix.
  pose proof (load_names sd prefix (Mod ps cs)) as [Hpn Hmn].
  rewrite (load_unfold sd prefix ps cs) in *.
  unfold _load_from_state_dict in *. cbn [parameters modules] in *.
  pose proof (load_parameters_idem sd prefix ps) as Hidem.
  destruct (load_parameters sd prefix ps) as [ps' r] eqn:Hps.
  cbn [fst snd] in *. cbv zeta in *.
  rewrite load_unfold. unfold _load_from_state_dict. cbn [parameters].
  rewrite Hidem.
  rewrite (unexpected_here_names sd prefix _ (Mod ps cs)) by done.
  cbv zeta. set (walk_child := λ nc : string * option (Module A), _).
  assert (Hw : walk_child <$> (walk_child <$> cs).*1 = walk_child <$> cs).
  { rewrite <- !list_fmap_compose.
    apply Forall_fmap_ext. eapply Forall_impl; [exact IH|].
    intros [name [c|]] Hc; subst walk_child; simpl; [|done].
    specialize (Hc c eq_refl (prefix +:+ name +:+ ".")).
    destruct (load sd (prefix +:+ name +:+ ".") c) as [c' rc]. simpl in *.
    by rewrite Hc. }
  by rewrite Hw.
Qed.

Lemma elem_of_concat_2 {X} (x : X) (l : list X) (ls : list (list X)) :
  x ∈ l → l ∈ ls → x ∈ concat ls.
Proof.
  intros Hx Hl. apply list_elem_of_In, in_concat. exists l.
  split; by apply list_elem_of_In.
Qed.

Lemma load_parameters_absent sd prefix ps :
  Forall (λ kv, Py.dict_get (prefix +:+ kv.1) sd = None) ps →
  (load_parameters sd prefix ps).1 = ps.
Proof.
  induction 1 as [|[name param] ps Hk _ IH]; [done|].
  cbn [load_parameters]. destruct (load_parameters sd prefix ps).
  simpl in *. by rewrite Hk, IH.
Qed.

(** A walk that finds none of the target's keys returns the target. *)
Lemma load_absent sd m :
  ∀ prefix,
    (∀ k, k ∈ state_dict_keys prefix m → Py.dict_get k sd = None) →
    (load sd prefix m).1 = m.
Proof.
  induction m as [ps cs IH] using Module_ind'. intros prefix Habs.
  rewrite load_unfold. unfold _load_from_state_dict. cbn [parameters].
  rewrite state_dict_keys_unfold in Habs.
  assert (Hps : (load_parameters sd prefix ps).1 = ps).
  { apply load_parameters_absent, Forall_forall. intros [name param] Hin.
    apply Habs, elem_of_app. left. simpl.
    apply list_elem_of_fmap. exists name. split; [done|].
    apply list_elem_of_fmap. by exists (name, param). }
  destruct (load_parameters sd prefix ps) as [ps' r]. cbn [fst snd] in *.
  subst ps'. f_equal. rewrite <- list_fmap_compose.
  rewrite <- (list_fmap_id cs) at 2. apply Forall_fmap_ext.
  apply Forall_forall. intros [name [c|]] Hin; simpl; [|done].
  rewrite Forall_forall in IH.
  specialize (IH _ Hin c eq_refl (prefix +:+ name +:+ ".")).
  destruct (load sd (prefix +:+ name +:+ ".") c) as [c' rc] eqn:Hl.
  simpl in *. rewrite IH; [done|].
  intros k Hk. apply Habs, elem_of_app. right.
  eapply elem_of_concat_2; [exact Hk|].
  apply list_elem_of_fmap. by exists (name, Some c).
Qed.
End walk_state.

(** ** More on dictionaries and the renaming loops *)

Section renaming.
Context {V : Type}.
Implicit Types d : list (string * V).

Lemma dict_get_del_ne k k' d :
  k' ≠ k → Py.dict_get k' (Py.dict_del k d) = Py.dict_get k' d.
Proof.
  intros Hne. induction d as [|[k0 v0] d IH]; simpl; [done|].
  case_decide as Hk; simpl.
  - subst k0. by rewrite decide_False.
  - case_decide; [done|apply IH].
Qed.

Lemma dict_get_absent k d : k ∉ Py.keys d → Py.dict_get k d = None.
Proof.
  intros Hk. destruct (Py.dict_get k d) as [v|] eqn:Hget; [|done].
  exfalso. apply Hk, dict_get_keys. eauto.
Qed.

Lemma dict_get_del_eq k d :
  NoDup (Py.keys d) → Py.dict_get k (Py.dict_del k d) = None.
Proof.
  unfold Py.keys. induction d as [|[k0 v0] d IH]; simpl; [done|].
  intros [Hk0 Hnd]%NoDup_cons. case_decide as Hk; simpl.
  - subst k0. by apply dict_get_absent.
  - rewrite decide_False by done. by apply IH.
Qed.

Lemma keys_dict_set_sub k v d k' :
  k' ∈ Py.keys (Py.dict_set k v d) → k' = k ∨ k' ∈ Py.keys d.
Proof.
  intros [x Hx]%dict_get_keys.
  destruct (decide (k' = k)) as [->|Hne]; [by left|right].
  rewrite dict_get_set_ne in Hx by done. apply dict_get_keys. eauto.
Qed.

Lemma keys_dict_del_sub k d k' :
  k' ∈ Py.keys (Py.dict_del k d) → k' ∈ Py.keys d.
Proof.
  unfold Py.keys. induction d as [|[k0 v0] d IH]; simpl; [done|].
  case_decide; simpl; rewrite ?elem_of_cons; [by right|].
  intros [->|?]; [by left|right; auto].
Qed.

Lemma NoDup_keys_del k d : NoDup (Py.keys d) → NoDup (Py.keys (Py.dict_del k d)).
Proof.
  unfold Py.keys. induction d as [|[k0 v0] d IH]; simpl; [done|].
  intros [Hk0 Hnd]%NoDup_cons. case_decide; simpl; [done|].
  apply NoDup_cons. split; [|by apply IH].
  intros Hin. by apply Hk0, (keys_dict_del_sub k).
Qed.

Lemma NoDup_keys_set k v d :
  NoDup (Py.keys d) → NoDup (Py.keys (Py.dict_set k v d)).
Proof.
  unfold Py.keys. induction d as [|[k0 v0] d IH]; simpl.
  - intros _. apply NoDup_singleton.
  - intros [Hk0 Hnd]%NoDup_cons. case_decide as Hk; simpl.
    + subst k0. by apply NoDup_cons.
    + apply NoDup_cons. split; [|by apply IH].
      intros [->|Hin]%keys_dict_set_sub; done.
Qed.

(** The second loop on pairs of distinct old and distinct new names, none
    of the new names a key yet: every tensor moves from its old to its new
    key, the old keys are gone, and no other entry changes. *)
Lemma rename_keys_lookup (pairs : list (string * string)) d :
  NoDup (Py.keys d) → NoDup pairs.*1 → NoDup pairs.*2 →
  pairs.*1 ⊆ Py.keys d →
  (∀ n, n ∈ pairs.*2 → n ∉ Py.keys d) →
  ∃ d',
    UniterPreTrainedModel.rename_keys pairs d = Return d' ∧
    (∀ old new, (old, new) ∈ pairs →
       Py.dict_get new d' = Py.dict_get old d ∧ Py.dict_get old d' = None) ∧
    (∀ k, k ∉ pairs.*1 → k ∉ pairs.*2 → Py.dict_get k d' = Py.dict_get k d).
Proof.
  revert d.
  induction pairs as [|[old new] pairs IH]; intros d Hd Ho Hn Hsub Hfresh.
  - exists d. split_and!; [done| |done]. by intros ?? ?%elem_of_nil.
  - simpl in *. apply NoDup_cons in Ho as [Hold Ho].
    apply NoDup_cons in Hn as [Hnew Hn].
    assert (Hin : old ∈ Py.keys d) by (apply Hsub; by left).
    assert (Hnin : new ∉ Py.keys d) by (apply Hfresh; by left).
    assert (Hne : old ≠ new) by (by intros ->).
    apply dict_get_keys in Hin as [v Hv].
    unfold Py.dict_pop. rewrite Hv.
    destruct (IH (Py.dict_set new v (Py.dict_del old d)))
      as (d' & Hd' & Hren & Hkeep); [|done|done| | |].
    + by apply NoDup_keys_set, NoDup_keys_del.
    + intros k Hk. apply keys_dict_set, keys_dict_del.
      * apply Hsub. by right.
      * by intros ->.
    + intros n Hnn [->|Hk]%keys_dict_set_sub; [done|].
      apply keys_dict_del_sub in Hk. apply (Hfresh n); [by right|done].
    + exists d'. split_and!; [done| |].
      * intros o n [[= -> ->]|Hon]%elem_of_cons.
        -- split.
           ++ rewrite Hkeep; [by rewrite dict_get_set_eq| |done].
              intros Hno. apply Hnin, Hsub. by right.
           ++ rewrite Hkeep; [|done|].
              ** rewrite dict_get_set_ne by done. by apply dict_get_del_eq.
              ** intros Hoo. apply (Hfresh old); [by right|].
                 apply dict_get_keys. eauto.
        -- destruct (Hren o n Hon) as [Hget Hgone]. split; [|done].
           rewrite Hget.
           assert (Hoin : o ∈ pairs.*1).
           { apply list_elem_of_fmap. by exists (o, n). }
           rewrite dict_get_set_ne.
           ++ apply dict_get_del_ne. by intros ->.
           ++ intros ->. apply Hnin, Hsub. by right.
      * intros k Hk1 Hk2. apply not_elem_of_cons in Hk1 as [? ?].
        apply not_elem_of_cons in Hk2 as [? ?].
        rewrite Hkeep by done. rewrite dict_get_set_ne by done.
        by apply dict_get_del_ne.
Qed.

(** A loop of assignments [d[f(key)] = value]: the last one to a key
    stays. *)
Lemma dict_update_lookup (f : string → string)
    (acc items : list (string * V)) (k : string) :
  Py.dict_get k (foldl (λ d kv, Py.dict_set (f kv.1) kv.2 d) acc items)
  = match last (List.filter (λ kv, bool_decide (f kv.1 = k)) items) with
    | Some kv => Some kv.2
    | None => Py.dict_get k acc
    end.
Proof.
  revert acc. induction items as [|[k0 v] items IH]; intros acc; [done|].
  cbn [foldl List.filter]. rewrite IH. cbn [fst snd].
  case_bool_decide as Hk.
  - rewrite last_cons. subst k.
    destruct (last _) as [kv|]; [done|]. by rewrite dict_get_set_eq.
  - destruct (last _) as [kv|]; [done|]. by rewrite dict_get_set_ne.
Qed.
(** In a dictionary the last entry of a key is its only one. *)
Lemma last_filter_key d (k : string) :
  NoDup (Py.keys d) →
  snd <$> last (List.filter (λ kv, bool_decide (kv.1 = k)) d)
  = Py.dict_get k d.
Proof.
  unfold Py.keys. induction d as [|[k0 v0] d IH]; [done|].
  simpl. intros [Hk0 Hnd]%NoDup_cons. case_decide as Hk.
  - subst k0. rewrite bool_decide_eq_true_2 by done.
    replace (List.filter _ d) with ([] : list (string * V)); [done|].
    symmetry. apply filter_nil_iff, Forall_forall. intros [k' v'] Hin.
    apply bool_decide_eq_false_2. simpl. intros ->. apply Hk0.
    apply list_elem_of_fmap. by exists (k, v').
  - rewrite bool_decide_eq_false_2 by done. by apply IH.
Qed.
End renaming.

(** The pairs of the first loop: the keys with a non-empty candidate, each
    with its candidate. *)
Lemma elem_of_renames old new ks :
  (old, new) ∈ UniterPreTrainedModel.renames ks ↔
  old ∈ ks ∧ Py.truthy (UniterPreTrainedModel.rename_candidate old) = true ∧
  new = renamed_key old.
Proof.
  unfold renamed_key. induction ks as [|k ks IH]; simpl.
  - split; [by intros ?%elem_of_nil|by intros [?%elem_of_nil _]].
  - destruct (Py.truthy (UniterPreTrainedModel.rename_candidate k)) eqn:Hk.
    + rewrite !elem_of_cons, IH. split.
      * intros [[= -> ->]|(? & Ht & ?)].
        -- rewrite Hk. auto.
        -- rewrite Ht in *. auto.
      * intros ([->|?] & Ht & ->).
        -- left. by rewrite Hk.
        -- right. rewrite Ht. auto.
    + rewrite elem_of_cons, IH. split.
      * intros (? & Ht & ?). auto.
      * intros ([->|?] & Ht & ?); [congruence|auto].
Qed.

Lemma renamed_key_other key :
  Py.truthy (UniterPreTrainedModel.rename_candidate key) = false →
  renamed_key key = key.
Proof. unfold renamed_key. by intros ->. Qed.

(** X1. Key renaming of [from_pretrained] keeps the tensors: for a
    checkpoint with distinct keys whose renamed keys are distinct from each
    other and new to the checkpoint, the two renaming loops return, every
    tensor of the checkpoint is found under its renamed key afterwards, and
    the renamed checkpoint holds no other key. *)
Theorem rename_keeps_tensors {V} (sd : list (string * V)) :
  let pairs := UniterPreTrainedModel.renames (Py.keys sd) in
  NoDup (Py.keys sd) → NoDup pairs.*2 →
  (∀ n, n ∈ pairs.*2 → n ∉ Py.keys sd) →
  ∃ sd',
    UniterPreTrainedModel.rename_keys pairs sd = Return sd' ∧
    (∀ k v, Py.dict_get k sd = Some v →
            Py.dict_get (renamed_key k) sd' = Some v) ∧
    (∀ k', is_Some (Py.dict_get k' sd') →
           ∃ k, k ∈ Py.keys sd ∧ k' = renamed_key k).
Proof.
  intros pairs Hnd Hnew Hfresh.
  assert (Hsub : pairs.*1 `sublist_of` Py.keys sd) by apply renames_sublist.
  destruct (rename_keys_lookup pairs sd) as (sd' & Hret & Hren & Hkeep);
    [done|eapply sublist_NoDup; [exact Hnd|exact Hsub]|done
    |intros k Hk; eapply elem_of_sublist; [exact Hk|exact Hsub]|done|].
  exists sd'. split_and!; [done| |].
  - intros k v Hget.
    assert (Hk : k ∈ Py.keys sd) by (apply dict_get_keys; eauto).
    destruct (Py.truthy (UniterPreTrainedModel.rename_candidate k)) eqn:Ht.
    + assert (Hin : (k, renamed_key k) ∈ pairs) by by apply elem_of_renames.
      by destruct (Hren k (renamed_key k) Hin) as [-> _].
    + rewrite renamed_key_other by done. rewrite Hkeep; [done| |].
      * intros ((o & n) & -> & Hon)%list_elem_of_fmap.
        apply elem_of_renames in Hon as (_ & Ht' & _). simpl in *. congruence.
      * intros Hk2. by apply (Hfresh k).
  - intros k' Hsome.
    destruct (decide (k' ∈ pairs.*2)) as [Hin|Hnin].
    + apply list_elem_of_fmap in Hin as ((o & n) & -> & Hon).
      apply elem_of_renames in Hon as (? & _ & ?). eauto.
    + destruct (decide (k' ∈ pairs.*1)) as [Hin|Hnin1].
      * apply list_elem_of_fmap in Hin as ((o & n) & -> & Hon).
        destruct (Hren o n Hon) as [_ Hgone]. simpl in *.
        rewrite Hgone in Hsome. by destruct Hsome.
      * rewrite Hkeep in Hsome by done. apply dict_get_keys in Hsome.
        exists k'. split; [done|]. symmetry. apply renamed_key_other.
        destruct (Py.truthy (UniterPreTrainedModel.rename_candidate k'))
          eqn:Ht; [|done].
        exfalso. apply Hnin1. apply list_elem_of_fmap.
        exists (k', renamed_key k'). split; [done|].
        by apply elem_of_renames.
Qed.

(** X2. Prefix stripping in [ModelX.load]: in [new_state_dict] a key holds
    the tensor of the last entry of the checkpoint whose stripped key it is,
    and is absent when there is none; so of two checkpoint keys that differ
    only in a wrapper prefix the later one silently wins. *)
Theorem strip_prefixes_lookup {V} (state_dict : list (string * V))
    (key : string) :
  Py.dict_get key (ModelX.strip_prefixes state_dict)
  = snd <$> last (List.filter
                    (λ kv, bool_decide (ModelX.strip_prefix kv.1 = key))
                    state_dict).
Proof.
  unfold ModelX.strip_prefixes.
  rewrite (dict_update_lookup ModelX.strip_prefix).
  by destruct (last _).
Qed.

(** ** Loading, parameter by parameter *)

Section loaders.
Context {A : Type}.
Implicit Types (sd : list (string * tensor A)) (m model : Module A).
Implicit Types r : report.

(** X3. What [from_pretrained] leaves in the model: when it returns, the
    checkpoint was normalised without an exception and every parameter of
    the returned model holds the tensor the normalised checkpoint has under
    the parameter's key (with the start prefix), or the tensor it was built
    with when the checkpoint has no such key. *)
Theorem from_pretrained_populates model sd model' r :
  UniterPreTrainedModel.from_pretrained model sd = Return (model', r) →
  ∃ sd',
    UniterPreTrainedModel.normalized sd = Return sd' ∧
    let prefix := UniterPreTrainedModel.start_prefix model sd' in
    state_dict prefix model'
    = (λ kv : string * tensor A,
         (kv.1, default kv.2 (Py.dict_get kv.1 sd')))
      <$> state_dict prefix model.
Proof.
  intros Hload.
  destruct (UniterPreTrainedModel.normalized sd) as [sd'|e] eqn:Hn.
  2:{ unfold UniterPreTrainedModel.from_pretrained in Hload.
      by rewrite Hn in Hload. }
  exists sd'. split; [done|]. cbv zeta.
  rewrite (from_pretrained_cases model sd sd' Hn) in Hload.
  destruct (error_msgs (UniterPreTrainedModel.walk model sd').2) eqn:He;
    [|done].
  injection Hload as Hload. unfold UniterPreTrainedModel.walk in *.
  pose proof (load_populates sd' (UniterPreTrainedModel.start_prefix model sd')
                model He) as Hst.
  by rewrite Hload in Hst.
Qed.

(** X4. What [ModelX.load] leaves in the model: when it returns, every
    parameter holds the tensor the prefix-stripped checkpoint has under the
    parameter's key, or the tensor it had when the checkpoint has no such
    key. *)
Theorem ModelX_load_populates model sd l :
  ModelX.load model sd = Return l →
  state_dict "" (ModelX.model_after l)
  = (λ kv : string * tensor A,
       (kv.1, default kv.2 (Py.dict_get kv.1 (ModelX.strip_prefixes sd))))
    <$> state_dict "" model.
Proof.
  unfold ModelX.load. rewrite load_state_dict_cases.
  pose proof (load_populates (ModelX.strip_prefixes sd) "" model) as Hst.
  destruct (load (ModelX.strip_prefixes sd) "" model) as [m' r].
  cbn [fst snd] in *. destruct (error_msgs r); [|done].
  intros [= <-]. simpl. by apply Hst.
Qed.

(** X5. The lists of [from_pretrained], entry by entry, and its failure
    on sizes: after the walk over a normalised checkpoint, the missing keys
    are the parameters of the target whose key the checkpoint lacks, the
    copied keys those whose key it has with the parameter's shape, and the
    error messages one size-mismatch message for each parameter whose key
    it has with another shape, each list in the order of the target's state
    dict; so the call raises [RuntimeError] exactly when some parameter of
    the target has its key in the normalised checkpoint with a tensor of
    another shape. *)
Theorem from_pretrained_report model sd sd' :
  UniterPreTrainedModel.normalized sd = Return sd' →
  let target :=
    state_dict (UniterPreTrainedModel.start_prefix model sd') model in
  let r := (UniterPreTrainedModel.walk model sd').2 in
  missing_keys r = (List.filter (Walk.is_missing sd') target).*1 ∧
  copied_keys r = (List.filter (Walk.is_copied sd') target).*1 ∧
  error_msgs r
  = size_mismatch <$> (List.filter (Walk.is_mismatch sd') target).*1 ∧
  ((∃ msgs, UniterPreTrainedModel.from_pretrained model sd
            = Raise (RuntimeError msgs))
   ↔ ∃ key param input_param,
       (key, param) ∈ target ∧
       Py.dict_get key sd' = Some input_param ∧
       shape input_param ≠ shape param).
Proof.
  intros Hn target r.
  destruct (load_fields sd' model
              (UniterPreTrainedModel.start_prefix model sd'))
    as (H1 & H2 & H3).
  split_and!; [exact H1|exact H2|exact H3|].
  rewrite (from_pretrained_cases model sd sd' Hn).
  change (error_msgs (load sd' _ model).2) with (error_msgs r) in H3.
  change (List.filter _ (state_dict _ model))
    with (List.filter (Walk.is_mismatch sd') target) in H3.
  fold r. clearbody r target.
  split.
  - intros [msgs Hm].
    destruct (error_msgs r) as [|msg rest] eqn:He; [done|].
    assert (Hin : msg ∈ msg :: rest) by (by left).
    rewrite H3 in Hin.
    apply list_elem_of_fmap in Hin as (k & _ & Hk).
    apply list_elem_of_fmap in Hk as ([k' v] & -> & Hk).
    apply list_elem_of_In, filter_In in Hk as [Hk Hmis].
    apply list_elem_of_In in Hk.
    unfold Walk.is_mismatch in Hmis. simpl in *.
    destruct (Py.dict_get k' sd') as [t|] eqn:Hget; [|done].
    exists k', v, t. split_and!; [done..|].
    intros Hs. by rewrite (bool_decide_eq_true_2 _ Hs) in Hmis.
  - intros (k & v & t & Hk & Hget & Hs).
    assert (Hin : size_mismatch k ∈ error_msgs r).
    { rewrite H3. apply list_elem_of_fmap. exists k. split; [done|].
      apply list_elem_of_fmap. exists (k, v). split; [done|].
      apply list_elem_of_In, filter_In. split; [by apply list_elem_of_In|].
      unfold Walk.is_mismatch. simpl. rewrite Hget.
      by rewrite bool_decide_eq_false_2. }
    destruct (error_msgs r) as [|msg rest]; [by apply elem_of_nil in Hin|].
    eauto.
Qed.

(** X6. The tree walk never changes the architecture: whatever the
    checkpoint and the prefix, and whether or not the loader goes on to
    raise, the walked model has the keys of the target in their order and
    every parameter keeps its shape. *)
Theorem load_keeps_shapes sd prefix m :
  (state_dict prefix (load sd prefix m).1).*1 = (state_dict prefix m).*1 ∧
  shape <$> (state_dict prefix (load sd prefix m).1).*2
  = shape <$> (state_dict prefix m).*2.
Proof.
  rewrite load_state. split.
  - by rewrite <- list_fmap_compose.
  - rewrite <- !list_fmap_compose. apply Forall_fmap_ext, Forall_forall.
    intros [k v] _. simpl. unfold Walk.loaded_param.
    destruct (Py.dict_get k sd) as [t|]; [|done]. by case_decide.
Qed.

Lemma load_keys sd prefix m :
  state_dict_keys prefix (load sd prefix m).1 = state_dict_keys prefix m.
Proof.
  rewrite !state_dict_keys_fst, load_state.
  by rewrite <- list_fmap_compose.
Qed.

(** X7. Loading twice is loading once: when [ModelX.load] returns, loading
    the same checkpoint again into the model it left behind returns, shows
    the same key differences and leaves the same model. *)
Theorem ModelX_load_idempotent model sd l :
  ModelX.load model sd = Return l →
  ModelX.load (ModelX.model_after l) sd = Return l.
Proof.
  unfold ModelX.load. rewrite !load_state_dict_cases.
  pose proof (load_twice (ModelX.strip_prefixes sd) model "") as Ht.
  pose proof (load_keys (ModelX.strip_prefixes sd) "" model) as Hk.
  destruct (load (ModelX.strip_prefixes sd) "" model) as [m' r].
  cbn [fst snd] in *. destruct (error_msgs r) eqn:He; [|done].
  intros [= <-]. cbn [ModelX.model_after]. rewrite Ht. cbn [snd].
  by rewrite He, Hk.
Qed.

(** X8. A checkpoint that shares no key with the model loads in silence:
    when the normalised checkpoint has none of the target's keys,
    [from_pretrained] returns the model exactly as it was built, with every
    key of the target listed as missing and none copied. *)
Theorem from_pretrained_disjoint model sd sd' :
  UniterPreTrainedModel.normalized sd = Return sd' →
  let prefix := UniterPreTrainedModel.start_prefix model sd' in
  (∀ k, k ∈ state_dict_keys prefix model → Py.dict_get k sd' = None) →
  ∃ r,
    UniterPreTrainedModel.from_pretrained model sd = Return (model, r) ∧
    missing_keys r = state_dict_keys prefix model ∧
    copied_keys r = [] ∧
    error_msgs r = [].
Proof.
  intros Hn prefix Habs.
  rewrite (from_pretrained_cases model sd sd' Hn).
  unfold UniterPreTrainedModel.walk. fold prefix.
  destruct (load_fields sd' model prefix) as (H1 & H2 & H3).
  pose proof (load_absent sd' model prefix Habs) as Hm.
  destruct (load sd' prefix model) as [m' r]. cbn [fst snd] in *. subst m'.
  assert (Hall : Forall (λ kv : string * tensor A,
                           Py.dict_get kv.1 sd' = None)
                        (state_dict prefix model)).
  { apply Forall_forall. intros [k v] Hin. apply Habs.
    rewrite state_dict_keys_fst. apply list_elem_of_fmap. by exists (k, v). }
  assert (He : error_msgs r = []).
  { rewrite H3. replace (List.filter _ _) with ([] : list (string * tensor A));
      [done|].
    symmetry. apply filter_nil_iff. eapply Forall_impl; [exact Hall|].
    intros kv Hk. unfold Walk.is_mismatch. by rewrite Hk. }
  rewrite He. exists r. split_and!; [done| | |done].
  - rewrite H1, state_dict_keys_fst. f_equal. apply filter_true_ext.
    eapply Forall_impl; [exact Hall|]. intros kv Hk.
    unfold Walk.is_missing. by rewrite bool_decide_eq_true_2.
  - rewrite H2. replace (List.filter _ _)
      with ([] : list (string * tensor A)); [done|].
    symmetry. apply filter_nil_iff. eapply Forall_impl; [exact Hall|].
    intros kv Hk. unfold Walk.is_copied. by rewrite Hk.
Qed.

End loaders.

(** ** Examples: the loaders at concrete checkpoints *)

(** The UNITER checkpoint of seven position columns in a target of four:
    the weight arrives cut to four columns, the bias stays as built. *)
Lemma from_pretrained_populates_witness :
  ∃ sd',
    UniterPreTrainedModel.normalized Examples.uniter_checkpoint
      = Return sd' ∧
    state_dict "" Cases.pos_loaded
    = (λ kv : string * tensor Z,
         (kv.1, default kv.2 (Py.dict_get kv.1 sd')))
      <$> state_dict "" Examples.pos_target.
Proof.
  destruct (from_pretrained_populates Examples.pos_target
              Examples.uniter_checkpoint Cases.pos_loaded Cases.pos_report
              ltac:(vm_compute; reflexivity)) as (sd' & Hn & Hst).
  exists sd'. split; [exact Hn|].
  vm_compute in Hn. injection Hn as <-. exact Hst.
Defined.

(** A checkpoint saved through a wrapper: [module.w] lands in [w]. *)
Lemma ModelX_load_populates_witness :
  ∃ l,
    ModelX.load Examples.leaf Examples.wrapped_checkpoint = Return l ∧
    state_dict "" (ModelX.model_after l) = [("w", Vec [5])].
Proof.
  eexists. split; [reflexivity|].
  exact (ModelX_load_populates Examples.leaf Examples.wrapped_checkpoint
           _ eq_refl).
Defined.

(** The lists of that load, and a word embedding of three columns for a
    target of two. *)
Lemma from_pretrained_report_witness :
  (let r := (UniterPreTrainedModel.walk Examples.pos_target
               Cases.uniter_normalized).2 in
   missing_keys r = ["img_embeddings.pos_linear.bias"] ∧
   copied_keys r = ["img_embeddings.pos_linear.weight"] ∧
   error_msgs r = []) ∧
  ∃ msgs,
    UniterPreTrainedModel.from_pretrained Examples.word_target
      Examples.word_checkpoint = Raise (RuntimeError msgs).
Proof.
  split.
  - pose proof (from_pretrained_report Examples.pos_target
                  Examples.uniter_checkpoint Cases.uniter_normalized
                  ltac:(vm_compute; reflexivity)) as (H1 & H2 & H3 & _).
    vm_compute in H1, H2, H3. vm_compute. by split_and!.
  - apply (from_pretrained_report Examples.word_target
             Examples.word_checkpoint Examples.word_checkpoint eq_refl).
    exists "embeddings.word_embeddings.weight",
      (Mat [[0; 0]; [0; 0]]), (Mat [[1; 2; 3]; [4; 5; 6]]).
    split_and!; [|reflexivity|].
    + apply list_elem_of_lookup. by exists 0%nat.
    + intros Hs. discriminate Hs.
Defined.

(** The wrapped checkpoint, loaded a second time. *)
Lemma ModelX_load_idempotent_witness :
  ∃ l,
    ModelX.load Examples.leaf Examples.wrapped_checkpoint = Return l ∧
    ModelX.load (ModelX.model_after l) Examples.wrapped_checkpoint
    = Return l.
Proof.
  eexists. split; [reflexivity|].
  apply (ModelX_load_idempotent Examples.leaf). reflexivity.
Defined.

(** A checkpoint with legacy names and no tensor of the target. *)
Lemma from_pretrained_disjoint_witness :
  ∃ r,
    UniterPreTrainedModel.from_pretrained Examples.leaf
      Examples.legacy_checkpoint = Return (Examples.leaf, r) ∧
    missing_keys r = ["w"] ∧ copied_keys r = [] ∧ error_msgs r = [].
Proof.
  apply (from_pretrained_disjoint Examples.leaf Examples.legacy_checkpoint
           [("x.gamma", Vec [1])] eq_refl).
  intros k Hk. vm_compute in Hk.
  apply list_elem_of_singleton in Hk as ->. reflexivity.
Defined.


(** The two keys of the UNITER checkpoint lose their [uniter.] prefix; the
    layer-norm key keeps its [gamma]. *)
Lemma rename_keeps_tensors_witness :
  ∃ sd',
    UniterPreTrainedModel.rename_keys
      (UniterPreTrainedModel.renames (Py.keys Examples.uniter_checkpoint))
      Examples.uniter_checkpoint = Return sd' ∧
    Py.dict_get "img_embeddings.LayerNorm.gamma" sd' = Some (Vec [1; 1]).
Proof.
  destruct (rename_keeps_tensors Examples.uniter_checkpoint)
    as (sd' & Hret & Hget & _).
  - apply NoDup_cons. split; [|apply NoDup_singleton].
    intros H%list_elem_of_singleton. discriminate H.
  - vm_compute. apply NoDup_cons. split; [|apply NoDup_singleton].
    intros H%list_elem_of_singleton. discriminate H.
  - intros n Hn Hk. vm_compute in Hn, Hk.
    apply list_elem_of_In in Hn, Hk. simpl in Hn, Hk.
    destruct Hn as [<-|[<-|[]]]; destruct Hk as [Hk|[Hk|[]]];
      discriminate Hk.
  - exists sd'. split; [exact Hret|].
    exact (Hget "uniter.img_embeddings.LayerNorm.gamma" (Vec [1; 1])
             eq_refl).
Defined.

(** ** Preprocessing: the layout of the features *)

Section layout.
Context (tokenizer : Tokenizer) (max_seq_len : Z).

Lemma truncated_take (tokens : list string) :
  2 ≤ max_seq_len →
  (if Py.len tokens >? max_seq_len - 2
   then Py.slice_to (max_seq_len - 2) tokens else tokens)
  = take (Z.to_nat (max_seq_len - 2)) tokens.
Proof.
  intros Hm. destruct (Z.gtb_spec (Py.len tokens) (max_seq_len - 2)).
  - unfold Py.slice_to. destruct (Z.ltb_spec (max_seq_len - 2) 0); [lia|done].
  - symmetry. apply take_ge. unfold Py.len in *. lia.
Qed.

Lemma eqb_refl_len {X} (l : list X) n : Py.len l = n → (Py.len l =? n) = true.
Proof. intros ->. apply Z.eqb_refl. Qed.

Ltac len_side :=
  unfold Py.len, Py.times in *; rewrite ?length_app, ?length_replicate; lia.

(** X10. Layout of the BERT features: for [max_seq_len] of two or more,
    [preprocess_bert] gives each sentence the ids of [[CLS]], of the first
    [max_seq_len - 2] tokens of the whitespace-normalised sentence and of
    [[SEP]], then zeros up to [max_seq_len]; the mask is one on exactly
    these ids and zero on the padding; the segment ids are all zero. *)
Theorem preprocess_bert_layout (sent : string) :
  2 ≤ max_seq_len →
  let tokens :=
    kept_tokens tokenizer max_seq_len (Py.join " " (Py.split sent)) in
  let n := length tokens in
  let pad := (Z.to_nat max_seq_len - (n + 2))%nat in
  (n + 2 ≤ Z.to_nat max_seq_len)%nat ∧
  preprocess_bert_one max_seq_len tokenizer sent
  = Some {| input_ids :=
              convert_token_to_id tokenizer "[CLS]"
              :: (convert_token_to_id tokenizer <$> tokens)
              ++ convert_token_to_id tokenizer "[SEP]" :: replicate pad 0;
            input_mask := replicate (n + 2) 1 ++ replicate pad 0;
            segment_ids := replicate (Z.to_nat max_seq_len) 0 |}.
Proof.
  intros Hm tokens n pad.
  assert (Hn : (n + 2 ≤ Z.to_nat max_seq_len)%nat).
  { subst n tokens. unfold kept_tokens. rewrite length_take. lia. }
  split; [done|].
  unfold preprocess_bert_one. cbv zeta. rewrite truncated_take by done.
  fold (kept_tokens tokenizer max_seq_len (Py.join " " (Py.split sent))).
  fold tokens.
  set (ids := convert_tokens_to_ids _ _).
  assert (Hids : ids = convert_token_to_id tokenizer "[CLS]"
              :: (convert_token_to_id tokenizer <$> tokens)
              ++ [convert_token_to_id tokenizer "[SEP]"]).
  { subst ids. unfold convert_tokens_to_ids. by rewrite fmap_app, fmap_app. }
  assert (Hlen : Py.len ids = Z.of_nat (n + 2)).
  { rewrite Hids. unfold Py.len. simpl. rewrite length_app, length_fmap. simpl.
    subst n. lia. }
  assert (Hpad : Z.to_nat (max_seq_len - Py.len ids) = pad).
  { rewrite Hlen. subst pad. lia. }
  clearbody ids.
  rewrite !eqb_refl_len; [|len_side..].
  simpl. unfold Py.times. rewrite Hpad, Hlen, Nat2Z.id. f_equal.
  rewrite Hids. f_equal.
  - simpl. f_equal. by rewrite <- app_assoc.
  - rewrite <- replicate_add. f_equal. lia.
Qed.

(** X11. Layout of the RoBERTa features: for [max_seq_len] of two or more,
    [preprocess_roberta] gives each sentence the id 0, the ids of the first
    [max_seq_len - 2] tokens of the normalised sentence with a leading
    blank, and the id 2, then ones (the id of the pad token) up to
    [max_seq_len]; the mask is one on exactly the ids before the padding;
    the segment ids are all zero. *)
Theorem preprocess_roberta_layout (sent : string) :
  2 ≤ max_seq_len →
  let tokens :=
    kept_tokens tokenizer max_seq_len
      (" " +:+ Py.join " " (Py.split sent)) in
  let n := length tokens in
  let pad := (Z.to_nat max_seq_len - (n + 2))%nat in
  (n + 2 ≤ Z.to_nat max_seq_len)%nat ∧
  preprocess_roberta_one max_seq_len tokenizer sent
  = Some {| input_ids :=
              0 :: (convert_token_to_id tokenizer <$> tokens)
              ++ 2 :: replicate pad 1;
            input_mask := replicate (n + 2) 1 ++ replicate pad 0;
            segment_ids := replicate (Z.to_nat max_seq_len) 0 |}.
Proof.
  intros Hm tokens n pad.
  assert (Hn : (n + 2 ≤ Z.to_nat max_seq_len)%nat).
  { subst n tokens. unfold kept_tokens. rewrite length_take. lia. }
  split; [done|].
  unfold preprocess_roberta_one. cbv zeta. rewrite truncated_take by done.
  fold (kept_tokens tokenizer max_seq_len
          (" " +:+ Py.join " " (Py.split sent))).
  fold tokens.
  set (ids := [0] ++ convert_tokens_to_ids _ _ ++ [2]).
  assert (Hids : ids = 0 :: (convert_token_to_id tokenizer <$> tokens) ++ [2])
    by done.
  assert (Hlen : Py.len ids = Z.of_nat (n + 2)).
  { rewrite Hids. unfold Py.len. simpl. rewrite length_app, length_fmap. simpl.
    subst n. lia. }
  assert (Hpad : Z.to_nat (max_seq_len - Py.len ids) = pad).
  { rewrite Hlen. subst pad. lia. }
  clearbody ids.
  destruct (Z.gtb_spec (max_seq_len - Py.len ids) 0) as [Hgt|Hle].
  - rewrite !eqb_refl_len; [|len_side..].
    simpl. unfold Py.times. rewrite Hpad, Hlen, Nat2Z.id. f_equal.
    rewrite Hids. f_equal.
    + simpl. f_equal. by rewrite <- app_assoc.
    + rewrite <- replicate_add. f_equal. lia.
  - assert (pad = 0%nat) as Hp0 by lia.
    rewrite !eqb_refl_len; [|len_side..].
    simpl. unfold Py.times. rewrite Hlen, Nat2Z.id, Hp0. f_equal.
    rewrite Hids. simpl. rewrite app_nil_r.
    by replace (Z.to_nat max_seq_len) with (n + 2)%nat by lia.
Qed.
End layout.

(** ** Preprocessing: white space *)

Lemma startswith_mono (w v rest : string) :
  Py.startswith v w = true → Py.startswith (v +:+ rest) w = true.
Proof.
  revert v. induction w as [|a w IH]; intros v; [done|].
  destruct v as [|b v]; [done|]. rewrite append_cons. simpl.
  destruct (Ascii.eqb a b); [apply IH|done].
Qed.

(** A prefix without a blank that [v] followed by a blank starts with, [v]
    starts with. *)
Lemma startswith_inside (w v rest : string) :
  blank_free w = true → blank_next rest →
  Py.startswith (v +:+ rest) w = true → Py.startswith v w = true.
Proof.
  intros Hw Hrest. revert v Hw. induction w as [|a w IH]; intros v Hw; [done|].
  simpl in Hw. apply andb_true_iff in Hw as [Ha Hw].
  destruct v as [|b v].
  - destruct Hrest as [->|[rest' ->]]; [done|].
    revert Ha. simpl. by destruct (Ascii.eqb a " ").
  - rewrite append_cons. simpl. destruct (Ascii.eqb a b); [by apply IH|done].
Qed.

(** No white-space character is empty or has a blank behind its first
    byte. *)
Lemma whitespace_tails :
  Forall (λ w, tail_blank_free w = true) (Py.utf8 <$> Py.whitespace).
Proof. vm_compute. repeat constructor. Qed.

Lemma space_len_0 (s : string) :
  Py.space_len s = 0%nat ↔
  Forall (λ w, Py.startswith s w = false) (Py.utf8 <$> Py.whitespace).
Proof.
  unfold Py.space_len. split.
  - destruct (find _ _) as [w|] eqn:Hf.
    + apply find_some in Hf as [Hin Hw]. intros Hlen.
      pose proof whitespace_tails as Ht. rewrite Forall_forall in Ht.
      apply list_elem_of_In, Ht in Hin. by destruct w.
    + intros _. apply Forall_forall. intros w Hw.
      by apply (find_none _ _ Hf), list_elem_of_In.
  - intros Hall. destruct (find _ _) as [w|] eqn:Hf; [|done].
    apply find_some in Hf as [Hin Hw]. rewrite Forall_forall in Hall.
    apply list_elem_of_In in Hin. by rewrite (Hall w Hin) in Hw.
Qed.

(** What starts with no white space when more text follows starts with
    none on its own. *)
Lemma space_len_alone (v rest : string) :
  Py.space_len (v +:+ rest) = 0%nat → Py.space_len v = 0%nat.
Proof.
  rewrite !space_len_0. intros Hall. eapply Forall_impl; [exact Hall|].
  intros w Hw. simpl in Hw.
  destruct (Py.startswith v w) eqn:Hv; [|done].
  by rewrite (startswith_mono _ _ rest Hv) in Hw.
Qed.

(** Inside a word, the blank of [join] behind it completes no white-space
    character. *)
Lemma space_len_inside (c : ascii) (v rest : string) :
  blank_next rest →
  Py.space_len (String c v) = 0%nat →
  Py.space_len (String c v +:+ rest) = 0%nat.
Proof.
  intros Hrest. rewrite !space_len_0. intros Hall.
  pose proof whitespace_tails as Ht.
  rewrite Forall_forall in Hall, Ht. apply Forall_forall. intros w Hw.
  specialize (Hall w Hw). specialize (Ht w Hw).
  destruct (Py.startswith (String c v +:+ rest) w) eqn:Hs; [|done].
  rewrite <- Hall. destruct w as [|a w]; [done|].
  rewrite append_cons in Hs. simpl in *.
  destruct (Ascii.eqb a c); [|done].
  by rewrite (startswith_inside w v rest Ht Hrest Hs).
Qed.

Lemma free_of_space_alone (w rest : string) :
  free_of_space w rest → free_of_space w EmptyString.
Proof.
  induction w as [|c w IH]; [done|]. intros [Hc Hw]. split; [|by apply IH].
  rewrite append_nil_r. by apply (space_len_alone _ rest).
Qed.

Lemma free_of_space_snoc (w : string) (c : ascii) (rest : string) :
  free_of_space w (String c rest) → Py.space_len (String c rest) = 0%nat →
  free_of_space (w +:+ String c EmptyString) rest.
Proof.
  intros Hw Hc. induction w as [|a w IH]; [done|].
  destruct Hw as [Ha Hw]. rewrite append_cons. split; [|by apply IH].
  rewrite append_cons in *. by rewrite append_assoc.
Qed.

Lemma string_of_list_ascii_snoc (l : list ascii) (c : ascii) :
  String.string_of_list_ascii (l ++ [c])
  = String.string_of_list_ascii l +:+ String c EmptyString.
Proof. induction l as [|a l IH]; [done|]. simpl. by rewrite IH. Qed.

(** The scan gives words: while it reads a word, no white-space character
    starts inside what it has read. *)
Lemma split_from_words (s : string) :
  ∀ skip cur,
    (skip = 0%nat → free_of_space (String.string_of_list_ascii (rev cur)) s) →
    (skip ≠ 0%nat → cur = []) →
    Forall is_word (Py.split_from skip cur s).
Proof.
  assert (Hflush : ∀ cur rest,
            free_of_space (String.string_of_list_ascii (rev cur)) rest →
            Forall is_word
              match cur with
              | [] => []
              | _ => [String.string_of_list_ascii (rev cur)]
              end).
  { intros [|c cur] rest Hcur; [done|]. apply Forall_singleton. split.
    - intros H. apply (f_equal String.list_ascii_of_string) in H.
      rewrite String.list_ascii_of_string_of_list_ascii in H.
      simpl in H. by destruct (rev cur).
    - by apply (free_of_space_alone _ rest). }
  induction s as [|c s IH]; intros skip cur Hclean Hskip.
  - cbn [Py.split_from]. destruct skip as [|k].
    + by apply (Hflush cur EmptyString), Hclean.
    + by rewrite Hskip.
  - cbn [Py.split_from]. destruct skip as [|k].
    + destruct (Py.space_len (String c s)) as [|k] eqn:Hc.
      * apply IH; [|done]. intros _. simpl rev.
        rewrite string_of_list_ascii_snoc.
        by apply free_of_space_snoc; [apply Hclean|].
      * apply Forall_app.
        split; [by apply (Hflush cur (String c s)), Hclean|].
        apply IH; done.
    + rewrite Hskip by done. apply IH; done.
Qed.

Lemma split_from_word (w : string) :
  ∀ cur rest,
    free_of_space w EmptyString → blank_next rest →
    Py.split_from 0 cur (w +:+ rest)
    = Py.split_from 0 (rev (String.list_ascii_of_string w) ++ cur) rest.
Proof.
  induction w as [|c w IH]; intros cur rest Hw Hrest; [done|].
  destruct Hw as [Hc Hw]. rewrite append_nil_r in Hc.
  pose proof (space_len_inside c w rest Hrest Hc) as Hin.
  rewrite append_cons in *. cbn [Py.split_from]. rewrite Hin, IH by done.
  simpl. by rewrite <- app_assoc.
Qed.

Lemma split_from_flush (w : string) :
  w ≠ EmptyString →
  Py.split_from 0 (rev (String.list_ascii_of_string w)) EmptyString = [w].
Proof.
  intros Hw. cbn [Py.split_from].
  destruct (rev (String.list_ascii_of_string w)) as [|c l] eqn:Hr.
  - destruct w as [|c w]; [done|]. simpl in Hr. by destruct (rev _).
  - rewrite <- Hr, rev_involutive.
    by rewrite String.string_of_list_ascii_of_string.
Qed.

(** Splitting what [" ".join] put together gives the words back. *)
Lemma split_join (ws : list string) :
  Forall is_word ws → Py.split (Py.join " " ws) = ws.
Proof.
  unfold Py.split. induction 1 as [|w ws [Hne Hw] Hws IH]; [done|].
  destruct ws as [|w2 ws].
  - simpl. rewrite <- (append_nil_r w) at 1.
    rewrite split_from_word, app_nil_r by (done || by left).
    by apply split_from_flush.
  - change (Py.join " " (w :: w2 :: ws))
      with (w +:+ " " +:+ Py.join " " (w2 :: ws)).
    rewrite split_from_word, app_nil_r by (done || right; by eexists).
    change (" " +:+ Py.join " " (w2 :: ws))
      with (String " " (Py.join " " (w2 :: ws))).
    cbn [Py.split_from].
    change (Py.space_len (String " " (Py.join " " (w2 :: ws)))) with 1%nat.
    cbv iota. rewrite IH.
    pose proof (split_from_flush w Hne) as Hf. cbn [Py.split_from] in Hf.
    by rewrite Hf.
Qed.

(** [split] on white space outside ASCII: the no-break space, the
    ideographic space and the em space separate words as the blank does. *)
Lemma split_wide_spaces :
  Cases.wide_spaces
  = String "a" (String "194" (String "160"
      (String "b" (String "b" (String "227" (String "128" (String "128"
         (String " " (String "c" (String "c" (String "c"
            (String "226" (String "128" (String "131" "")))))))))))))) ∧
  Py.split Cases.wide_spaces = ["a"; "bb"; "ccc"] ∧
  Py.join " " (Py.split Cases.wide_spaces) = "a bb ccc".
Proof. split_and!; reflexivity. Qed.

(** X12. White space does not matter: normalising a sentence a second time
    changes nothing, [" ".join(s.split())] being left alone by
    [split], so both preprocessors give a sentence with runs of white space,
    or white space at its ends, the features of its normalised form. *)
Theorem preprocess_whitespace (tokenizer : Tokenizer) (max_seq_len : Z)
    (sent : string) :
  let normal := Py.join " " (Py.split sent) in
  Py.join " " (Py.split normal) = normal ∧
  preprocess_bert_one max_seq_len tokenizer normal
  = preprocess_bert_one max_seq_len tokenizer sent ∧
  preprocess_roberta_one max_seq_len tokenizer normal
  = preprocess_roberta_one max_seq_len tokenizer sent.
Proof.
  intros normal.
  assert (Hs : Py.split normal = Py.split sent).
  { apply split_join, split_from_words; done. }
  split_and!.
  - by rewrite Hs.
  - unfold preprocess_bert_one. by rewrite Hs.
  - unfold preprocess_roberta_one. by rewrite Hs.
Qed.

(** A sentence of three words, separated by a no-break space and by an
    ideographic space with a blank, cut to two tokens. *)
Lemma preprocess_bert_layout_witness :
  preprocess_bert_one 4 Examples.whitespace_tokenizer Cases.wide_spaces
  = Some {| input_ids := [5; 1; 2; 5];
            input_mask := [1; 1; 1; 1];
            segment_ids := [0; 0; 0; 0] |}.
Proof.
  exact (proj2 (preprocess_bert_layout Examples.whitespace_tokenizer 4
                  Cases.wide_spaces ltac:(lia))).
Defined.

(** The same sentence in six positions: the blank in front is dropped by
    this tokenizer, one pad id follows the end marker. *)
Lemma preprocess_roberta_layout_witness :
  preprocess_roberta_one 6 Examples.whitespace_tokenizer Cases.wide_spaces
  = Some {| input_ids := [0; 1; 2; 3; 2; 1];
            input_mask := [1; 1; 1; 1; 1; 0];
            segment_ids := [0; 0; 0; 0; 0; 0] |}.
Proof.
  exact (proj2 (preprocess_roberta_layout Examples.whitespace_tokenizer 6
                  Cases.wide_spaces ltac:(lia))).
Defined.

(** ** The forward pass: what makes it raise, and the encoder's two modes *)

Section forward_edges.
Context `{Backend}.

Lemma mapM_lookup_None {X Y} (f : X → option Y) (l : list X) (i : nat) x :
  l !! i = Some x → f x = None → mapM f l = None.
Proof.
  intros Hi Hx. apply mapM_None, Exists_exists. exists x.
  split; [by eapply list_elem_of_lookup_2|done].
Qed.

Lemma length_repeat0 {X} (n : nat) (t : list X) :
  length (Tensor.repeat0 n t) = (n * length t)%nat.
Proof.
  unfold Tensor.repeat0. induction n as [|n IH]; [done|].
  simpl. rewrite length_app, IH. lia.
Qed.

Lemma length_embedding (table : list (list F)) ids e :
  Tensor.embedding table ids = Some e → length e = length ids.
Proof. intros He. symmetry. by eapply length_mapM. Qed.

(** Two sizes that differ, neither of them one, do not broadcast. *)
Lemma bzip_mismatch {X Y Z'} (f : X → Y → option Z') xs ys :
  length xs ≠ length ys → length xs ≠ 1%nat → length ys ≠ 1%nat →
  Tensor.bzip f xs ys = None.
Proof.
  intros Hne Hx Hy. unfold Tensor.bzip. rewrite decide_False by done.
  destruct xs as [|x [|x' xs]]; [|done|];
    by destruct ys as [|y [|y' ys]].
Qed.

Lemma bzip_cons_None {X Y Z'} (f : X → Y → option Z') x xs y ys :
  length xs = length ys → f x y = None →
  Tensor.bzip f (x :: xs) (y :: ys) = None.
Proof.
  intros Hlen Hf. unfold Tensor.bzip. rewrite decide_True by (simpl; lia).
  simpl. by rewrite Hf.
Qed.


(** X14. A sequence longer than the position table: with the default
    position ids, the buffer [[0, ..., n-1]] of the [n ≥ 2] positions the
    model was built with, [forward] of the text embeddings raises on every
    non-empty batch whose sequences are longer than [n]. *)
Theorem text_sequence_too_long (self : UniterTextEmbeddings.t)
    (input_ids : list (list Z)) (token_type_ids : option (list (list Z)))
    (n : nat) (g : gen) :
  UniterTextEmbeddings.position_ids_ self = [Z.of_nat <$> seq 0 n] →
  (2 ≤ n)%nat →
  (n < Torch.width input_ids)%nat →
  (∀ t, token_type_ids = Some t → length t = length input_ids) →
  UniterTextEmbeddings.forward self input_ids None token_type_ids g = None.
Proof.
  intros Hbuf Hn HL Ht.
  unfold UniterTextEmbeddings.forward, mbind, M_bind, lift.
  destruct input_ids as [|row0 rest]; [simpl in HL; lia|].
  simpl in HL.
  destruct (Tensor.embedding _ (row0 :: rest)) as [ie|] eqn:Hie; [|done].
  rewrite Hbuf.
  destruct (Tensor.embedding _ (take _ <$> _)) as [pe|] eqn:Hpe; [|done].
  set (tt := match token_type_ids with
             | Some t => t
             | None => Tensor.zeros_like (row0 :: rest)
             end).
  assert (Htt : length tt = S (length rest)).
  { subst tt. destruct token_type_ids as [t|]; [by apply Ht|].
    unfold Tensor.zeros_like. by rewrite length_fmap. }
  destruct (Tensor.embedding _ tt) as [te|] eqn:Hte; [|done].
  apply length_embedding in Hte. rewrite Hte, Htt.
  (* the first example: [L] word embeddings against [n] positions *)
  unfold Tensor.embedding in Hie, Hpe. cbn [fmap list_fmap mapM] in Hie, Hpe.
  unfold mbind, option_bind in Hie, Hpe.
  destruct (mapM _ row0) as [e0|] eqn:He0; [|done].
  destruct (mapM _ rest) as [er|] eqn:Her; [|done]. injection Hie as <-.
  destruct (mapM _ (take _ _)) as [p0|] eqn:Hp0; [|done].
  injection Hpe as <-.
  apply length_mapM in He0, Hp0, Her.
  rewrite length_take, length_fmap, length_seq in Hp0. simpl in Hp0.
  unfold Tensor.repeat0. cbn [replicate concat app].
  unfold Tensor.add3.
  rewrite (bzip_cons_None _ e0 er p0); [done| |].
  - simpl. fold (Tensor.repeat0 (length rest) [p0]).
    rewrite length_repeat0. simpl. lia.
  - apply bzip_mismatch; lia.
Qed.

(** X15. An index outside the joint sequence: with a hidden size that is
    not zero, an entry of the gather index that is negative or not below
    the length of the text and image embeddings of its example makes
    the alignment raise. *)
Theorem gather_out_of_range (self : BertU.t)
    (txt_emb img_emb : list (list (list F))) (gather_index : list (list Z))
    (b j : nat) (e_t e_i : list (list F)) (r : list Z) (i : Z) :
  (0 < BertU.hidden_size self)%nat →
  txt_emb !! b = Some e_t → img_emb !! b = Some e_i →
  gather_index !! b = Some r → r !! j = Some i →
  i < 0 ∨ Z.of_nat (length e_t + length e_i) ≤ i →
  BertU.align self txt_emb img_emb gather_index = None.
Proof.
  intros HH Ht Hi Hr Hj Hout. unfold BertU.align.
  destruct (Tensor.cat_dim1 txt_emb img_emb) as [cat|] eqn:Hcat; [|done].
  simpl. unfold Tensor.cat_dim1 in Hcat.
  destruct (_ && _); [|done]. injection Hcat as <-.
  unfold Tensor.gather_dim1. case_decide as Hlen; [|done].
  eapply (mapM_lookup_None _ _ b).
  { rewrite lookup_zip_with. rewrite lookup_zip_with, Ht. simpl.
    rewrite Hi. simpl. unfold Tensor.expand_last.
    rewrite list_lookup_fmap, Hr. done. }
  simpl. eapply (mapM_lookup_None _ _ j).
  { rewrite list_lookup_fmap, Hj. done. }
  destruct (BertU.hidden_size self) as [|h]; [lia|].
  simpl. unfold Tensor.row.
  destruct (Z.leb_spec 0 i) as [Hi0|Hi0]; [|done].
  rewrite lookup_ge_None_2; [done|]. rewrite length_app. lia.
Qed.

Lemma Linear_forward_width (l : Linear) (t : list (list (list F)))
    (b j : nat) e v :
  t !! b = Some e → e !! j = Some v →
  length v ≠ Torch.width (weight l) →
  Linear_forward l t = None.
Proof.
  intros Hb Hj Hv. unfold Linear_forward.
  eapply mapM_lookup_None; [exact Hb|].
  eapply mapM_lookup_None; [exact Hj|]. by rewrite decide_False.
Qed.

(** X16. Position features of another width: a region whose position
    vector has not the width of the position projection, four columns
    unless [args.num_pos] is six, makes the image path raise. *)
Theorem image_position_width (self : BertU.t)
    (img_feat img_pos_feat : list (list (list F)))
    (img_type_ids : option (list (list Z))) (g : gen)
    (b j : nat) (e : list (list F)) (v : list F) :
  img_pos_feat !! b = Some e → e !! j = Some v →
  length v
    ≠ Torch.width
        (weight (UniterImageEmbeddings.pos_linear (BertU.img_embeddings self))) →
  BertU._compute_img_embeddings self img_feat img_pos_feat img_type_ids g
  = None.
Proof.
  intros Hb Hj Hv.
  unfold BertU._compute_img_embeddings, UniterImageEmbeddings.forward,
    mbind, M_bind, lift.
  destruct (BertU.img_type_ids_or_default _ _) as [ids|]; [|done].
  destruct (Tensor.embedding _ ids) as [te|]; [|done].
  destruct (Linear_forward (UniterImageEmbeddings.img_linear _) img_feat)
    as [im|]; [|done].
  by rewrite (Linear_forward_width _ _ b j e v).
Qed.

(** The loop of the encoder, whatever the flag: the last hidden state and
    the generator do not depend on it; with the flag every layer leaves
    its hidden state, without it none does. *)
Lemma layers_modes (layer : list layer_params) mask :
  ∀ h g,
    match UniterEncoder.layers layer h mask true g with
    | Some ((x, all), g') =>
        UniterEncoder.layers layer h mask false g = Some ((x, []), g') ∧
        length all = length layer ∧ x = default h (last all)
    | None => UniterEncoder.layers layer h mask false g = None
    end.
Proof.
  induction layer as [|l0 layer IH]; intros h g; [done|].
  cbn [UniterEncoder.layers]. unfold mbind, M_bind.
  destruct (BertLayer.forward l0 h mask g) as [[h1 g1]|]; [|done].
  specialize (IH h1 g1).
  destruct (UniterEncoder.layers layer h1 mask true g1)
    as [[[x all] g2]|].
  - destruct IH as (-> & Hlen & ->). simpl. split_and!; [done|by f_equal|].
    rewrite last_cons. by destruct (last all).
  - by rewrite IH.
Qed.

(** X17. The two modes of the encoder: with [output_all_encoded_layers]
    the encoder returns one hidden state for each layer, without it a list
    of one, and that one is the last of the former (the input itself when
    there is no layer); the two modes return or raise together and leave
    the dropout generator in the same state. *)
Theorem encoder_modes (layer : list layer_params)
    (input_ : list (list (list F)))
    (attention_mask : list (list (list (list F)))) (g : gen) :
  UniterEncoder.forward layer input_ attention_mask false g
  = (λ out : list (list (list (list F))) * gen,
       ([default input_ (last out.1)], out.2))
    <$> UniterEncoder.forward layer input_ attention_mask true g ∧
  ∀ all g',
    UniterEncoder.forward layer input_ attention_mask true g
      = Some (all, g') →
    length all = length layer.
Proof.
  pose proof (layers_modes layer attention_mask input_ g) as Hm.
  unfold UniterEncoder.forward, mbind, M_bind.
  destruct (UniterEncoder.layers layer input_ attention_mask true g)
    as [[[x all] g2]|].
  - destruct Hm as (-> & Hlen & ->). simpl.
    split; [done|]. by intros ?? [= <- <-].
  - rewrite Hm. split; [done|]. by intros ?? [=].
Qed.

(** X18. All encoded layers cannot be asked for: whatever the inputs,
    [forward] with [output_all_encoded_layers=True] raises, the pooler
    being handed the list of hidden states. *)
Theorem forward_all_layers_raises (self : BertU.t)
    (input_ids position_ids : option (list (list Z)))
    (img_feat img_pos_feat : option (list (list (list F))))
    (attention_mask : list (list Z))
    (gather_index txt_type_ids img_type_ids : option (list (list Z)))
    (g : gen) :
  BertU.forward self input_ids position_ids img_feat img_pos_feat
    attention_mask gather_index true txt_type_ids img_type_ids g = None.
Proof.
  unfold BertU.forward, BertU.encode, mbind, M_bind, lift.
  destruct (BertU.embedding_layer _ _ _ _ _ _ _ _ g) as [[e g1]|]; [|done].
  by destruct (UniterEncoder.forward _ _ _ _ g1) as [[ls g2]|].
Qed.

(** X19. The joint mode needs its gather index: with both text and image
    given and [gather_index] left at its default [None], [forward]
    raises. *)
Theorem joint_needs_gather_index (self : BertU.t)
    (input_ids : list (list Z)) (position_ids : option (list (list Z)))
    (img_feat : list (list (list F)))
    (img_pos_feat : option (list (list (list F))))
    (attention_mask : list (list Z)) (output_all_encoded_layers : bool)
    (txt_type_ids img_type_ids : option (list (list Z))) (g : gen) :
  BertU.forward self (Some input_ids) position_ids (Some img_feat)
    img_pos_feat attention_mask None output_all_encoded_layers
    txt_type_ids img_type_ids g = None.
Proof.
  unfold BertU.forward, BertU.embedding_layer,
    BertU._compute_img_txt_embeddings, mbind, M_bind, lift.
  destruct img_pos_feat as [img_pos_feat|]; [|done].
  destruct (BertU._compute_txt_embeddings _ _ _ _ g) as [[t g1]|]; [|done].
  by destruct (BertU._compute_img_embeddings _ _ _ _ g1) as [[i g2]|].
Qed.
End forward_edges.

(** ** Examples: the forward pass at concrete inputs *)

(** One layer that passes its input on. *)
Lemma encoder_modes_witness :
  ∃ all g',
    @UniterEncoder.forward Examples.Z_backend [()] [[[1; 2]; [3; 4]]]
      [[[[0; -10000]]]] true 0%nat = Some (all, g') ∧
    length all = 1%nat.
Proof.
  eexists _, _. split; [reflexivity|].
  exact (proj2 (@encoder_modes Examples.Z_backend [()] [[[1; 2]; [3; 4]]]
                  [[[[0; -10000]]]] 0%nat) _ _ eq_refl).
Defined.


(** A sentence of four tokens for a model of three positions. *)
Lemma text_sequence_too_long_witness :
  @UniterTextEmbeddings.forward Examples.Z_backend
    (@BertU.embeddings Examples.Z_backend Examples.tiny)
    [[1; 2; 1; 2]] None None 0%nat = None.
Proof.
  apply (@text_sequence_too_long Examples.Z_backend _ _ _ 3%nat).
  - reflexivity.
  - lia.
  - simpl. lia.
  - intros t Ht. discriminate Ht.
Defined.

(** One text position, one region, and the index 2. *)
Lemma gather_out_of_range_witness :
  @BertU.align Examples.Z_backend Examples.tiny
    [[[1; 2]]] [[[3; 4]]] [[0; 2]] = None.
Proof.
  apply (@gather_out_of_range Examples.Z_backend Examples.tiny
           [[[1; 2]]] [[[3; 4]]] [[0; 2]] 0%nat 1%nat
           [[1; 2]] [[3; 4]] [0; 2] 2).
  - simpl. lia.
  - reflexivity.
  - reflexivity.
  - reflexivity.
  - reflexivity.
  - right. simpl. lia.
Defined.

(** Position features of seven columns for a projection of four. *)
Lemma image_position_width_witness :
  @BertU._compute_img_embeddings Examples.Z_backend Examples.tiny
    [[[1; 2; 3]]] [[[1; 2; 3; 4; 5; 6; 7]]] None 0%nat = None.
Proof.
  apply (@image_position_width Examples.Z_backend Examples.tiny
           [[[1; 2; 3]]] [[[1; 2; 3; 4; 5; 6; 7]]] None 0%nat
           0%nat 0%nat [[1; 2; 3; 4; 5; 6; 7]] [1; 2; 3; 4; 5; 6; 7]).
  - reflexivity.
  - reflexivity.
  - simpl. lia.
Defined.

(** ** The visual losses of [BertVisualObjHead] *)

Lemma split_sep_nonempty sep s : BertVisualObjHead.split_sep sep s ≠ [].
Proof.
  destruct s as [|c s]; [done|]. simpl.
  destruct (Ascii.eqb c sep); [done|].
  by destruct (BertVisualObjHead.split_sep sep s).
Qed.

(** Joining the pieces with the separator gives the string back. *)
Lemma join_split_sep sep s :
  Py.join (String sep EmptyString) (BertVisualObjHead.split_sep sep s) = s.
Proof.
  induction s as [|c s IH]; [done|]. simpl.
  pose proof (split_sep_nonempty sep s) as Hne.
  destruct (Ascii.eqb_spec c sep) as [->|Hc].
  - destruct (BertVisualObjHead.split_sep sep s) as [|w ws]; [done|].
    change (Py.join (String sep "") ("" :: w :: ws))
      with ("" +:+ String sep "" +:+ Py.join (String sep "") (w :: ws)).
    by rewrite IH.
  - destruct (BertVisualObjHead.split_sep sep s) as [|w ws]; [done|].
    destruct ws as [|w' ws]; simpl in *; by rewrite <- IH.
Qed.

(** A piece without the separator is split off whole. *)
Lemma split_sep_piece sep (w rest : string) :
  Forall (λ c, Ascii.eqb c sep = false) (String.list_ascii_of_string w) →
  BertVisualObjHead.split_sep sep (w +:+ String sep rest)
  = w :: BertVisualObjHead.split_sep sep rest.
Proof.
  induction w as [|c w IH]; intros Hw.
  - simpl. by rewrite Ascii.eqb_refl.
  - simpl in Hw. apply Forall_cons in Hw as [Hc Hw].
    rewrite append_cons. simpl. rewrite Hc, IH by done. done.
Qed.

Lemma split_sep_last sep (w : string) :
  Forall (λ c, Ascii.eqb c sep = false) (String.list_ascii_of_string w) →
  BertVisualObjHead.split_sep sep w = [w].
Proof.
  induction w as [|c w IH]; intros Hw; [done|].
  simpl in Hw. apply Forall_cons in Hw as [Hc Hw].
  simpl. by rewrite Hc, IH.
Qed.

Lemma split_sep_join sep (ws : list string) :
  ws ≠ [] →
  Forall (λ w, Forall (λ c, Ascii.eqb c sep = false)
                 (String.list_ascii_of_string w)) ws →
  BertVisualObjHead.split_sep sep (Py.join (String sep EmptyString) ws) = ws.
Proof.
  intros Hne Hws. induction Hws as [|w ws Hw Hws IH]; [done|].
  destruct ws as [|w2 ws].
  - simpl. by apply split_sep_last.
  - change (Py.join (String sep "") (w :: w2 :: ws))
      with (w +:+ String sep "" +:+ Py.join (String sep "") (w2 :: ws)).
    change (String sep "" +:+ Py.join (String sep "") (w2 :: ws))
      with (String sep (Py.join (String sep "") (w2 :: ws))).
    rewrite split_sep_piece by done. by rewrite IH.
Qed.

Lemma visual_loss_no_comma w :
  w ∈ VisualConfig.VISUAL_LOSSES →
  Forall (λ c, Ascii.eqb c "," = false) (String.list_ascii_of_string w).
Proof.
  unfold VisualConfig.VISUAL_LOSSES. rewrite !elem_of_cons, elem_of_nil.
  intros [->|[->|[->|[]]]]; repeat constructor.
Qed.

Lemma asserts_all {X} (P : X → Prop) `{∀ x, Decision (P x)} (l : list X) :
  is_Some (mapM (λ x, assert (bool_decide (P x))) l) ↔ Forall P l.
Proof.
  rewrite mapM_is_Some. split; intros Hl; eapply Forall_impl; try exact Hl;
    intros x; simpl; unfold assert; case_bool_decide; try done.
Qed.

Lemma visual_losses_inv (s : string) (l : list string) :
  BertVisualObjHead.visual_losses s = Some l →
  l = BertVisualObjHead.split_sep "," s ∧
  Forall (λ loss, loss ∈ VisualConfig.VISUAL_LOSSES) l.
Proof.
  unfold BertVisualObjHead.visual_losses. intros Hs.
  destruct (mapM _ _) as [us|] eqn:Hm; [|done]. injection Hs as <-.
  split; [done|].
  apply (asserts_all (λ loss, loss ∈ VisualConfig.VISUAL_LOSSES)).
  by rewrite Hm.
Qed.

(** X20. The visual losses [BertVisualObjHead] accepts: the constructor
    gets past its assertions exactly for the strings that join one or more
    of [obj], [attr] and [feat] with single commas, and then keeps that
    list; the empty string, the default of [BertUPretraining], is not one
    of them, nor is a string with a blank or with a comma at its end. *)
Theorem visual_losses_accepted (s : string) (l : list string) :
  BertVisualObjHead.visual_losses s = Some l ↔
  l ≠ [] ∧ Forall (λ loss, loss ∈ VisualConfig.VISUAL_LOSSES) l ∧
  s = Py.join "," l.
Proof.
  split.
  - intros [-> Hall]%visual_losses_inv. split_and!; [|done|].
    + apply split_sep_nonempty.
    + symmetry. apply join_split_sep.
  - intros (Hne & Hall & ->). unfold BertVisualObjHead.visual_losses.
    rewrite split_sep_join; [|done|].
    2:{ eapply Forall_impl; [exact Hall|]. apply visual_loss_no_comma. }
    apply (asserts_all (λ loss, loss ∈ VisualConfig.VISUAL_LOSSES)) in Hall
      as [us ->].
    done.
Qed.

Lemma visual_loss_config_known key :
  key ∈ VisualConfig.VISUAL_LOSSES →
  is_Some (VisualConfig.visual_loss_config key).
Proof.
  unfold VisualConfig.VISUAL_LOSSES. rewrite !elem_of_cons, elem_of_nil.
  intros [->|[->|[->|[]]]]; by eexists.
Qed.

Lemma decoder_dict_foldl (l : list string) :
  Forall (λ loss, loss ∈ VisualConfig.VISUAL_LOSSES) l →
  ∀ d0 : list (string * Z),
  ∃ d,
    foldl (λ acc key,
             d ← acc;
             width ← VisualConfig.visual_loss_config key;
             Some (Py.dict_set key width d))
          (Some d0) l = Some d ∧
    ∀ key, Py.dict_get key d
           = if bool_decide (key ∈ l)
             then VisualConfig.visual_loss_config key
             else Py.dict_get key d0.
Proof.
  induction 1 as [|k l Hk _ IH]; intros d0.
  - exists d0. split; [done|]. intros key.
    rewrite bool_decide_eq_false_2; [done|apply not_elem_of_nil].
  - destruct (visual_loss_config_known k Hk) as [w Hw].
    cbn [foldl]. simpl. rewrite Hw. simpl.
    destruct (IH (Py.dict_set k w d0)) as (d & Hd & Hget).
    exists d. split; [done|]. intros key. rewrite Hget.
    destruct (decide (key = k)) as [->|Hne].
    + rewrite (bool_decide_eq_true_2 (k ∈ k :: l)) by by left.
      case_bool_decide; [done|]. by rewrite dict_get_set_eq.
    + rewrite dict_get_set_ne by done.
      case_bool_decide as Hin.
      * rewrite bool_decide_eq_true_2; [done|by right].
      * rewrite bool_decide_eq_false_2; [done|].
        by intros [?|?]%elem_of_cons.
Qed.

(** X21. A decoder for every accepted loss: for every list of losses the
    constructor accepts, [decoder_dict] is built without a [KeyError] and
    holds, for each loss of the list, the output width
    [visual_loss_config] gives it, and nothing under any other key, however
    often a loss is repeated. *)
Theorem decoder_dict_covers (s : string) (l : list string) :
  BertVisualObjHead.visual_losses s = Some l →
  ∃ d,
    BertVisualObjHead.decoder_dict l = Some d ∧
    ∀ key, Py.dict_get key d
           = if bool_decide (key ∈ l)
             then VisualConfig.visual_loss_config key else None.
Proof.
  intros [_ Hall]%visual_losses_inv.
  destruct (decoder_dict_foldl l Hall []) as (d & Hd & Hget).
  exists d. split; [exact Hd|exact Hget].
Qed.

Lemma visual_losses_accepted_witness :
  BertVisualObjHead.visual_losses "obj,feat" = Some ["obj"; "feat"] ∧
  BertVisualObjHead.visual_losses "" = None ∧
  BertVisualObjHead.visual_losses "obj, feat" = None.
Proof.
  split; [|split; reflexivity].
  apply (visual_losses_accepted "obj,feat" ["obj"; "feat"]).
  split_and!; [done| |reflexivity].
  repeat constructor.
Defined.

Lemma decoder_dict_covers_witness :
  ∃ d,
    BertVisualObjHead.decoder_dict ["obj"; "feat"; "obj"] = Some d ∧
    Py.dict_get "feat" d = Some 2048 ∧ Py.dict_get "attr" d = None.
Proof.
  destruct (decoder_dict_covers "obj,feat,obj" ["obj"; "feat"; "obj"]
              eq_refl) as (d & Hd & Hget).
  exists d. split; [exact Hd|].
  split; [exact (Hget "feat")|exact (Hget "attr")].
Defined.

(** ** [UniterConfig] *)

Lemma update_lookup (acc items : list (string * UniterConfig.json)) k :
  NoDup (Py.keys items) →
  Py.dict_get k (UniterConfig.update acc items)
  = match Py.dict_get k items with
    | Some v => Some v
    | None => Py.dict_get k acc
    end.
Proof.
  intros Hnd. unfold UniterConfig.update.
  rewrite (dict_update_lookup (λ key, key)).
  rewrite <- (last_filter_key items k Hnd). by destruct (last _).
Qed.

(** X22. What a configuration holds: [UniterConfig(path)] holds exactly
    the entries of the file's object; [from_dict] and [from_json_file] hold
    every entry of the object they are given and, for each of the eleven
    keys of the constructor that the object lacks, the default, which is
    [-1] for [vocab_size]; so the two ways of reading one file differ
    whenever the file leaves out one of these keys. *)
Theorem config_entries (json_object : list (string * UniterConfig.json)) :
  NoDup (Py.keys json_object) →
  ∃ by_path by_dict defaults,
    UniterConfig.new (UniterConfig.Path json_object) = Some by_path ∧
    UniterConfig.from_json_file json_object = Some by_dict ∧
    UniterConfig.new (UniterConfig.Size (-1)) = Some defaults ∧
    ∀ key,
      Py.dict_get key (UniterConfig.to_dict by_path)
      = Py.dict_get key json_object ∧
      Py.dict_get key (UniterConfig.to_dict by_dict)
      = match Py.dict_get key json_object with
        | Some v => Some v
        | None => Py.dict_get key defaults
        end.
Proof.
  intros Hnd. eexists _, _, _. split_and!; [reflexivity..|].
  intros key. unfold UniterConfig.to_dict. split.
  - rewrite update_lookup by done. by destruct (Py.dict_get key json_object).
  - by rewrite update_lookup.
Qed.

(** A file that sets only the hidden size. *)
Lemma config_entries_witness :
  ∃ by_path by_dict,
    UniterConfig.new
      (UniterConfig.Path [("hidden_size", UniterConfig.JInt 1024)])
      = Some by_path ∧
    UniterConfig.from_json_file [("hidden_size", UniterConfig.JInt 1024)]
      = Some by_dict ∧
    Py.dict_get "vocab_size" by_path = None ∧
    Py.dict_get "vocab_size" by_dict = Some (UniterConfig.JInt (-1)) ∧
    Py.dict_get "hidden_size" by_dict = Some (UniterConfig.JInt 1024).
Proof.
  destruct (config_entries [("hidden_size", UniterConfig.JInt 1024)])
    as (by_path & by_dict & defaults & Hp & Hd & Hdef & Hget).
  - apply NoDup_singleton.
  - exists by_path, by_dict. split; [exact Hp|]. split; [exact Hd|].
    vm_compute in Hdef. injection Hdef as <-.
    split; [exact (proj1 (Hget "vocab_size"))|].
    split; [exact (proj2 (Hget "vocab_size"))
           |exact (proj2 (Hget "hidden_size"))].
Defined.

(** ** Saving and loading again *)

Section save_load.
Context {A : Type}.
Implicit Types (sd : list (string * tensor A)) (m model : Module A).

Lemma dict_get_lookup {V} (d : list (string * V)) (i : nat) k v :
  NoDup (Py.keys d) → d !! i = Some (k, v) → Py.dict_get k d = Some v.
Proof.
  unfold Py.keys. revert i.
  induction d as [|[k0 v0] d IH]; intros i Hnd Hi; [done|].
  simpl in Hnd. apply NoDup_cons in Hnd as [Hk0 Hnd].
  destruct i as [|i]; simpl in *.
  - injection Hi as -> ->. by rewrite decide_True.
  - rewrite decide_False; [by eapply IH|].
    intros ->. apply Hk0. apply list_elem_of_fmap. exists (k, v).
    split; [done|]. by eapply list_elem_of_lookup_2.
Qed.

Lemma filter_ext_Forall {X} (f g : X → bool) (l : list X) :
  Forall (λ x, f x = g x) l → List.filter f l = List.filter g l.
Proof.
  induction 1 as [|x l Hx _ IH]; [done|]. simpl. by rewrite Hx, IH.
Qed.

(** Stripping changes nothing in a checkpoint without wrapper prefixes. *)
Lemma strip_prefixes_plain sd k :
  NoDup (Py.keys sd) →
  Forall (λ key, ModelX.strip_prefix key = key) (Py.keys sd) →
  Py.dict_get k (ModelX.strip_prefixes sd) = Py.dict_get k sd.
Proof.
  intros Hnd Hplain. unfold ModelX.strip_prefixes.
  rewrite (dict_update_lookup ModelX.strip_prefix).
  rewrite <- (last_filter_key sd k Hnd).
  rewrite (filter_ext_Forall _ (λ kv, bool_decide (kv.1 = k))).
  - by destruct (last _).
  - unfold Py.keys in Hplain. rewrite Forall_fmap in Hplain.
    eapply Forall_impl; [exact Hplain|]. intros [k' v'] Hk. simpl in *.
    by rewrite Hk.
Qed.

(** A checkpoint that has, for every parameter of the target, a tensor of
    its shape: the walk copies them all. *)
Lemma load_all sd (source target : list (string * tensor A)) :
  NoDup source.*1 →
  target.*1 = source.*1 →
  shape <$> target.*2 = shape <$> source.*2 →
  (∀ k, Py.dict_get k sd = Py.dict_get k source) →
  Forall (λ kv, Walk.is_missing sd kv = false ∧
                Walk.is_mismatch sd kv = false) target ∧
  (λ kv : string * tensor A, (kv.1, Walk.loaded_param sd kv.1 kv.2))
    <$> target = source.
Proof.
  intros Hnd Hkeys Hshapes Hsd.
  assert (Hpoint : ∀ i k v0, target !! i = Some (k, v0) →
            ∃ v, source !! i = Some (k, v) ∧ shape v = shape v0 ∧
                 Py.dict_get k sd = Some v).
  { intros i k v0 Hi.
    assert (Hk : source.*1 !! i = Some k).
    { by rewrite <- Hkeys, list_lookup_fmap, Hi. }
    rewrite list_lookup_fmap in Hk.
    destruct (source !! i) as [[k' v]|] eqn:Hs; [|done].
    simpl in Hk. injection Hk as ->.
    exists v. split_and!; [done| |].
    - assert (Hv : (shape <$> source.*2) !! i = Some (shape v)).
      { by rewrite !list_lookup_fmap, Hs. }
      rewrite <- Hshapes, !list_lookup_fmap, Hi in Hv. simpl in Hv.
      by injection Hv.
    - rewrite Hsd. by eapply dict_get_lookup. }
  split.
  - apply Forall_lookup. intros i [k v0] Hi.
    destruct (Hpoint i k v0 Hi) as (v & _ & Hs & Hget).
    unfold Walk.is_missing, Walk.is_mismatch. simpl. rewrite Hget.
    split; [by apply bool_decide_eq_false_2|].
    by rewrite bool_decide_eq_true_2.
  - apply list_eq. intros i. rewrite list_lookup_fmap.
    destruct (target !! i) as [[k v0]|] eqn:Hi; simpl.
    + destruct (Hpoint i k v0 Hi) as (v & -> & Hs & Hget).
      unfold Walk.loaded_param. rewrite Hget. by rewrite decide_True.
    + symmetry. apply lookup_ge_None. apply lookup_ge_None in Hi.
      assert (Hlen : length target.*1 = length source.*1) by by rewrite Hkeys.
      rewrite !length_fmap in Hlen. lia.
Qed.

(** X23. Saving and loading again: when no key of a model starts with one
    of the wrapper prefixes [module.], [model.], [roberta.] and [albert.],
    what [ModelX.save] writes for it loads with [ModelX.load] into every
    model of the same keys and shapes without an exception, with no key
    missing, and leaves that model with exactly the saved tensors. *)
Theorem save_load_round_trip model target path :
  NoDup (state_dict_keys "" model) →
  Forall (λ key, ModelX.strip_prefix key = key) (state_dict_keys "" model) →
  (state_dict "" target).*1 = (state_dict "" model).*1 →
  shape <$> (state_dict "" target).*2 = shape <$> (state_dict "" model).*2 →
  ∃ l,
    ModelX.load target (ModelX.save model path).2 = Return l ∧
    state_dict "" (ModelX.model_after l) = state_dict "" model ∧
    missing_keys (ModelX.walk_report l) = [].
Proof.
  intros Hnd Hplain Hkeys Hshapes. rewrite state_dict_keys_fst in Hnd, Hplain.
  cbn [ModelX.save snd]. set (sd := ModelX.strip_prefixes (state_dict "" model)).
  destruct (load_all sd (state_dict "" model) (state_dict "" target))
    as [Hall Hst]; [done..| |].
  { intros k. by apply strip_prefixes_plain. }
  destruct (load_fields sd target "") as (H1 & _ & H3).
  pose proof (load_state sd target "") as Hstate.
  unfold ModelX.load. fold sd. rewrite load_state_dict_cases.
  destruct (load sd "" target) as [m' r]. cbn [fst snd] in *.
  assert (He : error_msgs r = []).
  { rewrite H3. replace (List.filter _ _)
      with ([] : list (string * tensor A)); [done|].
    symmetry. apply filter_nil_iff. eapply Forall_impl; [exact Hall|].
    by intros kv [_ ?]. }
  rewrite He. eexists. split; [reflexivity|]. simpl. split.
  - by rewrite Hstate.
  - rewrite H1. replace (List.filter _ _)
      with ([] : list (string * tensor A)); [done|].
    symmetry. apply filter_nil_iff. eapply Forall_impl; [exact Hall|].
    by intros kv [? _].
Qed.

(** X24. A parameter no key of the checkpoint is stripped to: when
    [ModelX.load] returns, a parameter of the model to whose key no key of
    the checkpoint is stripped keeps its tensor and is among the missing
    keys; such is every parameter of a saved model whose own key starts
    with a wrapper prefix and is not what another key is stripped to. *)
Theorem load_skips_unmatched model sd l key param :
  ModelX.load model sd = Return l →
  (key, param) ∈ state_dict "" model →
  (∀ k, k ∈ Py.keys sd → ModelX.strip_prefix k ≠ key) →
  (key, param) ∈ state_dict "" (ModelX.model_after l) ∧
  key ∈ missing_keys (ModelX.walk_report l).
Proof.
  intros Hload Hin Hnone.
  assert (Hget : Py.dict_get key (ModelX.strip_prefixes sd) = None).
  { unfold ModelX.strip_prefixes.
    rewrite (dict_update_lookup ModelX.strip_prefix).
    replace (List.filter _ sd) with ([] : list (string * tensor A)); [done|].
    symmetry. apply filter_nil_iff, Forall_forall. intros [k v] Hk.
    apply bool_decide_eq_false_2, Hnone. simpl.
    apply list_elem_of_fmap. by exists (k, v). }
  unfold ModelX.load in Hload. rewrite load_state_dict_cases in Hload.
  destruct (load_fields (ModelX.strip_prefixes sd) model "") as (H1 & _).
  pose proof (load_state (ModelX.strip_prefixes sd) model "") as Hstate.
  destruct (load (ModelX.strip_prefixes sd) "" model) as [m' r].
  cbn [fst snd] in *. destruct (error_msgs r); [|done].
  injection Hload as <-. simpl. split.
  - rewrite Hstate. apply list_elem_of_fmap. exists (key, param).
    split; [|done]. simpl. unfold Walk.loaded_param. by rewrite Hget.
  - rewrite H1. apply list_elem_of_fmap. exists (key, param).
    split; [done|]. apply list_elem_of_In, filter_In.
    split; [by apply list_elem_of_In|].
    unfold Walk.is_missing. simpl. by rewrite bool_decide_eq_true_2.
Qed.
End save_load.

(** A leaf saved and loaded into a fresh leaf. *)
Lemma save_load_round_trip_witness :
  ∃ l,
    ModelX.load Examples.leaf (ModelX.save Cases.trained_leaf "snap").2
      = Return l ∧
    state_dict "" (ModelX.model_after l) = [("w", Vec [7])] ∧
    missing_keys (ModelX.walk_report l) = [].
Proof.
  apply (save_load_round_trip Cases.trained_leaf Examples.leaf "snap").
  - apply NoDup_singleton.
  - repeat constructor.
  - reflexivity.
  - reflexivity.
Defined.

(** A model that keeps its parameter in a child called [model]: what it
    saves does not load back. *)
Lemma load_skips_unmatched_witness :
  ∃ l,
    ModelX.load Cases.nested (ModelX.save Cases.trained_nested "snap").2
      = Return l ∧
    ("model.w", Vec [0]) ∈ state_dict "" (ModelX.model_after l) ∧
    "model.w" ∈ missing_keys (ModelX.walk_report l).
Proof.
  eexists. split; [reflexivity|].
  apply (load_skips_unmatched Cases.nested
           (ModelX.save Cases.trained_nested "snap").2).
  - reflexivity.
  - apply list_elem_of_singleton. reflexivity.
  - intros k Hk. vm_compute in Hk. apply list_elem_of_singleton in Hk as ->.
    vm_compute. discriminate.
Defined.

(** ** The attention heads *)

(** X25. The sizes of the attention heads: with [int(a / b)] exact on the
    exact quotients of integers up to 2^53, the constructor of
    [BertSelfAttention] raises [ZeroDivisionError] for no head, [ValueError]
    exactly when the number of heads does not divide the hidden size, and
    otherwise sets an [all_head_size] equal to the hidden size, each head
    having the exact quotient as its size. *)
Theorem head_sizes_cover (int_div : Z → Z → Z)
    (hidden_size num_attention_heads : Z) :
  (∀ a b, b ≠ 0 → a `mod` b = 0 → Z.abs a ≤ 2 ^ 53 → int_div a b = a `div` b) →
  Z.abs hidden_size ≤ 2 ^ 53 →
  match BertSelfAttention.__init__ int_div hidden_size num_attention_heads with
  | inl BertSelfAttention.ZeroDivisionError => num_attention_heads = 0
  | inl BertSelfAttention.ValueError =>
      num_attention_heads ≠ 0 ∧ ¬ (num_attention_heads | hidden_size)
  | inr (heads, size, all_head_size) =>
      heads = num_attention_heads ∧ heads ≠ 0 ∧
      hidden_size = heads * size ∧ all_head_size = hidden_size
  end.
Proof.
  intros Hexact Hsmall. unfold BertSelfAttention.__init__.
  destruct (Z.eqb_spec num_attention_heads 0) as [->|Hh]; [done|].
  destruct (Z.eqb_spec (hidden_size `mod` num_attention_heads) 0)
    as [Hmod|Hmod]; simpl.
  - rewrite Hexact by done.
    assert (hidden_size
            = num_attention_heads * (hidden_size `div` num_attention_heads))
      by (by apply Z.div_exact).
    split_and!; [done|done|done|by symmetry].
  - split; [done|]. intros Hdiv. apply Hmod.
    by apply Z.mod_divide.
Qed.

Section heads.
Context {X : Type}.
Implicit Types (v : list X) (e : list (list X)).

Lemma concat_pieces (heads size : nat) v :
  length v = (heads * size)%nat →
  concat ((λ i, take size (drop (i * size) v)) <$> seq 0 heads) = v.
Proof.
  revert v. induction heads as [|heads IH]; intros v Hv.
  - simpl in *. by destruct v.
  - cbn [seq fmap list_fmap concat]. rewrite <- fmap_S_seq.
    rewrite <- list_fmap_compose. simpl. rewrite drop_0.
    transitivity (take size v ++ drop size v); [|apply take_drop].
    f_equal.
    rewrite <- (IH (drop size v)) by (rewrite length_drop; lia).
    f_equal. apply list_fmap_ext. intros _ i _. simpl.
    by rewrite drop_drop.
Qed.

Lemma omap_lookup_fmap {Y} (f : nat → Y → X) (rows : list Y) (l : nat) y
    (indices : list nat) :
  rows !! l = Some y →
  omap (.!! l) ((λ i, f i <$> rows) <$> indices) = (λ i, f i y) <$> indices.
Proof.
  intros Hl. induction indices as [|i indices IH]; [done|].
  rewrite !fmap_cons. cbn [omap list_omap].
  rewrite list_lookup_fmap, Hl. simpl. f_equal. exact IH.
Qed.

Lemma omap_lookup_pieces {Y} (f : nat → Y → X) (rows : list Y) (i n : nat) :
  (i < n)%nat →
  omap (.!! i) ((λ y, (λ j, f j y) <$> seq 0 n) <$> rows) = f i <$> rows.
Proof.
  intros Hi. induction rows as [|y rows IH]; [done|].
  rewrite !fmap_cons. cbn [omap list_omap].
  rewrite list_lookup_fmap, lookup_seq_lt by done. simpl. f_equal.
  exact IH.
Qed.
End heads.

(** X26. Heads apart and together again: with at least one head, a tensor
    whose vectors have as many entries as heads times size is split by
    [transpose_for_scores] into one tensor for each head, and the
    [permute] and [view] at the end of [forward] put exactly this split
    together again. *)
Theorem heads_round_trip {X} (heads size : nat) (x : list (list (list X))) :
  (0 < heads)%nat →
  Forall (Forall (λ v, length v = (heads * size)%nat)) x →
  ∃ y,
    BertSelfAttention.transpose_for_scores heads size x = Some y ∧
    Forall (λ e, length e = heads) y ∧
    BertSelfAttention.merge_heads y = x.
Proof.
  intros Hh Hx.
  set (piece := λ (i : nat) (v : list X), take size (drop (i * size) v)).
  exists ((λ e : list (list X), (λ i, piece i <$> e) <$> seq 0 heads) <$> x).
  split_and!.
  - unfold BertSelfAttention.transpose_for_scores. apply mapM_Some.
    apply Forall2_fmap_r, Forall_Forall2_diag.
    eapply Forall_impl; [exact Hx|]. intros e He. simpl.
    assert (Hview : mapM (BertSelfAttention.view_heads heads size) e
                    = Some ((λ v, (λ i, piece i v) <$> seq 0 heads) <$> e)).
    { apply mapM_Some, Forall2_fmap_r, Forall_Forall2_diag.
      eapply Forall_impl; [exact He|]. intros v Hv. simpl.
      unfold BertSelfAttention.view_heads. by rewrite decide_True. }
    rewrite Hview. simpl. f_equal. unfold BertSelfAttention.permute_rows.
    apply Forall_fmap_ext, Forall_forall. intros i Hi.
    apply elem_of_seq in Hi. by apply omap_lookup_pieces; lia.
  - apply Forall_fmap, Forall_forall. intros e _. simpl.
    by rewrite length_fmap, length_seq.
  - unfold BertSelfAttention.merge_heads. rewrite <- list_fmap_compose.
    rewrite <- (list_fmap_id x) at 2. apply Forall_fmap_ext.
    eapply Forall_impl; [exact Hx|]. intros e He. simpl.
    assert (Hw : Torch.width ((λ i, piece i <$> e) <$> seq 0 heads)
                 = length e).
    { destruct heads as [|h]; [lia|]. simpl. by rewrite length_fmap. }
    rewrite Hw. unfold BertSelfAttention.permute_rows. rewrite <- list_fmap_compose.
    apply list_eq. intros l. rewrite list_lookup_fmap.
    destruct (e !! l) as [v|] eqn:Hl.
    + rewrite lookup_seq_lt by (by eapply lookup_lt_Some). simpl. f_equal.
      rewrite (omap_lookup_fmap piece e l v) by done.
      apply concat_pieces.
      by eapply (Forall_lookup_1 _ _ _ _ He).
    + rewrite lookup_seq_ge; [done|]. by apply lookup_ge_None.
Qed.

(** A hidden size of 768 in twelve heads. *)
Lemma head_sizes_cover_witness :
  BertSelfAttention.__init__ Z.div 768 12 = inr (12, 64, 768) ∧
  12 ≠ 0 ∧ 768 = 12 * 64.
Proof.
  pose proof (head_sizes_cover Z.div 768 12 ltac:(by intros) ltac:(simpl; lia))
    as H.
  change (BertSelfAttention.__init__ Z.div 768 12) with
    (inr (12, 64, 768) : BertSelfAttention.init_error + Z * Z * Z) in H.
  destruct H as (_ & H1 & H2 & _). done.
Defined.

(** Two heads of size two on a sentence of two positions. *)
Lemma heads_round_trip_witness :
  ∃ y,
    BertSelfAttention.transpose_for_scores 2 2 [[[1; 2; 3; 4]; [5; 6; 7; 8]]] = Some y ∧
    Forall (λ e, length e = 2%nat) y ∧
    BertSelfAttention.merge_heads y = [[[1; 2; 3; 4]; [5; 6; 7; 8]]].
Proof.
  apply (heads_round_trip 2 2 [[[1; 2; 3; 4]; [5; 6; 7; 8]]]).
  - lia.
  - repeat constructor.
Defined.
